(** * pygwalker.services.spec: resolution, migration and reconciliation of chart specs

    A shallow embedding of [pygwalker/services/spec.py] together with the
    parts of the Python runtime the module leans on ([str] methods, [int(s, 16)],
    [json.loads] / [json.dumps], [distutils.version.StrictVersion],
    [os.path.basename]), followed by the properties of the module.

    Conventions.
    - A Python [str] is a list of code points ([text]); [T "..."] turns a
      literal into one.
    - A Python exception is a value of [exn]; a computation that may raise
      has a [result] type; a computation that touches the file system or the
      network is a function of the process state [world] (monad [io]).
    - Collaborators that live outside the module (the cloud reader, the URL
      opener, the column-name sanitizer, the random string source, the
      privacy flag) are fields of [env].
    - Floating point is left abstract: reading a float token, and comparing
      floats with each other and with integers, are operations of the class
      [PyFloat]. *)

From Stdlib Require Import String Ascii.
From Stdlib Require Import List Bool Arith ZArith NArith Lia.
From Stdlib Require DecimalFacts DecimalPos DecimalN.
Import ListNotations.

Abbreviation length := Datatypes.length (only parsing).

Set Implicit Arguments.
Set Warnings "-register-all".

(** ** Text *)

Abbreviation char := N (only parsing).
Abbreviation text := (list N) (only parsing).

Definition T (s : String.string) : text :=
  map N_of_ascii (String.list_ascii_of_string s).

Definition ch (a : ascii) : char := N_of_ascii a.

Arguments T s%_string.
Arguments ch a%_char.

(** [Q "..."] is [T "..."] with every apostrophe turned into a double quote:
    JSON text is written [Q "{'a': 1}"]. *)
Definition Q (s : String.string) : text :=
  map (fun c => if N.eqb c 39 then 34%N else c) (T s).

Arguments Q s%_string.

Fixpoint text_eqb (a b : text) : bool :=
  match a, b with
  | [], [] => true
  | x :: a', y :: b' => N.eqb x y && text_eqb a' b'
  | _, _ => false
  end.

(** [s.startswith(p)] *)
Fixpoint startswith (s p : text) : bool :=
  match p, s with
  | [], _ => true
  | x :: p', y :: s' => N.eqb x y && startswith s' p'
  | _ :: _, [] => false
  end.

(** [s.replace(old, new)]: every non-overlapping occurrence of [old], scanning
    from the left; with an empty [old], [new] is put before every character
    and at the end. [skip] counts the characters of an occurrence still to be
    dropped. *)
Fixpoint replace_from (old new s : text) (skip : nat) : text :=
  match s with
  | [] => []
  | c :: s' =>
      match skip with
      | S k => replace_from old new s' k
      | O => if startswith s old
             then new ++ replace_from old new s' (length old - 1)
             else c :: replace_from old new s' 0
      end
  end.

Definition replace (s old new : text) : text :=
  match old with
  | [] => new ++ flat_map (fun c => c :: new) s
  | _ :: _ => replace_from old new s 0
  end.

(** [os.path.basename], on a POSIX system: what follows the last slash. *)
Fixpoint basename (p : text) : text :=
  match p with
  | [] => []
  | c :: r =>
      if N.eqb c (ch "/") || existsb (N.eqb (ch "/")) r then basename r else p
  end.

(** ** Exceptions and results *)

Inductive exn : Type :=
| PrivacyError
| InvalidConfigIdError
| ValueError
| JSONDecodeError
| UnicodeDecodeError
| UnicodeEncodeError
| TypeError
| KeyError
| AttributeError
| OSError
| URLError.

(** [except ValueError] catches [ValueError] and its subclasses
    [json.JSONDecodeError], [UnicodeDecodeError] and [UnicodeEncodeError]. *)
Definition is_ValueError (e : exn) : bool :=
  match e with
  | ValueError | JSONDecodeError | UnicodeDecodeError | UnicodeEncodeError =>
      true
  | _ => false
  end.

Inductive result (A : Type) : Type :=
| Ok (a : A)
| Raise (e : exn).

Arguments Ok {A} a.
Arguments Raise {A} e.

Definition rbind {A B} (m : result A) (k : A -> result B) : result B :=
  match m with
  | Ok a => k a
  | Raise e => Raise e
  end.

Declare Scope py_scope.
Delimit Scope py_scope with py.
Notation "x <- m ;; k" := (rbind m (fun x => k))
  (at level 61, m at next level, right associativity) : py_scope.
Notation "' p <- m ;; k" := (rbind m (fun x => match x with p => k end))
  (at level 61, p pattern, m at next level, right associativity) : py_scope.

(** ** [int(s, 16)]

    Only success or failure matters to the module. A character outside
    ASCII is first turned into an ASCII character: white space into a blank,
    a decimal digit of any script into its ASCII digit, anything else into a
    question mark. The text is then stripped of ASCII white space, an
    optional sign and an optional [0x] prefix (after which one underscore may
    follow) are skipped, and what is left must be a non-empty run of
    hexadecimal digits in which single underscores may separate digits. *)

Definition in_range (lo hi c : N) : bool := N.leb lo c && N.leb c hi.

Definition is_digit (c : char) : bool := in_range 48 57 c.

Definition is_hex (c : char) : bool :=
  in_range 48 57 c || in_range 97 102 c || in_range 65 70 c.

(** White space of the C locale. *)
Definition is_c_space (c : char) : bool := in_range 9 13 c || N.eqb c 32.

(** White space above ASCII ([str.isspace]). *)
Definition is_unicode_space (c : char) : bool :=
  N.eqb c 133 || N.eqb c 160
  || N.eqb c 5760 || in_range 8192 8202 c || N.eqb c 8232 || N.eqb c 8233
  || N.eqb c 8239 || N.eqb c 8287 || N.eqb c 12288.

(** The decimal digits above ASCII come in runs of ten, from the zero of a
    script to its nine. These are the zeros (Unicode 14.0, the data base of
    Python 3.11), from the Arabic-Indic digits to the segmented digits. *)
Definition decimal_zeros : list N :=
  [1632; 1776; 1984; 2406; 2534; 2662; 2790; 2918; 3046; 3174; 3302; 3430;
   3558; 3664; 3792; 3872; 4160; 4240; 6112; 6160; 6470; 6608; 6784; 6800;
   6992; 7088; 7232; 7248; 42528; 43216; 43264; 43472; 43504; 43600; 44016;
   65296; 66720; 68912; 69734; 69872; 69942; 70096; 70384; 70736; 70864;
   71248; 71360; 71472; 71904; 72016; 72784; 73040; 73120; 92768; 92864;
   93008; 120782; 120792; 120802; 120812; 120822; 123200; 123632; 125264;
   130032]%N.

(** The value of a decimal digit above ASCII. *)
Definition unicode_decimal (c : char) : option N :=
  match find (fun z => in_range z (z + 9) c) decimal_zeros with
  | Some z => Some (c - z)%N
  | None => None
  end.

(** What [int] makes of a character before it reads the text. (A text that
    is all ASCII is read as it is, character 127 included; that character is
    refused either way.) *)
Definition to_ascii (c : char) : char :=
  if N.ltb c 127 then c
  else if is_unicode_space c then 32%N
  else match unicode_decimal c with
       | Some d => (48 + d)%N
       | None => ch "?"
       end.

Fixpoint lstrip_int (s : text) : text :=
  match s with
  | c :: r => if is_c_space c then lstrip_int r else s
  | [] => []
  end.

Definition skip_sign (s : text) : text :=
  match s with
  | c :: r => if N.eqb c (ch "+") || N.eqb c (ch "-") then r else s
  | [] => []
  end.

Definition skip_hex_prefix (s : text) : text :=
  match s with
  | z :: x :: r =>
      if N.eqb z (ch "0") && (N.eqb x (ch "x") || N.eqb x (ch "X"))
      then match r with
           | u :: r' => if N.eqb u (ch "_") then r' else r
           | [] => r
           end
      else s
  | _ => s
  end.

(** The run of digits and underscores; [None] on a doubled or trailing
    underscore, otherwise what follows the run. *)
Fixpoint scan_hex_digits (s : text) (prev_underscore : bool) : option text :=
  match s with
  | c :: r =>
      if N.eqb c (ch "_")
      then if prev_underscore then None else scan_hex_digits r true
      else if is_hex c then scan_hex_digits r false
      else if prev_underscore then None else Some s
  | [] => if prev_underscore then None else Some []
  end.

(** What is left after the prefix: digits, then white space only. *)
Definition digits_ok (s : text) : bool :=
  match s with
  | c :: _ =>
      is_hex c &&
      match scan_hex_digits s false with
      | Some rest => forallb is_c_space rest
      | None => false
      end
  | [] => false
  end.

Definition int16_ok (s : text) : bool :=
  digits_ok (skip_hex_prefix (skip_sign (lstrip_int (map to_ascii s)))).

(** [int(s, 16)] as the module uses it: a value it drops, or [ValueError]. *)
Definition int16 (s : text) : result unit :=
  if int16_ok s then Ok tt else Raise ValueError.

(** ** [distutils.version.StrictVersion] *)

Fixpoint span (p : char -> bool) (s : text) : text * text :=
  match s with
  | c :: r => if p c then let '(a, b) := span p r in (c :: a, b) else ([], s)
  | [] => ([], [])
  end.

Definition decimal_value (s : text) : N :=
  fold_left (fun acc c => (10 * acc + (c - 48))%N) s 0%N.

Record StrictVersion : Type := {
  version : N * N * N;
  prerelease : option (char * N)
}.

(** The tail [([ab](\d+))?$] of the version pattern; [$] also matches before
    a final newline. *)
Definition parse_prerelease (s : text) : option (option (char * N)) :=
  let at_end (r : text) : bool :=
    match r with
    | [] => true
    | [c] => N.eqb c 10
    | _ => false
    end in
  if at_end s then Some None
  else match s with
       | c :: r =>
           if N.eqb c (ch "a") || N.eqb c (ch "b")
           then match span is_digit r with
                | ((_ :: _) as num, rest) =>
                    if at_end rest then Some (Some (c, decimal_value num))
                    else None
                | ([], _) => None
                end
           else None
       | [] => None
       end.

(** [StrictVersion.parse]: the pattern
    [^(\d+) \. (\d+) (\. (\d+))? ([ab](\d+))?$]. *)
Definition parse_version (s : text) : option StrictVersion :=
  match span is_digit s with
  | ((_ :: _) as major, d1 :: r1) =>
      if N.eqb d1 (ch ".") then
        match span is_digit r1 with
        | ((_ :: _) as minor, r2) =>
            let two := (decimal_value major, decimal_value minor) in
            let without_patch :=
              match parse_prerelease r2 with
              | Some pre => Some {| version := (two, 0%N); prerelease := pre |}
              | None => None
              end in
            match r2 with
            | d2 :: r3 =>
                if N.eqb d2 (ch ".") then
                  match span is_digit r3 with
                  | ((_ :: _) as patch, r4) =>
                      match parse_prerelease r4 with
                      | Some pre =>
                          Some {| version := (two, decimal_value patch);
                                  prerelease := pre |}
                      | None => None
                      end
                  | ([], _) => None
                  end
                else without_patch
            | [] => without_patch
            end
        | ([], _) => None
        end
      else None
  | _ => None
  end.

Definition triple_compare (a b : N * N * N) : comparison :=
  let '(a1, a2, a3) := a in
  let '(b1, b2, b3) := b in
  match N.compare a1 b1 with
  | Eq => match N.compare a2 b2 with
          | Eq => N.compare a3 b3
          | c => c
          end
  | c => c
  end.

Definition pair_compare (a b : char * N) : comparison :=
  match N.compare (fst a) (fst b) with
  | Eq => N.compare (snd a) (snd b)
  | c => c
  end.

(** [StrictVersion._cmp] *)
Definition _cmp (self other : StrictVersion) : comparison :=
  match triple_compare (version self) (version other) with
  | Eq =>
      match prerelease self, prerelease other with
      | None, None => Eq
      | Some _, None => Lt
      | None, Some _ => Gt
      | Some p, Some q => pair_compare p q
      end
  | c => c
  end.

(** [self <= other], that is [self._cmp(other) <= 0]. *)
Definition version_le (self other : StrictVersion) : bool :=
  match _cmp self other with
  | Gt => false
  | _ => true
  end.

(** ** JSON values

    What [json.loads] builds: [None], [bool], [int], [float], [str], [list]
    and [dict]. A [dict] keeps its insertion order, so it is an association
    list in which every key occurs once. A float is kept as its canonical
    text (see [PyFloat]). *)

Inductive json : Type :=
| JNull
| JBool (b : bool)
| JInt (z : Z)
| JFloat (f : text)
| JStr (s : text)
| JArr (items : list json)
| JObj (members : list (text * json)).

(** [d.get(k)] and [d[k] = v] on an insertion-ordered dict. *)
Fixpoint dict_get {V} (k : text) (d : list (text * V)) : option V :=
  match d with
  | [] => None
  | (k', v) :: r => if text_eqb k k' then Some v else dict_get k r
  end.

Fixpoint dict_set {V} (k : text) (v : V) (d : list (text * V)) : list (text * V) :=
  match d with
  | [] => [(k, v)]
  | (k', v') :: r =>
      if text_eqb k k' then (k', v) :: r else (k', v') :: dict_set k v r
  end.

(** What Python does with a float in this module. A float is kept as the
    text [json.dumps] prints for it, [float_canon token] for the float read
    from [token]; [float_intval] is the integer the float is equal to, if
    any; [float_eqb] is [==] on floats. *)
Class PyFloat : Type := {
  float_canon : text -> text;
  float_intval : text -> option Z;
  float_eqb : text -> text -> bool
}.

(** ** [json.loads] *)

Definition is_json_ws (c : char) : bool :=
  N.eqb c 32 || N.eqb c 9 || N.eqb c 10 || N.eqb c 13.

Fixpoint skip_ws (s : text) : text :=
  match s with
  | c :: r => if is_json_ws c then skip_ws r else s
  | [] => []
  end.

Definition hex_value (c : char) : option N :=
  if in_range 48 57 c then Some (c - 48)%N
  else if in_range 97 102 c then Some (c - 87)%N
  else if in_range 65 70 c then Some (c - 55)%N
  else None.

Definition hex4 (a b c d : char) : option N :=
  match hex_value a, hex_value b, hex_value c, hex_value d with
  | Some x, Some y, Some z, Some w => Some (((x * 16 + y) * 16 + z) * 16 + w)%N
  | _, _, _, _ => None
  end.

Definition is_high_surrogate (u : N) : bool := in_range 55296 56319 u.
Definition is_low_surrogate (u : N) : bool := in_range 56320 57343 u.

Definition join_surrogates (hi lo : N) : N :=
  (65536 + ((hi - 55296) * 1024 + (lo - 56320)))%N.

Definition unescape (e : char) : option char :=
  if N.eqb e (34%N) then Some (34%N)
  else if N.eqb e (ch "\") then Some (ch "\")
  else if N.eqb e (ch "/") then Some (ch "/")
  else if N.eqb e (ch "b") then Some 8%N
  else if N.eqb e (ch "f") then Some 12%N
  else if N.eqb e (ch "n") then Some 10%N
  else if N.eqb e (ch "r") then Some 13%N
  else if N.eqb e (ch "t") then Some 9%N
  else None.

Definition flush (pending : option N) (acc : text) : text :=
  match pending with
  | Some hi => hi :: acc
  | None => acc
  end.

(** The body of a string literal, after its opening quote. [pending] is a
    high surrogate read from a [\u] escape that may still pair with a low one
    in the escape that follows; [acc] is the text so far, reversed. *)
Fixpoint scan_string (s : text) (pending : option N) (acc : text)
  : option (text * text) :=
  match s with
  | [] => None
  | c :: r =>
      if N.eqb c (34%N) then Some (rev (flush pending acc), r)
      else if N.eqb c (ch "\") then
        match r with
        | [] => None
        | e :: r1 =>
            if N.eqb e (ch "u") then
              match r1 with
              | h1 :: h2 :: h3 :: h4 :: r2 =>
                  match hex4 h1 h2 h3 h4 with
                  | None => None
                  | Some u =>
                      match pending with
                      | Some hi =>
                          if is_low_surrogate u
                          then scan_string r2 None (join_surrogates hi u :: acc)
                          else if is_high_surrogate u
                          then scan_string r2 (Some u) (hi :: acc)
                          else scan_string r2 None (u :: hi :: acc)
                      | None =>
                          if is_high_surrogate u
                          then scan_string r2 (Some u) acc
                          else scan_string r2 None (u :: acc)
                      end
                  end
              | _ => None
              end
            else
              match unescape e with
              | Some x => scan_string r1 None (x :: flush pending acc)
              | None => None
              end
        end
      else if N.leb c 31 then None
      else scan_string r None (c :: flush pending acc)
  end.

Inductive parsed (A : Type) : Type :=
| Parsed (a : A) (rest : text)
| Malformed
| OutOfFuel.

Arguments Parsed {A} a rest.
Arguments Malformed {A}.
Arguments OutOfFuel {A}.

Section Loads.

Context {floats : PyFloat}.

(** A number token: an optional minus, then 0 or a run of digits that does
    not start with 0, then an optional fraction (a dot and digits) and an
    optional exponent (e or E, an optional sign, digits); an integer when it
    has neither fraction nor exponent. *)
Definition scan_minus (s : text) : bool * text :=
  match s with
  | c :: r => if N.eqb c (ch "-") then (true, r) else (false, s)
  | [] => (false, s)
  end.

Definition scan_int_part (s : text) : option (text * text) :=
  match s with
  | d :: r =>
      if in_range 49 57 d then Some (span is_digit s)
      else if N.eqb d 48 then Some ([d], r)
      else None
  | [] => None
  end.

Definition scan_frac (s : text) : text * text :=
  match s with
  | p :: r =>
      if N.eqb p (ch ".") then
        match span is_digit r with
        | ((_ :: _) as ds, r') => (p :: ds, r')
        | ([], _) => ([], s)
        end
      else ([], s)
  | [] => ([], s)
  end.

Definition scan_exp (s : text) : text * text :=
  match s with
  | e :: r =>
      if N.eqb e (ch "e") || N.eqb e (ch "E") then
        let '(sign, r') :=
          match r with
          | g :: r'' =>
              if N.eqb g (ch "+") || N.eqb g (ch "-")
              then ([g], r'') else ([], r)
          | [] => ([], r)
          end in
        match span is_digit r' with
        | ((_ :: _) as ds, r'') => (e :: sign ++ ds, r'')
        | ([], _) => ([], s)
        end
      else ([], s)
  | [] => ([], s)
  end.

Definition scan_number (s : text) : option (json * text) :=
  let '(neg, s1) := scan_minus s in
  match scan_int_part s1 with
  | None => None
  | Some (digits, r1) =>
      let '(frac, r2) := scan_frac r1 in
      let '(expo, r3) := scan_exp r2 in
      let minus := if neg then [ch "-"] else [] in
      match frac, expo with
      | [], [] =>
          let n := Z.of_N (decimal_value digits) in
          Some (JInt (if neg then - n else n)%Z, r3)
      | _, _ => Some (JFloat (float_canon (minus ++ digits ++ frac ++ expo)), r3)
      end
  end.

(** The scanner: one value at the head of [s]. White space has been skipped
    by the caller. [parse_items] reads what follows [[] when it is not []],
    [parse_members] what follows [{] when it is not [}]; a repeated key
    keeps its first place and takes the last value. *)
Fixpoint parse_value (fuel : nat) (s : text) : parsed json :=
  match fuel with
  | O => OutOfFuel
  | S fuel' =>
      match s with
      | [] => Malformed
      | c :: r =>
          if N.eqb c (34%N) then
            match scan_string r None [] with
            | Some (str, rest) => Parsed (JStr str) rest
            | None => Malformed
            end
          else if N.eqb c (ch "{") then
            match skip_ws r with
            | c2 :: r2 =>
                if N.eqb c2 (ch "}") then Parsed (JObj []) r2
                else parse_members fuel' (c2 :: r2) []
            | [] => Malformed
            end
          else if N.eqb c (ch "[") then
            match skip_ws r with
            | c2 :: r2 =>
                if N.eqb c2 (ch "]") then Parsed (JArr []) r2
                else parse_items fuel' (c2 :: r2) []
            | [] => Malformed
            end
          else if startswith s (T "null") then Parsed JNull (skipn 4 s)
          else if startswith s (T "true") then Parsed (JBool true) (skipn 4 s)
          else if startswith s (T "false") then Parsed (JBool false) (skipn 5 s)
          else if startswith s (T "NaN")
          then Parsed (JFloat (float_canon (T "NaN"))) (skipn 3 s)
          else if startswith s (T "Infinity")
          then Parsed (JFloat (float_canon (T "Infinity"))) (skipn 8 s)
          else if startswith s (T "-Infinity")
          then Parsed (JFloat (float_canon (T "-Infinity"))) (skipn 9 s)
          else
            match scan_number s with
            | Some (v, rest) => Parsed v rest
            | None => Malformed
            end
      end
  end
with parse_items (fuel : nat) (s : text) (acc : list json) : parsed json :=
  match fuel with
  | O => OutOfFuel
  | S fuel' =>
      match parse_value fuel' s with
      | Parsed v rest =>
          match skip_ws rest with
          | c :: r =>
              if N.eqb c (ch "]") then Parsed (JArr (rev (v :: acc))) r
              else if N.eqb c (ch ",")
              then parse_items fuel' (skip_ws r) (v :: acc)
              else Malformed
          | [] => Malformed
          end
      | Malformed => Malformed
      | OutOfFuel => OutOfFuel
      end
  end
with parse_members (fuel : nat) (s : text) (acc : list (text * json))
  : parsed json :=
  match fuel with
  | O => OutOfFuel
  | S fuel' =>
      match s with
      | c :: r =>
          if N.eqb c (34%N) then
            match scan_string r None [] with
            | Some (key, rest) =>
                match skip_ws rest with
                | c2 :: r2 =>
                    if N.eqb c2 (ch ":") then
                      match parse_value fuel' (skip_ws r2) with
                      | Parsed v rest2 =>
                          match skip_ws rest2 with
                          | c3 :: r3 =>
                              if N.eqb c3 (ch "}")
                              then Parsed (JObj (dict_set key v acc)) r3
                              else if N.eqb c3 (ch ",")
                              then parse_members fuel' (skip_ws r3)
                                     (dict_set key v acc)
                              else Malformed
                          | [] => Malformed
                          end
                      | Malformed => Malformed
                      | OutOfFuel => OutOfFuel
                      end
                    else Malformed
                | [] => Malformed
                end
            | None => Malformed
            end
          else Malformed
      | [] => Malformed
      end
  end.

(** [json.loads(s)] for a [str]: one value, white space around it, nothing
    else; [JSONDecodeError] otherwise. Every call of the scanner takes at
    least one character or follows one that did, so twice the length is
    fuel enough ([json_loads_fuel]). Two limits of the interpreter are not
    part of the model: the depth of recursion, and the number of digits an
    integer may have. *)
Definition json_loads (s : text) : result json :=
  match parse_value (2 * length s + 1) (skip_ws s) with
  | Parsed v rest =>
      match skip_ws rest with
      | [] => Ok v
      | _ :: _ => Raise JSONDecodeError
      end
  | Malformed => Raise JSONDecodeError
  | OutOfFuel => Raise JSONDecodeError
  end.

End Loads.

(** ** [json.dumps]

    With the defaults: [", "] and [": "] as separators, every character
    outside printable ASCII escaped. *)

Fixpoint uint_text (u : Decimal.uint) : text :=
  match u with
  | Decimal.Nil => []
  | Decimal.D0 r => 48%N :: uint_text r
  | Decimal.D1 r => 49%N :: uint_text r
  | Decimal.D2 r => 50%N :: uint_text r
  | Decimal.D3 r => 51%N :: uint_text r
  | Decimal.D4 r => 52%N :: uint_text r
  | Decimal.D5 r => 53%N :: uint_text r
  | Decimal.D6 r => 54%N :: uint_text r
  | Decimal.D7 r => 55%N :: uint_text r
  | Decimal.D8 r => 56%N :: uint_text r
  | Decimal.D9 r => 57%N :: uint_text r
  end.

Definition int_text (z : Z) : text :=
  match z with
  | Zneg p => ch "-" :: uint_text (Pos.to_uint p)
  | _ => uint_text (N.to_uint (Z.to_N z))
  end.

Definition hex_digit (n : N) : char :=
  if N.ltb n 10 then (48 + n)%N else (87 + n)%N.

Definition u_escape (n : N) : text :=
  [ch "\"; ch "u"; hex_digit (n / 4096 mod 16); hex_digit (n / 256 mod 16);
   hex_digit (n / 16 mod 16); hex_digit (n mod 16)]%N.

Definition escape_char (c : char) : text :=
  if N.eqb c 34 then [ch "\"; 34%N]
  else if N.eqb c (ch "\") then [ch "\"; ch "\"]
  else if N.eqb c 10 then [ch "\"; ch "n"]
  else if N.eqb c 13 then [ch "\"; ch "r"]
  else if N.eqb c 9 then [ch "\"; ch "t"]
  else if N.eqb c 8 then [ch "\"; ch "b"]
  else if N.eqb c 12 then [ch "\"; ch "f"]
  else if in_range 32 126 c then [c]
  else if N.ltb c 65536 then u_escape c
  else let v := (c - 65536)%N in
       u_escape (55296 + v / 1024 mod 1024) ++ u_escape (56320 + v mod 1024).

Definition quote (s : text) : text :=
  34%N :: flat_map escape_char s ++ [34%N].

Fixpoint join (sep : text) (l : list text) : text :=
  match l with
  | [] => []
  | [x] => x
  | x :: r => x ++ sep ++ join sep r
  end.

Fixpoint json_dumps (v : json) : text :=
  match v with
  | JNull => T "null"
  | JBool true => T "true"
  | JBool false => T "false"
  | JInt z => int_text z
  | JFloat f => f
  | JStr s => quote s
  | JArr items =>
      ch "[" :: join (T ", ") (map json_dumps items) ++ [ch "]"]
  | JObj members =>
      ch "{" :: join (T ", ")
                  (map (fun kv => quote (fst kv) ++ T ": " ++ json_dumps (snd kv))
                       members)
             ++ [ch "}"]
  end.

(** ** Python operations on values *)

Section Values.

Context {floats : PyFloat}.

(** [bool(v)] *)
Definition truthy (v : json) : bool :=
  match v with
  | JNull => false
  | JBool b => b
  | JInt z => negb (Z.eqb z 0)
  | JFloat f => match float_intval f with
                  | Some z => negb (Z.eqb z 0)
                  | None => true
                  end
  | JStr s => match s with [] => false | _ :: _ => true end
  | JArr l => match l with [] => false | _ :: _ => true end
  | JObj m => match m with [] => false | _ :: _ => true end
  end.

(** The integer a number is equal to, [bool] being a kind of [int]. *)
Definition intval (v : json) : option Z :=
  match v with
  | JBool true => Some 1%Z
  | JBool false => Some 0%Z
  | JInt z => Some z
  | JFloat f => float_intval f
  | _ => None
  end.

(** [a == b] on the hashable values: [None], numbers and [str]. *)
Definition key_eqb (a b : json) : bool :=
  match a, b with
  | JNull, JNull => true
  | JStr x, JStr y => text_eqb x y
  | JFloat x, JFloat y => float_eqb x y
  | _, _ =>
      match intval a, intval b with
      | Some x, Some y => Z.eqb x y
      | _, _ => false
      end
  end.

Definition hashable (v : json) : bool :=
  match v with
  | JArr _ | JObj _ => false
  | _ => true
  end.

(** [d[k] = v] on a dict whose keys are any hashable values. *)
Fixpoint kdict_set {V} (k : json) (v : V) (d : list (json * V)) : list (json * V) :=
  match d with
  | [] => [(k, v)]
  | (k', v') :: r =>
      if key_eqb k k' then (k', v) :: r else (k', v') :: kdict_set k v r
  end.

(** [v[k]] with a [str] key: [KeyError] on a dict without it, [TypeError] on
    anything that is not a dict. *)
Definition getitem (v : json) (k : text) : result json :=
  match v with
  | JObj m => match dict_get k m with
              | Some x => Ok x
              | None => Raise KeyError
              end
  | _ => Raise TypeError
  end.

(** [v.get(k, default)]: only a dict has the method. *)
Definition get (v : json) (k : text) (default : json) : result json :=
  match v with
  | JObj m => match dict_get k m with
              | Some x => Ok x
              | None => Ok default
              end
  | _ => Raise AttributeError
  end.

(** [for x in v]: the items of a list, the keys of a dict, the characters of
    a [str]. *)
Definition iterate (v : json) : result (list json) :=
  match v with
  | JArr l => Ok l
  | JObj m => Ok (map (fun kv => JStr (fst kv)) m)
  | JStr s => Ok (map (fun c => JStr [c]) s)
  | _ => Raise TypeError
  end.

(** [for x in a + b]: two lists or two strings concatenate; two numbers add
    to a number, which cannot be iterated; nothing else adds. *)
Definition iterate_sum (a b : json) : result (list json) :=
  match a, b with
  | JArr x, JArr y => Ok (x ++ y)
  | JStr x, JStr y => Ok (map (fun c => JStr [c]) (x ++ y))
  | _, _ => Raise TypeError
  end.

(** [json.loads(v)] for any value [v]: only a [str] is read. *)
Definition loads (v : json) : result json :=
  match v with
  | JStr s => json_loads s
  | _ => Raise TypeError
  end.

End Values.

(** ** The world around the module *)

(** What a call may do to the outside: ask the cloud service, open a URL,
    create a file. *)
Inductive event : Type :=
| CloudRead (arg : text)
| UrlOpen (url : text) (timeout : nat)
| FileCreate (path : text).

Definition is_network (e : event) : bool :=
  match e with
  | CloudRead _ | UrlOpen _ _ => true
  | FileCreate _ => false
  end.

(** A path that exists names a file whose bytes are UTF-8 ([content] is
    the text that is read from it), a file whose bytes are not, or something
    that cannot be opened for reading (a directory, a file without read
    permission). *)
Inductive node : Type :=
| File (content : text)
| Undecodable
| Unreadable.

(** The collaborators of the module.
    - [privacy] is [GlobalVarManager.privacy].
    - [read_config_from_cloud] is the function of
      [pygwalker.services.cloud_service].
    - [urlopen url timeout] is the body of the response to
      [request.urlopen(url, timeout=timeout)], decoded as UTF-8, or what the
      call raises.
    - [can_create path] tells whether the system lets [open(path, "w")]
      create a file at a path that does not exist.
    - [rename_columns] is the sanitizer of
      [pygwalker.services.fname_encodings]; it returns a list of [str].
    - [rand_str n] is what the [n]-th call of [pygwalker.utils.randoms.rand_str]
      returns. *)
Record env : Type := {
  privacy : text;
  read_config_from_cloud : text -> result text;
  urlopen : text -> nat -> result text;
  can_create : text -> bool;
  rename_columns : list json -> list text;
  rand_str : nat -> text
}.

Record world : Type := {
  files : list (text * node);
  trace : list event
}.

Definition io (A : Type) : Type := world -> result A * world.

Definition ret {A} (a : A) : io A := fun w => (Ok a, w).

Definition raise {A} (e : exn) : io A := fun w => (Raise e, w).

Definition bind {A B} (m : io A) (k : A -> io B) : io B :=
  fun w => match m w with
           | (Ok a, w') => k a w'
           | (Raise e, w') => (Raise e, w')
           end.

Definition lift {A} (r : result A) : io A := fun w => (r, w).

Declare Scope io_scope.
Delimit Scope io_scope with io.
Notation "x <- m ;; k" := (bind m (fun x => k))
  (at level 61, m at next level, right associativity) : io_scope.
Notation "' p <- m ;; k" := (bind m (fun x => match x with p => k end))
  (at level 61, p pattern, m at next level, right associativity) : io_scope.

Definition emit (e : event) : io unit :=
  fun w => (Ok tt, {| files := files w; trace := trace w ++ [e] |}).

(** A path is handed to the system as bytes (UTF-8, a surrogate from U+DC80
    to U+DCFF standing for a byte that is not UTF-8, as on a POSIX system):
    a path that holds another surrogate cannot be encoded, and an encoded
    path may hold no NUL. *)
Definition path_error (path : text) : option exn :=
  if existsb (fun c => in_range 55296 57343 c && negb (in_range 56448 56575 c))
       path
  then Some UnicodeEncodeError
  else if existsb (N.eqb 0) path then Some ValueError
  else None.

(** [os.path.exists(path)]: false also for a path that cannot be handed to
    the system. *)
Definition exists_ (path : text) : io bool :=
  fun w => (Ok (match path_error path with
                | Some _ => false
                | None => match dict_get path (files w) with
                          | Some _ => true
                          | None => false
                          end
                end), w).

(** [open(path, "r", encoding="utf-8")] and [f.read()] *)
Definition read_file (path : text) : io text :=
  fun w => match path_error path with
           | Some e => (Raise e, w)
           | None =>
               match dict_get path (files w) with
               | Some (File c) => (Ok c, w)
               | Some Undecodable => (Raise UnicodeDecodeError, w)
               | _ => (Raise OSError, w)
               end
           end.

Section Module.

Context {floats : PyFloat}.
Variable E : env.

(** [open(path, "w", encoding="utf-8")] and [f.write("")] *)
Definition write_empty (path : text) : io unit :=
  fun w => match path_error path with
           | Some e => (Raise e, w)
           | None =>
               if can_create E path
               then (Ok tt, {| files := dict_set path (File []) (files w);
                               trace := trace w ++ [FileCreate path] |})
               else (Raise OSError, w)
           end.

Definition net_get (url : text) (timeout : nat) : io text :=
  (_ <- emit (UrlOpen url timeout) ;; lift (urlopen E url timeout))%io.

Definition cloud_read (arg : text) : io text :=
  (_ <- emit (CloudRead arg) ;; lift (read_config_from_cloud E arg))%io.

(** ** The module *)

Definition _is_json (s : text) : result bool :=
  match json_loads s with
  | Ok _ => Ok true
  | Raise e => if is_ValueError e then Ok false else Raise e
  end.

Definition config_url (config_id : text) : text :=
  T "https://i4rwxmw117.execute-api.us-east-1.amazonaws.com/default/pygwalker-config?config_id="
    ++ config_id.

(** [json_data["code"] != 0] *)
Definition not_zero (v : json) : bool :=
  match intval v with
  | Some z => negb (Z.eqb z 0)
  | None => true
  end.

Definition _get_spec_from_server (config_id : text) : io json :=
  (body <- net_get (config_url config_id) 30 ;;
   lift (json_data <- json_loads body ;;
         code <- getitem json_data (T "code") ;;
         if not_zero code then Raise InvalidConfigIdError
         else data <- getitem json_data (T "data") ;;
              getitem data (T "config_json"))%py)%io.

Definition _get_spec_from_url (url : text) : io text := net_get url 15.

Definition _get_spec_from_local (path : text) : io text := read_file path.

Definition _is_config_id (config_id : text) : result bool :=
  if negb (Nat.eqb (length config_id) 32) then Ok false
  else match int16 config_id with
       | Ok _ => Ok true
       | Raise e => if is_ValueError e then Ok false else Raise e
       end.

Definition offline : bool := text_eqb (privacy E) (T "offline").

Definition _get_spec_json_from_diff_source (spec : text) : io (json * text) :=
  (match spec with
   | [] => ret (JStr [], T "empty_string")
   | _ :: _ =>
       is_json <- lift (_is_json spec) ;;
       if is_json : bool then ret (JStr spec, T "json_string")
       else if startswith spec (T "ksf://") then
         if offline then raise PrivacyError
         else r <- cloud_read (skipn 6 spec) ;; ret (JStr r, T "json_ksf")
       else if startswith spec (T "http:") || startswith spec (T "https:") then
         if offline then raise PrivacyError
         else r <- _get_spec_from_url spec ;; ret (JStr r, T "json_http")
       else
         is_id <- lift (_is_config_id spec) ;;
         if is_id : bool then
           if offline then raise PrivacyError
           else r <- _get_spec_from_server spec ;; ret (r, T "json_server")
         else if Nat.ltb 200 (length (basename spec)) then raise ValueError
         else
           file_exist <- exists_ spec ;;
           if file_exist : bool then
             r <- _get_spec_from_local spec ;; ret (JStr r, T "json_file")
           else
             _ <- write_empty spec ;; ret (JStr [], T "json_file")
   end)%io.

Definition sentinels : list text := [T "gw_mea_val_fid"; T "gw_mea_key_fid"].

(** [field.get("fid") not in ["gw_mea_val_fid", "gw_mea_key_fid"]] *)
Definition not_sentinel (fid : json) : bool :=
  negb (existsb (fun s => key_eqb fid (JStr s)) sentinels).

(** The dict comprehension of [_config_adapter], one field at a time: the
    condition, then the key, then the value, then the insertion. *)
Fixpoint old_fid_fname_map (fields : list json) (acc : list (json * json))
  : result (list (json * json)) :=
  match fields with
  | [] => Ok acc
  | field :: rest =>
      (computed <- get field (T "computed") (JBool false) ;;
       if truthy computed then old_fid_fname_map rest acc
       else
         fid <- get field (T "fid") JNull ;;
         if negb (not_sentinel fid) then old_fid_fname_map rest acc
         else
           key <- getitem field (T "fid") ;;
           name <- getitem field (T "name") ;;
           if hashable key then old_fid_fname_map rest (kdict_set key name acc)
           else Raise TypeError)%py
  end.

(** [for old_fid, new_fid in zip(...): config = config.replace(old_fid, new_fid)] *)
Fixpoint replace_all (config : text) (pairs : list (json * text)) : result text :=
  match pairs with
  | [] => Ok config
  | (old_fid, new_fid) :: rest =>
      match old_fid with
      | JStr old => replace_all (replace config old new_fid) rest
      | _ => Raise TypeError
      end
  end.

(** The fields a chart item lists: [dimensions] followed by [measures]. *)
Definition item_fields (chart_item : json) : result (list json) :=
  (enc <- getitem chart_item (T "encodings") ;;
   dims <- getitem enc (T "dimensions") ;;
   enc' <- getitem chart_item (T "encodings") ;;
   meas <- getitem enc' (T "measures") ;;
   iterate_sum dims meas)%py.

(** The pairs (old id, new id) one chart item contributes. *)
Definition item_renames (chart_item : json) : result (list (json * text)) :=
  (fields <- item_fields chart_item ;;
   m <- old_fid_fname_map fields [] ;;
   let old_fid_list := map fst m in
   let fname_list := map snd m in
   let new_fid_list := rename_columns E fname_list in
   Ok (combine old_fid_list new_fid_list))%py.

(** The body of the loop of [_config_adapter] over the chart items. *)
Fixpoint adapt_items (items : list json) (config : text) : result text :=
  match items with
  | [] => Ok config
  | chart_item :: rest =>
      (pairs <- item_renames chart_item ;;
       config' <- replace_all config pairs ;;
       adapt_items rest config')%py
  end.

Definition _config_adapter (config : json) : result text :=
  (config_obj <- loads config ;;
   items <- iterate config_obj ;;
   match config with
   | JStr c => adapt_items items c
   | _ => Raise TypeError
   end)%py.

(** A dataset field, [Dict[str, str]]: every key occurs once. *)
Definition field_dict : Type := list (text * text).

(** [field[k]] on a dataset field. *)
Definition field_item (field : field_dict) (k : text) : result text :=
  match dict_get k field with
  | Some v => Ok v
  | None => Raise KeyError
  end.

(** The set comprehension of [fill_new_fields]. *)
Fixpoint field_set (fields : list json) : result (list json) :=
  match fields with
  | [] => Ok []
  | field :: rest =>
      (fid <- getitem field (T "fid") ;;
       if hashable fid
       then set <- field_set rest ;; Ok (fid :: set)
       else Raise TypeError)%py
  end.

(** [fid in field_set] for a [str]. *)
Definition in_field_set (fid : text) (set : list json) : bool :=
  existsb (key_eqb (JStr fid)) set.

(** [{**field, "basename": field["name"], "dragId": "GW_" + rand_str()}] *)
Definition gw_field (field : field_dict) (name : text) (n : nat) : json :=
  JObj (dict_set (T "dragId") (JStr (T "GW_" ++ rand_str E n))
          (dict_set (T "basename") (JStr name)
             (map (fun kv => (fst kv, JStr (snd kv))) field))).

(** The loop over [all_fields]: the two lists of new fields, and the number
    of random strings drawn so far. *)
Fixpoint new_fields (all_fields : list field_dict) (set : list json)
    (new_dimension_fields new_measure_fields : list json) (n : nat)
  : result (list json * list json * nat) :=
  match all_fields with
  | [] => Ok (new_dimension_fields, new_measure_fields, n)
  | field :: rest =>
      (fid <- field_item field (T "fid") ;;
       if in_field_set fid set
       then new_fields rest set new_dimension_fields new_measure_fields n
       else
         name <- field_item field (T "name") ;;
         let gw := gw_field field name n in
         analytic <- field_item field (T "analyticType") ;;
         if text_eqb analytic (T "dimension")
         then new_fields rest set (new_dimension_fields ++ [gw])
                new_measure_fields (S n)
         else new_fields rest set new_dimension_fields
                (new_measure_fields ++ [gw]) (S n))%py
  end.

(** [v.extend(more)]: only a list has the method. *)
Definition extend (v : json) (more : list json) : result json :=
  match v with
  | JArr l => Ok (JArr (l ++ more))
  | _ => Raise AttributeError
  end.

(** The dict [v] after [v[k] = x]. *)
Definition set_item (v : json) (k : text) (x : json) : json :=
  match v with
  | JObj m => JObj (dict_set k x m)
  | _ => v
  end.

(** The body of the loop of [fill_new_fields] over the chart items: the chart
    item after the two [extend] calls. *)
Definition fill_item (all_fields : list field_dict) (chart_item : json) (n : nat)
  : result (json * nat) :=
  (fields <- item_fields chart_item ;;
   set <- field_set fields ;;
   '(new_dimension_fields, new_measure_fields, n') <-
     new_fields all_fields set [] [] n ;;
   enc <- getitem chart_item (T "encodings") ;;
   dims <- getitem enc (T "dimensions") ;;
   dims' <- extend dims new_dimension_fields ;;
   let enc1 := set_item enc (T "dimensions") dims' in
   meas <- getitem enc1 (T "measures") ;;
   meas' <- extend meas new_measure_fields ;;
   let enc2 := set_item enc1 (T "measures") meas' in
   Ok (set_item chart_item (T "encodings") enc2, n'))%py.

Fixpoint fill_items (all_fields : list field_dict) (items : list json) (n : nat)
  : result (list json * nat) :=
  match items with
  | [] => Ok ([], n)
  | chart_item :: rest =>
      ('(chart_item', n1) <- fill_item all_fields chart_item n ;;
       '(rest', n2) <- fill_items all_fields rest n1 ;;
       Ok (chart_item' :: rest', n2))%py
  end.

(** The object [fill_new_fields] hands to [json.dumps]. Only the items of a
    list can be chart items; the keys of a dict and the characters of a [str]
    make the loop body raise. *)
Definition filled (all_fields : list field_dict) (config_obj : json) (n : nat)
  : result (json * nat) :=
  (items <- iterate config_obj ;;
   '(items', n') <- fill_items all_fields items n ;;
   match config_obj with
   | JArr _ => Ok (JArr items', n')
   | _ => Ok (config_obj, n')
   end)%py.

(** [fill_new_fields config all_fields], with [n] random strings drawn before
    the call: the new text and the number drawn after it. *)
Definition fill_new_fields (config : text) (all_fields : list field_dict) (n : nat)
  : result (text * nat) :=
  (config_obj <- json_loads config ;;
   '(obj, n') <- filled all_fields config_obj n ;;
   Ok (json_dumps obj, n'))%py.

(** [StrictVersion(vstring)]: nothing is parsed when [vstring] is false, and
    the object is left without its attributes ([None] here). *)
Definition StrictVersion_new (vstring : json) : result (option StrictVersion) :=
  if negb (truthy vstring) then Ok None
  else match vstring with
       | JStr s => match parse_version s with
                   | Some v => Ok (Some v)
                   | None => Raise ValueError
                   end
       | _ => Raise TypeError
       end.

(** [a <= b] on two [StrictVersion] objects. *)
Definition StrictVersion_le (a b : option StrictVersion) : result bool :=
  match a, b with
  | Some x, Some y => Ok (version_le x y)
  | _, _ => Raise AttributeError
  end.

Definition empty_document : json :=
  JObj [(T "chart_map", JObj []); (T "config", JStr [])].

(** [StrictVersion(spec_obj.get("version", "0.1.0")) <= StrictVersion("0.3.17a4")] *)
Definition version_gate (spec_obj : json) : result bool :=
  (v <- get spec_obj (T "version") (JStr (T "0.1.0")) ;;
   declared <- StrictVersion_new v ;;
   threshold <- StrictVersion_new (JStr (T "0.3.17a4")) ;;
   StrictVersion_le declared threshold)%py.

(** What [get_spec_json] does with the text it resolved. *)
Definition document (spec : json) : result json :=
  if negb (truthy spec) then Ok empty_document
  else
    (parsed <- match loads spec with
               | Raise JSONDecodeError => Raise ValueError
               | r => r
               end ;;
     let spec_obj :=
       match parsed with
       | JArr _ => JObj [(T "chart_map", JObj []); (T "config", spec)]
       | _ => parsed
       end in
     migrate <- version_gate spec_obj ;;
     if migrate : bool then
       config <- getitem spec_obj (T "config") ;;
       config' <- _config_adapter config ;;
       Ok (set_item spec_obj (T "config") (JStr config'))
     else Ok spec_obj)%py.

Definition get_spec_json (spec : text) : io (json * text) :=
  ('(spec', spec_type) <- _get_spec_json_from_diff_source spec ;;
   doc <- lift (document spec') ;;
   ret (doc, spec_type))%io.

End Module.

(** ** The ordering of versions, in the words of the specification

    The numeric components major, minor and patch are compared first. With
    equal numeric components a pre-release is below the release, and two
    pre-releases are compared by their tag, letter first. *)

Definition major (v : StrictVersion) : N := fst (fst (version v)).
Definition minor (v : StrictVersion) : N := snd (fst (version v)).
Definition patch (v : StrictVersion) : N := snd (version v).

Definition numeric_lt (v w : StrictVersion) : Prop :=
  (major v < major w
   \/ (major v = major w /\ minor v < minor w)
   \/ (major v = major w /\ minor v = minor w /\ patch v < patch w))%N.

Definition prerelease_le (p q : option (N * N)) : Prop :=
  match p, q with
  | None, None => True
  | Some _, None => True
  | None, Some _ => False
  | Some (l, n), Some (l', n') => (l < l' \/ (l = l' /\ n <= n'))%N
  end.

Definition at_or_below (v w : StrictVersion) : Prop :=
  numeric_lt v w
  \/ (version v = version w /\ prerelease_le (prerelease v) (prerelease w)).

(** The threshold of the module, [0.3.17a4]. *)
Definition threshold : StrictVersion :=
  {| version := (0, 3, 17)%N; prerelease := Some (ch "a", 4%N) |}.

(** ** A sample environment

    Floats kept as the token they were read from, a sanitizer that puts
    [GW_] before every name, random strings [r0], [r1], ..., a network that
    answers every request with [response] and a file system in which every
    file can be created. *)

#[export] Instance token_floats : PyFloat := {|
  float_canon := fun token => token;
  float_intval := fun _ => None;
  float_eqb := text_eqb
|}.

Definition prefix_names (names : list json) : list text :=
  map (fun v => match v with
                | JStr n => T "GW_" ++ n
                | _ => T "GW_"
                end) names.

Definition sample_env (mode : text) (response : result text) : env := {|
  privacy := mode;
  read_config_from_cloud := fun _ => response;
  urlopen := fun _ _ => response;
  can_create := fun _ => true;
  rename_columns := prefix_names;
  rand_str := fun n => ch "r" :: int_text (Z.of_nat n)
|}.

Definition empty_world : world := {| files := []; trace := [] |}.






(** The first characters of a JSON text: white space, or the first character
    of a value. *)
Definition json_start (c : char) : bool :=
  is_json_ws c || is_digit c
  || existsb (N.eqb c)
       [34%N; ch "{"; ch "["; ch "n"; ch "t"; ch "f"; ch "N"; ch "I"; ch "-"].


(** What is left when a text is neither empty, nor JSON, nor of a kind that
    needs the network: a local path. *)
Definition local_kind {floats : PyFloat} (spec : text) : Prop :=
  spec <> [] /\ _is_json spec = Ok false
  /\ startswith spec (T "ksf://") = false
  /\ startswith spec (T "http:") || startswith spec (T "https:") = false
  /\ _is_config_id spec = Ok false.

(** The six source tags. *)
Definition source_tags : list text :=
  [T "empty_string"; T "json_string"; T "json_ksf"; T "json_http";
   T "json_server"; T "json_file"].

(** Shape (b) of a document, in the words of the specification: an object
    with [chart_map] and [config], [config] being a serialized list of chart
    items. *)
Definition shape_b {floats : PyFloat} (doc : json) : Prop :=
  exists m chart_map config items,
    doc = JObj m
    /\ dict_get (T "chart_map") m = Some chart_map
    /\ dict_get (T "config") m = Some (JStr config)
    /\ json_loads config = Ok (JArr items).

(** ** Reconciliation, in the words of the specification *)

Section Reconciled.

Context {floats : PyFloat}.
Variable E : env.

(** The fids already present in the dimensions and measures of a chart
    item. *)
Definition item_fids (chart_item : json) : result (list json) :=
  (fields <- item_fields chart_item ;; field_set fields)%py.

(** A dataset field is absent from a set of fids. *)
Definition absent (set : list json) (field : field_dict) : bool :=
  match dict_get (T "fid") field with
  | Some fid => negb (in_field_set fid set)
  | None => false
  end.

Definition is_dimension (field : field_dict) : bool :=
  match dict_get (T "analyticType") field with
  | Some a => text_eqb a (T "dimension")
  | None => false
  end.

Definition field_name (field : field_dict) : text :=
  match dict_get (T "name") field with
  | Some name => name
  | None => []
  end.

(** The new Field References for a list of dataset fields, the first one
    with the [n]-th random string. *)
Fixpoint gw_fields (fields : list field_dict) (n : nat)
  : list (field_dict * json) :=
  match fields with
  | [] => []
  | field :: rest =>
      (field, gw_field E field (field_name field) n) :: gw_fields rest (S n)
  end.

(** The new references that go to the dimensions, and those that go to the
    measures. *)
Definition dims_of (g : list (field_dict * json)) : list json :=
  map snd (filter (fun p => is_dimension (fst p)) g).

Definition meas_of (g : list (field_dict * json)) : list json :=
  map snd (filter (fun p => negb (is_dimension (fst p))) g).

(** The fid of a Field Reference. *)
Definition fid_of (reference : json) : json :=
  match getitem reference (T "fid") with
  | Ok fid => fid
  | Raise _ => JNull
  end.

(** The object [fill_new_fields] serializes. *)
Definition reconciled (config : text) (all_fields : list field_dict) (n : nat)
  : result json :=
  (config_obj <- json_loads config ;;
   '(obj, _) <- filled E all_fields config_obj n ;;
   Ok obj)%py.

(** [chart_item["encodings"][k]] and [chart_item[k]], when there. *)
Definition channel (chart_item : json) (k : text) : option json :=
  match chart_item with
  | JObj m => match dict_get (T "encodings") m with
              | Some (JObj enc) => dict_get k enc
              | _ => None
              end
  | _ => None
  end.

Definition member (chart_item : json) (k : text) : option json :=
  match chart_item with
  | JObj m => dict_get k m
  | _ => None
  end.

Definition keys (v : json) : list text :=
  match v with
  | JObj m => map fst m
  | _ => []
  end.

(** The Field Reference built for a dataset field of [all_fields] whose
    type is ([dimension = true]) or is not ([dimension = false])
    ["dimension"]. *)
Definition new_reference (all_fields : list field_dict) (dimension : bool)
    (reference : json) : Prop :=
  exists field n,
    In field all_fields
    /\ is_dimension field = dimension
    /\ dict_get (T "name") field = Some (field_name field)
    /\ reference = gw_field E field (field_name field) n.

(** A chart item and what reconciliation makes of it: the dimensions and
    the measures are the old ones followed by new references, one for every
    dataset field that was absent, and nothing else changes. *)
Definition extended (all_fields : list field_dict) (item item' : json) : Prop :=
  exists dims meas new_dims new_meas,
    channel item (T "dimensions") = Some (JArr dims)
    /\ channel item (T "measures") = Some (JArr meas)
    /\ channel item' (T "dimensions") = Some (JArr (dims ++ new_dims))
    /\ channel item' (T "measures") = Some (JArr (meas ++ new_meas))
    /\ (forall k, k <> T "dimensions" -> k <> T "measures" ->
                  channel item' k = channel item k)
    /\ (forall k, k <> T "encodings" -> member item' k = member item k)
    /\ keys item' = keys item
    /\ Forall (new_reference all_fields true) new_dims
    /\ Forall (new_reference all_fields false) new_meas
    /\ (forall set field,
           item_fids item = Ok set ->
           In field all_fields ->
           absent set field = true ->
           exists n,
             In (gw_field E field (field_name field) n)
                (if is_dimension field then new_dims else new_meas)).

End Reconciled.

(** ** Fields the loops leave out, take in or fail on *)

Section Fields.

Context {floats : PyFloat}.

(** A field that the comprehension of [_config_adapter] leaves out: it is
    computed, or its fid is one of the two sentinel ids. *)
Definition skipped (field : json) : bool :=
  match get field (T "computed") (JBool false) with
  | Ok computed =>
      truthy computed
      || match get field (T "fid") JNull with
         | Ok fid => negb (not_sentinel fid)
         | Raise _ => false
         end
  | Raise _ => false
  end.

(** The [str] among a list of keys. *)
Definition text_keys (l : list json) : list text :=
  flat_map (fun k => match k with JStr s => [s] | _ => [] end) l.

(** A dataset field on which the body of the loop of [fill_new_fields] over
    [all_fields] raises: it has no ["fid"], or it is absent from the chart
    item and has no ["name"] or no ["analyticType"]. *)
Definition unusable (set : list json) (field : field_dict) : bool :=
  match dict_get (T "fid") field with
  | None => true
  | Some fid =>
      negb (in_field_set fid set)
      && match dict_get (T "name") field, dict_get (T "analyticType") field with
         | Some _, Some _ => false
         | _, _ => true
         end
  end.

(** A dataset field whose fid is among the fids of a chart item. *)
Definition present (set : list json) (field : field_dict) : bool :=
  match dict_get (T "fid") field with
  | Some fid => in_field_set fid set
  | None => false
  end.

(** A chart item with a list of dimensions and a list of measures that
    lacks none of the dataset fields. *)
Definition settled (all_fields : list field_dict) (chart_item : json) : bool :=
  match channel chart_item (T "dimensions"),
        channel chart_item (T "measures"),
        item_fids chart_item with
  | Some (JArr _), Some (JArr _), Ok set => forallb (present set) all_fields
  | _, _, _ => false
  end.

End Fields.

(** ** Migration, in the words of the specification *)

Section Migrated.

Context {floats : PyFloat}.
Variable E : env.

(** A field that takes part in the renaming: it is not computed, and its
    fid is not one of the two sentinel ids. *)
Definition renamable (field : json) : Prop :=
  exists computed fid,
    get field (T "computed") (JBool false) = Ok computed
    /\ truthy computed = false
    /\ getitem field (T "fid") = Ok fid
    /\ not_sentinel fid = true.

(** What a field contributes to the mapping from old ids to names: its fid
    with its name when it takes part in the renaming, nothing when it is
    left out. *)
Definition renamed_entry (field : json) : list (json * json) :=
  if skipped field then []
  else match getitem field (T "fid"), getitem field (T "name") with
       | Ok fid, Ok name => [(fid, name)]
       | _, _ => []
       end.

(** [dict(entries)]: the entries written to an empty dict one after the
    other, so that a key stands where it was written first and has the value
    that was written last. *)
Definition dict_of (entries : list (json * json)) : list (json * json) :=
  fold_left (fun d e => kdict_set (fst e) (snd e) d) entries [].

(** Literal substitution of every old id by its new id, one pair after the
    other, in a text. *)
Definition substitute (config : text) (pairs : list (text * text)) : text :=
  fold_left (fun c p => replace c (fst p) (snd p)) pairs config.

Definition as_values (pairs : list (text * text)) : list (json * text) :=
  map (fun p => (JStr (fst p), snd p)) pairs.

(** The pairs (old id, new id) of one chart item: the old ids are the keys
    of the mapping made of the renamable fields among its dimensions and
    measures, and each goes with the sanitized name that stands at its
    place. *)
Definition item_pairs (item : json) (pairs : list (text * text)) : Prop :=
  exists fields,
    item_fields item = Ok fields
    /\ let mapping := dict_of (flat_map renamed_entry fields) in
       as_values pairs
       = combine (map fst mapping) (rename_columns E (map snd mapping)).

End Migrated.

(** ** [get_fid_fname_map_from_encodings] *)

(** The value of a sum [a + b + ...] as far as it matters to a loop over
    it: a value as it was read, or a number that an addition gave (a number
    can be added to numbers only, and cannot be iterated, so that its value
    plays no part). That an [int] can be too large to be added to a [float]
    is not part of the model. *)
Inductive summed : Type :=
| Read (v : json)
| Number.

Section Encodings.

Context {floats : PyFloat}.

Definition is_number (v : json) : bool :=
  match v with
  | JBool _ | JInt _ | JFloat _ => true
  | _ => false
  end.

(** [a + b]: two lists or two strings concatenate, two numbers add, and
    nothing else adds. *)
Definition py_add (a : summed) (b : json) : result summed :=
  match a, b with
  | Read (JArr x), JArr y => Ok (Read (JArr (x ++ y)))
  | Read (JStr x), JStr y => Ok (Read (JStr (x ++ y)))
  | Read v, _ => if is_number v && is_number b then Ok Number else Raise TypeError
  | Number, _ => if is_number b then Ok Number else Raise TypeError
  end.

(** [acc + encodings[k1] + encodings[k2] + ...], from the left: an operand
    is looked up just before it is added. *)
Fixpoint sum_channels (encodings : json) (acc : summed) (ks : list text)
  : result summed :=
  match ks with
  | [] => Ok acc
  | k :: rest =>
      (v <- getitem encodings k ;;
       acc' <- py_add acc v ;;
       sum_channels encodings acc' rest)%py
  end.

(** [for field in total] *)
Definition iterate_summed (total : summed) : result (list json) :=
  match total with
  | Read v => iterate v
  | Number => Raise TypeError
  end.

(** [a + b] where one of the two is known to be a [str]. *)
Definition concat_str (a b : json) : result json :=
  match a, b with
  | JStr x, JStr y => Ok (JStr (x ++ y))
  | _, _ => Raise TypeError
  end.

(** [d.get(k)] on a dict whose keys are any hashable values. *)
Fixpoint kdict_get {V} (k : json) (d : list (json * V)) : option V :=
  match d with
  | [] => None
  | (k', v) :: r => if key_eqb k k' then Some v else kdict_get k r
  end.

(** [encodings["dimensions"] + encodings["measures"]], iterated. *)
Definition encoding_fields (encodings : json) : result (list json) :=
  (dims <- getitem encodings (T "dimensions") ;;
   meas <- getitem encodings (T "measures") ;;
   iterate_sum dims meas)%py.

(** The first loop: [fid_fanme_map[field["fid"]] = field["name"]], the value
    being evaluated before the key. *)
Fixpoint fid_names (fields : list json) (fid_fanme_map : list (json * json))
  : result (list (json * json)) :=
  match fields with
  | [] => Ok fid_fanme_map
  | field :: rest =>
      (name <- getitem field (T "name") ;;
       fid <- getitem field (T "fid") ;;
       if hashable fid then fid_names rest (kdict_set fid name fid_fanme_map)
       else Raise TypeError)%py
  end.

(** The sum of the seven channels, iterated. *)
Definition encoding_marks (encodings : json) : result (list json) :=
  (rows <- getitem encodings (T "rows") ;;
   total <- sum_channels encodings (Read rows)
              [T "columns"; T "size"; T "shape"; T "color"; T "details";
               T "opacity"] ;;
   iterate_summed total)%py.

(** The second loop: for a field with a true ["aggName"],
    [fid_fanme_map[field["fid"] + "_" + field["aggName"]]
       = field["name"] + "_" + field["aggName"]]. *)
Fixpoint aggregate_names (fields : list json) (fid_fanme_map : list (json * json))
  : result (list (json * json)) :=
  match fields with
  | [] => Ok fid_fanme_map
  | field :: rest =>
      (agg <- get field (T "aggName") JNull ;;
       if truthy agg then
         name <- getitem field (T "name") ;;
         name_ <- concat_str name (JStr (T "_")) ;;
         agg1 <- getitem field (T "aggName") ;;
         value <- concat_str name_ agg1 ;;
         fid <- getitem field (T "fid") ;;
         fid_ <- concat_str fid (JStr (T "_")) ;;
         agg2 <- getitem field (T "aggName") ;;
         key <- concat_str fid_ agg2 ;;
         aggregate_names rest (kdict_set key value fid_fanme_map)
       else aggregate_names rest fid_fanme_map)%py
  end.

Definition get_fid_fname_map_from_encodings (encodings : json)
  : result (list (json * json)) :=
  (fields <- encoding_fields encodings ;;
   fid_fanme_map <- fid_names fields [] ;;
   marks <- encoding_marks encodings ;;
   aggregate_names marks fid_fanme_map)%py.

(** *** The map as a list of writes

    What the two loops write, in order: for a field of the dimensions and
    measures its fid and its name; for a field of the channels that has a
    true ["aggName"], fid and name with the aggregation appended to both. *)

Definition field_write (field : json) : list (text * json) :=
  match getitem field (T "fid"), getitem field (T "name") with
  | Ok (JStr fid), Ok name => [(fid, name)]
  | _, _ => []
  end.

Definition mark_write (field : json) : list (text * json) :=
  match get field (T "aggName") JNull with
  | Ok (JStr agg) =>
      match agg, getitem field (T "fid"), getitem field (T "name") with
      | _ :: _, Ok (JStr fid), Ok (JStr name) =>
          [((fid ++ T "_") ++ agg, JStr ((name ++ T "_") ++ agg))]
      | _, _, _ => []
      end
  | _ => []
  end.

Definition writes (fields marks : list json) : list (text * json) :=
  flat_map field_write fields ++ flat_map mark_write marks.

(** What the encodings list under [k]: the items of a list, and nothing
    when a [str] is there. *)
Definition listed (encodings : json) (k : text) : list json :=
  match getitem encodings k with
  | Ok (JArr l) => l
  | _ => []
  end.

(** The fields of the dimensions followed by the measures, and the fields
    of the seven channels, in the order of the sums. *)
Definition listed_fields (encodings : json) : list json :=
  listed encodings (T "dimensions") ++ listed encodings (T "measures").

Definition listed_marks (encodings : json) : list json :=
  flat_map (listed encodings)
    [T "rows"; T "columns"; T "size"; T "shape"; T "color"; T "details";
     T "opacity"].

(** The value last written for [k], or what was there before. *)
Definition last_write (k : text) (ws : list (text * json)) (before : option json)
  : option json :=
  match dict_get k (rev ws) with
  | Some v => Some v
  | None => before
  end.

(** A dict all of whose keys are [str]. *)
Definition text_keyed {V} (d : list (json * V)) : Prop :=
  Forall (fun kv => exists s, fst kv = JStr s) d.

End Encodings.

(** ** Values that are written the way they are read

    [json.dumps] writes a code point above the basic plane as a surrogate
    pair, which [json.loads] joins again, and a surrogate as it is, which
    [json.loads] joins with a surrogate that follows; it writes a dict key by
    key, which [json.loads] reads into a dict again. A value is [plain] when
    its texts hold code points only (none of them a surrogate), the keys of
    each of its objects differ from each other, and it holds no [float]. *)

Definition plain_char (c : char) : bool :=
  negb (in_range 55296 57343 c) && N.ltb c 1114112.

Definition plain_text (s : text) : bool := forallb plain_char s.

Fixpoint distinct (keys : list text) : bool :=
  match keys with
  | [] => true
  | k :: rest => negb (existsb (text_eqb k) rest) && distinct rest
  end.

Fixpoint plain (v : json) : bool :=
  match v with
  | JNull | JBool _ | JInt _ => true
  | JFloat _ => false
  | JStr s => plain_text s
  | JArr items => forallb plain items
  | JObj members =>
      forallb (fun kv => plain_text (fst kv) && plain (snd kv)) members
      && distinct (map fst members)
  end.

(** What follows a value inside a list or an object, or nothing. *)
Definition delimited (rest : text) : bool :=
  match rest with
  | [] => true
  | c :: _ => N.eqb c (ch ",") || N.eqb c (ch "]") || N.eqb c (ch "}")
  end.

(** *** Surrogate pairs

    [json.dumps] writes a surrogate as an escape of its own, and
    [json.loads] reads the escape of a high surrogate that is followed by
    the escape of a low one as the one code point above the basic plane for
    which the pair stands. So a text that holds such a pair as two code
    points comes back with one code point in their place. *)

Definition code_point (c : char) : bool := N.ltb c 1114112.

(** A text all of whose elements are code points: a [str]. *)
Definition is_str (s : text) : bool := forallb code_point s.

(** The text with every pair of a high and a low surrogate joined, from the
    left. *)
Fixpoint join_pairs (s : text) : text :=
  match s with
  | [] => []
  | hi :: t =>
      match t with
      | lo :: r =>
          if is_high_surrogate hi && is_low_surrogate lo
          then join_surrogates hi lo :: join_pairs r
          else hi :: join_pairs t
      | [] => [hi]
      end
  end.

(** A text that holds a high surrogate followed by a low one. *)
Fixpoint paired (s : text) : bool :=
  match s with
  | [] => false
  | hi :: t =>
      match t with
      | lo :: _ => is_high_surrogate hi && is_low_surrogate lo
      | [] => false
      end
      || paired t
  end.

(** The value with the pairs joined in every text and in every key. *)
Fixpoint norm (v : json) : json :=
  match v with
  | JStr s => JStr (join_pairs s)
  | JArr items => JArr (map norm items)
  | JObj members =>
      JObj (map (fun kv => (join_pairs (fst kv), norm (snd kv))) members)
  | _ => v
  end.

(** A value whose texts are [str], and in which no two keys of an object
    become the same key when their pairs are joined. *)
Fixpoint sound (v : json) : bool :=
  match v with
  | JStr s => is_str s
  | JArr items => forallb sound items
  | JObj members =>
      forallb (fun kv => is_str (fst kv) && sound (snd kv)) members
      && distinct (map (fun kv => join_pairs (fst kv)) members)
  | _ => true
  end.

(** The floats of a value, as [json.dumps] writes them. *)
Fixpoint floats_in (v : json) : list text :=
  match v with
  | JFloat f => [f]
  | JArr items => flat_map floats_in items
  | JObj members => flat_map (fun kv => floats_in (snd kv)) members
  | _ => []
  end.

Section ReadsBack.

Context {floats : PyFloat}.

(** A float that is read from what [json.dumps] writes for it, as every
    float of Python is. *)
Definition float_reads_back (f : text) : Prop :=
  forall fuel rest,
    delimited rest = true ->
    parse_value (S fuel) (f ++ rest) = Parsed (JFloat f) rest.

Definition floats_read_back (v : json) : Prop :=
  Forall float_reads_back (floats_in v).

(** A value whose serialization the scanner reads as that value with its
    pairs joined, whatever the fuel, provided it does not run out. *)
Definition reads_back (v : json) : Prop :=
  sound v = true ->
  floats_read_back v ->
  forall fuel rest,
    delimited rest = true ->
    parse_value fuel (json_dumps v ++ rest) <> OutOfFuel ->
    parse_value fuel (json_dumps v ++ rest) = Parsed (norm v) rest.

(** What [json.dumps] writes for a member of an object. *)
Definition member_text (kv : text * json) : text :=
  quote (fst kv) ++ T ": " ++ json_dumps (snd kv).

End ReadsBack.

(** A dataset field whose keys and values are [str]. *)
Definition str_field (field : field_dict) : bool :=
  forallb (fun kv => is_str (fst kv) && is_str (snd kv)) field.

(** A dataset field no two keys of which become the same key when their
    pairs are joined. *)
Definition keys_apart (field : field_dict) : bool :=
  distinct (map (fun kv => join_pairs (fst kv)) field).

Definition sound_field (field : field_dict) : bool :=
  str_field field && keys_apart field.

(** The chart items of a configuration: the items of a list. *)
Definition chart_items (config_obj : json) : list json :=
  match config_obj with
  | JArr items => items
  | _ => []
  end.

(** A dataset field that some chart item of the configuration lacks: the
    reconciler adds a reference to it. *)
Definition lacked (config_obj : json) (field : field_dict) : Prop :=
  exists chart_item set,
    In chart_item (chart_items config_obj)
    /\ item_fids chart_item = Ok set
    /\ absent set field = true.

(** A dataset field whose fid holds no surrogate pair. *)
Definition fid_unpaired (field : field_dict) : bool :=
  match dict_get (T "fid") field with
  | Some fid => negb (paired fid)
  | None => true
  end.

(** A dataset field with plain keys and values, no key twice. *)
Definition plain_field (field : field_dict) : bool :=
  forallb (fun kv => plain_text (fst kv) && plain_text (snd kv)) field
  && distinct (map fst field).

(** * Properties *)

(** ** Text and dicts *)

Lemma text_eqb_refl (a : text) : text_eqb a a = true.
Proof.
  induction a as [|x a IH]; simpl; [reflexivity|].
  now rewrite N.eqb_refl, IH.
Qed.

Lemma text_eqb_eq (a b : text) : text_eqb a b = true <-> a = b.
Proof.
  split.
  - revert b; induction a as [|x a IH]; intros [|y b] H; simpl in H;
      try discriminate; [reflexivity|].
    apply andb_true_iff in H as [Hx Hr].
    apply N.eqb_eq in Hx. apply IH in Hr. now subst.
  - intros ->. apply text_eqb_refl.
Qed.

Lemma text_eqb_neq (a b : text) : text_eqb a b = false <-> a <> b.
Proof.
  rewrite <- text_eqb_eq. destruct (text_eqb a b); split; congruence.
Qed.

Lemma dict_get_set_same {V} (k : text) (v : V) (d : list (text * V)) :
  dict_get k (dict_set k v d) = Some v.
Proof.
  induction d as [|[k' v'] d IH]; simpl.
  - now rewrite text_eqb_refl.
  - destruct (text_eqb k k') eqn:Hk; simpl; rewrite Hk; [reflexivity|exact IH].
Qed.

Lemma dict_get_set_other {V} (k k' : text) (v : V) (d : list (text * V)) :
  k <> k' -> dict_get k (dict_set k' v d) = dict_get k d.
Proof.
  intros Hne. induction d as [|[k0 v0] d IH]; simpl.
  - apply text_eqb_neq in Hne. now rewrite Hne.
  - destruct (text_eqb k' k0) eqn:Hk; simpl.
    + apply text_eqb_eq in Hk. subst k0.
      apply text_eqb_neq in Hne. now rewrite Hne.
    + now rewrite IH.
Qed.

Lemma dict_set_get_id {V} (k : text) (v : V) (d : list (text * V)) :
  dict_get k d = Some v -> dict_set k v d = d.
Proof.
  induction d as [|[k' v'] d IH]; simpl; [discriminate|].
  destruct (text_eqb k k') eqn:Hk.
  - intros [= ->]. reflexivity.
  - intros H. now rewrite IH.
Qed.

Lemma dict_set_keys {V} (k : text) (v v' : V) (d : list (text * V)) :
  dict_get k d = Some v' -> map fst (dict_set k v d) = map fst d.
Proof.
  induction d as [|[k' v0] d IH]; simpl; [discriminate|].
  destruct (text_eqb k k') eqn:Hk; simpl.
  - reflexivity.
  - intros H. now rewrite IH.
Qed.

Lemma dict_set_not_nil {V} (k : text) (v : V) (d : list (text * V)) :
  dict_set k v d <> [].
Proof.
  destruct d as [|[k' v'] d]; simpl; [discriminate|].
  destruct (text_eqb k k'); discriminate.
Qed.

Lemma dict_get_map {V W} (f : V -> W) (k : text) (d : list (text * V)) :
  dict_get k (map (fun kv => (fst kv, f (snd kv))) d)
  = option_map f (dict_get k d).
Proof.
  induction d as [|[k' v] d IH]; simpl; [reflexivity|].
  destruct (text_eqb k k'); [reflexivity|exact IH].
Qed.

(** ** The scanner always has fuel enough *)

Lemma skip_ws_length (s : text) : length (skip_ws s) <= length s.
Proof.
  induction s as [|c s IH]; simpl; [lia|].
  destruct (is_json_ws c); simpl; lia.
Qed.

Lemma span_length (p : char -> bool) (s a b : text) :
  span p s = (a, b) -> length a + length b = length s.
Proof.
  revert a b; induction s as [|c s IH]; intros a b; simpl.
  - intros [= <- <-]. reflexivity.
  - destruct (p c).
    + destruct (span p s) as [a' b'] eqn:E. intros [= <- <-].
      simpl. specialize (IH _ _ eq_refl). lia.
    + intros [= <- <-]. reflexivity.
Qed.

Lemma span_rest_length (p : char -> bool) (s : text) :
  length (snd (span p s)) <= length s.
Proof.
  destruct (span p s) as [a b] eqn:E. apply span_length in E. simpl. lia.
Qed.

Ltac split_if H :=
  match type of H with
  | context [if ?b then _ else _] => destruct b eqn:?
  end.

Ltac case_if :=
  match goal with
  | |- context [if ?b then _ else _] => destruct b eqn:?
  end.

Ltac split_match H :=
  match type of H with
  | context [match ?x with _ => _ end] => destruct x eqn:?
  end.

Lemma scan_string_length (n : nat) :
  forall s pending acc str rest,
    length s <= n ->
    scan_string s pending acc = Some (str, rest) -> length rest < length s.
Proof.
  induction n as [|n IH]; intros s pending acc str rest Hn H.
  - destruct s; [discriminate|simpl in Hn; lia].
  - destruct s as [|c r]; [discriminate|]. simpl in Hn. simpl in H.
    split_if H.
    { inversion H; subst; simpl; lia. }
    split_if H.
    + destruct r as [|e r1]; [discriminate|]. simpl in Hn.
      split_if H.
      * destruct r1 as [|h1 [|h2 [|h3 [|h4 r2]]]]; try discriminate.
        simpl in Hn.
        destruct (hex4 h1 h2 h3 h4) as [u|]; [|discriminate].
        assert (Hr : forall p a, scan_string r2 p a = Some (str, rest) ->
                                 length rest < length r2)
          by (intros p a; apply IH; lia).
        simpl.
        destruct pending as [hi|].
        -- destruct (is_low_surrogate u); [apply Hr in H; lia|].
           destruct (is_high_surrogate u); apply Hr in H; lia.
        -- destruct (is_high_surrogate u); apply Hr in H; lia.
      * destruct (unescape e); [|discriminate].
        apply IH in H; simpl in *; lia.
    + split_if H; [discriminate|].
      apply IH in H; simpl; lia.
Qed.

Lemma scan_string_shorter (s : text) (pending : option N) (acc str rest : text) :
  scan_string s pending acc = Some (str, rest) -> length rest < length s.
Proof. intros H. eapply scan_string_length; [apply le_n|exact H]. Qed.

Lemma scan_minus_length (s : text) : length (snd (scan_minus s)) <= length s.
Proof.
  destruct s as [|c r]; simpl; [lia|].
  case_if; simpl; lia.
Qed.

Lemma in_range_weaken (lo hi lo' hi' c : N) :
  (lo' <= lo)%N -> (hi <= hi')%N ->
  in_range lo hi c = true -> in_range lo' hi' c = true.
Proof.
  unfold in_range. intros Hlo Hhi H.
  apply andb_true_iff in H as [H1 H2].
  apply N.leb_le in H1, H2.
  apply andb_true_iff; split; apply N.leb_le; lia.
Qed.

Lemma scan_int_part_length (s digits rest : text) :
  scan_int_part s = Some (digits, rest) -> length rest < length s.
Proof.
  destruct s as [|d r]; [discriminate|]. unfold scan_int_part.
  destruct (in_range 49 57 d) eqn:Hd.
  - intros H.
    pose proof (span_rest_length is_digit (d :: r)) as Hs.
    assert (Hdig : is_digit d = true)
      by (apply (in_range_weaken (lo:=49) (hi:=57)); [lia|lia|exact Hd]).
    simpl in H, Hs. rewrite Hdig in H, Hs.
    destruct (span is_digit r) as [a b] eqn:E.
    apply span_length in E. inversion H; subst. simpl. lia.
  - destruct (N.eqb d 48); [|discriminate].
    intros H. inversion H; subst. simpl. lia.
Qed.

Lemma scan_frac_length (s : text) : length (snd (scan_frac s)) <= length s.
Proof.
  destruct s as [|p r]; simpl; [lia|].
  case_if; simpl; [|lia].
  destruct (span is_digit r) as [[|x ds] r'] eqn:E; simpl; [lia|].
  apply span_length in E. simpl in E. lia.
Qed.

Lemma scan_exp_length (s : text) : length (snd (scan_exp s)) <= length s.
Proof.
  destruct s as [|e r]; simpl; [lia|].
  case_if; simpl; [|lia].
  destruct r as [|g r''].
  - simpl. lia.
  - case_if.
    + destruct (span is_digit r'') as [[|x ds] r3] eqn:E; simpl; [lia|].
      apply span_length in E. simpl in E. lia.
    + destruct (span is_digit (g :: r'')) as [[|x ds] r3] eqn:E; simpl; [lia|].
      apply span_length in E. simpl in E. lia.
Qed.

Section ScannerFuel.

Context {floats : PyFloat}.

Lemma scan_number_length (s : text) (v : json) (rest : text) :
  scan_number s = Some (v, rest) -> length rest < length s.
Proof.
  unfold scan_number.
  pose proof (scan_minus_length s) as Hm.
  destruct (scan_minus s) as [neg s1]. simpl in Hm.
  destruct (scan_int_part s1) as [[digits r1]|] eqn:Hi; [|discriminate].
  apply scan_int_part_length in Hi.
  pose proof (scan_frac_length r1) as Hf.
  destruct (scan_frac r1) as [frac r2]. simpl in Hf.
  pose proof (scan_exp_length r2) as He.
  destruct (scan_exp r2) as [expo r3]. simpl in He.
  destruct frac, expo; intros H; inversion H; subst; lia.
Qed.

End ScannerFuel.

Section ParserFuel.

Context {floats : PyFloat}.

Local Arguments scan_number : simpl never.
Local Arguments startswith : simpl never.
Local Arguments skipn : simpl never.

(** Whatever the scanner reads has at least one character. *)
Lemma parse_progress (fuel : nat) :
  (forall s v r, parse_value fuel s = Parsed v r -> length r < length s)
  /\ (forall s acc v r,
         parse_items fuel s acc = Parsed v r -> length r < length s)
  /\ (forall s acc v r,
         parse_members fuel s acc = Parsed v r -> length r < length s).
Proof.
  induction fuel as [|fuel (IHv & IHi & IHm)].
  - repeat split; intros; discriminate.
  - repeat split.
    + intros s v r H. destruct s as [|c s']; [discriminate|].
      simpl in H.
      split_if H.
      { destruct (scan_string s' None []) as [[str rest]|] eqn:Hs;
          [|discriminate].
        apply scan_string_shorter in Hs.
        inversion H; subst. simpl. lia. }
      split_if H.
      { pose proof (skip_ws_length s') as Hw.
        destruct (skip_ws s') as [|c2 r2]; [discriminate|].
        split_if H.
        - inversion H; subst. simpl in *. lia.
        - apply IHm in H. simpl in *. lia. }
      split_if H.
      { pose proof (skip_ws_length s') as Hw.
        destruct (skip_ws s') as [|c2 r2]; [discriminate|].
        split_if H.
        - inversion H; subst. simpl in *. lia.
        - apply IHi in H. simpl in *. lia. }
      do 6 (split_if H;
            [inversion H; subst; rewrite length_skipn; simpl; lia|]).
      destruct (scan_number (c :: s')) as [[v' rest]|] eqn:Hn; [|discriminate].
      apply scan_number_length in Hn. inversion H; subst. exact Hn.
    + intros s acc v r H. simpl in H.
      destruct (parse_value fuel s) as [v' rest| |] eqn:Hv; try discriminate.
      apply IHv in Hv. pose proof (skip_ws_length rest) as Hw.
      destruct (skip_ws rest) as [|c r0]; [discriminate|].
      split_if H; [inversion H; subst; simpl in *; lia|].
      split_if H; [|discriminate].
      apply IHi in H. pose proof (skip_ws_length r0). simpl in *. lia.
    + intros s acc v r H. simpl in H.
      destruct s as [|c s']; [discriminate|].
      split_if H; [|discriminate].
      destruct (scan_string s' None []) as [[key rest]|] eqn:Hs; [|discriminate].
      apply scan_string_shorter in Hs.
      pose proof (skip_ws_length rest) as Hw.
      destruct (skip_ws rest) as [|c2 r2]; [discriminate|].
      split_if H; [|discriminate].
      destruct (parse_value fuel (skip_ws r2)) as [v' rest2| |] eqn:Hv;
        try discriminate.
      apply IHv in Hv. pose proof (skip_ws_length r2) as Hw2.
      pose proof (skip_ws_length rest2) as Hw3.
      destruct (skip_ws rest2) as [|c3 r3]; [discriminate|].
      split_if H; [inversion H; subst; simpl in *; lia|].
      split_if H; [|discriminate].
      apply IHm in H. pose proof (skip_ws_length r3). simpl in *. lia.
Qed.

(** With fuel for twice the length of the text the scanner never runs out. *)
Lemma parse_fuel (fuel : nat) :
  (forall s, 2 * length s + 1 <= fuel -> parse_value fuel s <> OutOfFuel)
  /\ (forall s acc,
         2 * length s + 2 <= fuel -> parse_items fuel s acc <> OutOfFuel)
  /\ (forall s acc,
         2 * length s <= fuel -> 1 <= fuel ->
         parse_members fuel s acc <> OutOfFuel).
Proof.
  induction fuel as [|fuel (IHv & IHi & IHm)].
  - repeat split; intros; lia.
  - repeat split.
    + intros s Hf H. destruct s as [|c s']; [discriminate|].
      simpl in H, Hf.
      split_if H.
      { destruct (scan_string s' None []) as [[str rest]|]; discriminate. }
      split_if H.
      { pose proof (skip_ws_length s') as Hw.
        destruct (skip_ws s') as [|c2 r2]; [discriminate|].
        split_if H; [discriminate|].
        revert H. apply IHm; simpl in *; lia. }
      split_if H.
      { pose proof (skip_ws_length s') as Hw.
        destruct (skip_ws s') as [|c2 r2]; [discriminate|].
        split_if H; [discriminate|].
        revert H. apply IHi; simpl in *; lia. }
      do 6 (split_if H; [discriminate|]).
      destruct (scan_number (c :: s')) as [[v' rest]|]; discriminate.
    + intros s acc Hf H. simpl in H.
      destruct (parse_value fuel s) as [v' rest| |] eqn:Hv; try discriminate.
      * apply parse_progress in Hv. pose proof (skip_ws_length rest) as Hw.
        destruct (skip_ws rest) as [|c r0]; [discriminate|].
        split_if H; [discriminate|].
        split_if H; [|discriminate].
        revert H. apply IHi. pose proof (skip_ws_length r0). simpl in *. lia.
      * revert Hv. apply IHv. lia.
    + intros s acc Hf H1 H. simpl in H.
      destruct s as [|c s']; [discriminate|].
      split_if H; [|discriminate].
      destruct (scan_string s' None []) as [[key rest]|] eqn:Hs; [|discriminate].
      apply scan_string_shorter in Hs.
      pose proof (skip_ws_length rest) as Hw.
      destruct (skip_ws rest) as [|c2 r2]; [discriminate|].
      split_if H; [|discriminate].
      pose proof (skip_ws_length r2) as Hw2.
      destruct (parse_value fuel (skip_ws r2)) as [v' rest2| |] eqn:Hv;
        try discriminate.
      * apply parse_progress in Hv.
        pose proof (skip_ws_length rest2) as Hw3.
        destruct (skip_ws rest2) as [|c3 r3]; [discriminate|].
        split_if H; [discriminate|].
        split_if H; [|discriminate].
        revert H. pose proof (skip_ws_length r3).
        apply IHm; simpl in *; lia.
      * revert Hv. apply IHv. simpl in *. lia.
Qed.

(** [json_loads] gives its scanner fuel enough: it fails only on text that
    is not JSON. *)
Lemma json_loads_fuel (s : text) :
  parse_value (2 * length s + 1) (skip_ws s) <> OutOfFuel.
Proof.
  apply parse_fuel. pose proof (skip_ws_length s). lia.
Qed.

End ParserFuel.

(** ** The version gate *)

Lemma parse_threshold : parse_version (T "0.3.17a4") = Some threshold.
Proof. vm_compute. reflexivity. Qed.

Lemma triple_compare_eq (a b : N * N * N) :
  triple_compare a b = Eq <-> a = b.
Proof.
  destruct a as [[a1 a2] a3], b as [[b1 b2] b3]. unfold triple_compare.
  destruct (N.compare_spec a1 b1); [|split; [discriminate|intros [=]; lia]..].
  destruct (N.compare_spec a2 b2); [|split; [discriminate|intros [=]; lia]..].
  destruct (N.compare_spec a3 b3); subst;
    split; try discriminate; try reflexivity; intros [=]; lia.
Qed.

Lemma triple_compare_lt (v w : StrictVersion) :
  triple_compare (version v) (version w) = Lt <-> numeric_lt v w.
Proof.
  unfold numeric_lt, major, minor, patch.
  destruct (version v) as [[a1 a2] a3], (version w) as [[b1 b2] b3].
  simpl. unfold triple_compare.
  destruct (N.compare_spec a1 b1); [|split; [intros _|reflexivity]; lia
                                    |split; [discriminate|lia]].
  destruct (N.compare_spec a2 b2); [|split; [intros _|reflexivity]; lia
                                    |split; [discriminate|lia]].
  destruct (N.compare_spec a3 b3); split; try discriminate; try lia;
    reflexivity.
Qed.

(** [<=] of [StrictVersion] is the ordering the specification describes. *)
Lemma version_le_at_or_below (v w : StrictVersion) :
  version_le v w = true <-> at_or_below v w.
Proof.
  unfold version_le, _cmp, at_or_below.
  pose proof (triple_compare_eq (version v) (version w)) as He.
  pose proof (triple_compare_lt v w) as Hl.
  destruct (triple_compare (version v) (version w)) eqn:Hc.
  - assert (Hn : ~ numeric_lt v w) by (intros H; apply Hl in H; discriminate).
    assert (Hv : version v = version w) by (now apply He).
    destruct (prerelease v) as [[l n]|], (prerelease w) as [[l' n']|]; simpl.
    + unfold pair_compare. simpl.
      destruct (N.compare_spec l l').
      * destruct (N.compare_spec n n'); split; try discriminate; intros;
          try reflexivity; try (right; split; [assumption|lia]);
          destruct H1 as [H1|[_ H1]]; try contradiction; lia.
      * split; [intros _; right; split; [assumption|lia]|reflexivity].
      * split; [discriminate|].
        intros [H0|[_ H0]]; [contradiction|lia].
    + split; [intros _; right; split; [assumption|exact I]|reflexivity].
    + split; [discriminate|]. intros [H|[_ []]]. contradiction.
    + split; [intros _; right; split; [assumption|exact I]|reflexivity].
  - split; [intros _; left; now apply Hl|reflexivity].
  - split; [discriminate|].
    intros [H|[H _]]; [apply Hl in H|apply He in H]; discriminate.
Qed.

Section Gate.

Context {floats : PyFloat}.
Variable E : env.

Lemma parse_version_not_nil (s : text) (v : StrictVersion) :
  parse_version s = Some v -> s <> [].
Proof. intros H ->. discriminate. Qed.

Lemma threshold_new :
  StrictVersion_new (JStr (T "0.3.17a4")) = Ok (Some threshold).
Proof. reflexivity. Qed.

Lemma StrictVersion_new_parsed (s : text) (v : StrictVersion) :
  parse_version s = Some v -> StrictVersion_new (JStr s) = Ok (Some v).
Proof.
  intros Hp. unfold StrictVersion_new.
  destruct s as [|c s]; [discriminate|]. simpl. now rewrite Hp.
Qed.

(** The gate on a document whose declared version parses. *)
Lemma version_gate_parsed (m : list (text * json)) (s : text) (v : StrictVersion) :
  get (JObj m) (T "version") (JStr (T "0.1.0")) = Ok (JStr s) ->
  parse_version s = Some v ->
  version_gate (JObj m) = Ok (version_le v threshold).
Proof.
  intros Hg Hp. unfold version_gate. rewrite Hg. unfold rbind at 1.
  rewrite StrictVersion_new_parsed with (v := v) by exact Hp.
  unfold rbind at 1.
  rewrite threshold_new. reflexivity.
Qed.

(** C1. The migration of the version gate triggers exactly when the declared
    version is at or below the threshold [0.3.17a4] in the ordering of the
    specification: a document that declares [0.3.17a4] is migrated, one that
    declares [0.3.18] is not, and one without a version counts as [0.1.0]
    and is migrated; a document that is not migrated is returned as it was
    read, one that is migrated has its [config] replaced by the result of
    [_config_adapter]. *)
Theorem version_gate_boundary :
  (forall m, dict_get (T "version") m = Some (JStr (T "0.3.17a4")) ->
             version_gate (JObj m) = Ok true)
  /\ (forall m, dict_get (T "version") m = Some (JStr (T "0.3.18")) ->
                version_gate (JObj m) = Ok false)
  /\ (forall m, dict_get (T "version") m = None ->
                get (JObj m) (T "version") (JStr (T "0.1.0")) = Ok (JStr (T "0.1.0"))
                /\ version_gate (JObj m) = Ok true)
  /\ (forall m s v,
         dict_get (T "version") m = Some (JStr s) ->
         parse_version s = Some v ->
         exists b, version_gate (JObj m) = Ok b
                   /\ (b = true <-> at_or_below v threshold))
  /\ (forall spec m,
         spec <> [] ->
         json_loads spec = Ok (JObj m) ->
         (version_gate (JObj m) = Ok false ->
          document E (JStr spec) = Ok (JObj m))
         /\ (version_gate (JObj m) = Ok true ->
             document E (JStr spec)
             = (config <- getitem (JObj m) (T "config") ;;
                config' <- _config_adapter E config ;;
                Ok (JObj (dict_set (T "config") (JStr config') m)))%py)).
Proof.
  split; [|split; [|split; [|split]]].
  - intros m H.
    rewrite version_gate_parsed with (s := T "0.3.17a4") (v := threshold);
      [reflexivity|simpl; now rewrite H|apply parse_threshold].
  - intros m H.
    rewrite version_gate_parsed with
      (s := T "0.3.18") (v := {| version := (0, 3, 18)%N; prerelease := None |});
      [reflexivity|simpl; now rewrite H|vm_compute; reflexivity].
  - intros m H.
    assert (Hg : get (JObj m) (T "version") (JStr (T "0.1.0"))
                 = Ok (JStr (T "0.1.0"))) by (simpl; now rewrite H).
    split; [exact Hg|].
    rewrite version_gate_parsed with
      (s := T "0.1.0") (v := {| version := (0, 1, 0)%N; prerelease := None |});
      [reflexivity|exact Hg|vm_compute; reflexivity].
  - intros m s v H Hp. exists (version_le v threshold). split.
    + apply version_gate_parsed with (s := s); [simpl; now rewrite H|exact Hp].
    + apply version_le_at_or_below.
  - intros spec m Hne Hl.
    assert (Hd : forall b,
               version_gate (JObj m) = Ok b ->
               document E (JStr spec)
               = if b
                 then (config <- getitem (JObj m) (T "config") ;;
                       config' <- _config_adapter E config ;;
                       Ok (JObj (dict_set (T "config") (JStr config') m)))%py
                 else Ok (JObj m)).
    { intros b Hg. unfold document.
      destruct spec as [|c spec]; [contradiction|].
      change (negb (truthy (JStr (c :: spec)))) with false. cbv iota.
      unfold loads. rewrite Hl. unfold rbind at 1. rewrite Hg.
      unfold rbind at 1. destruct b; reflexivity. }
    split; intros Hg; apply Hd in Hg; exact Hg.
Qed.

End Gate.

(** A document that declares [0.3.17a4], one that declares [0.3.18] and one
    without a version, in the sample environment. *)
Lemma version_gate_boundary_witness :
  version_gate (JObj [(T "version", JStr (T "0.3.17a4"))]) = Ok true
  /\ version_gate (JObj [(T "version", JStr (T "0.3.18"))]) = Ok false
  /\ version_gate (JObj [(T "config", JStr (T "[]"))]) = Ok true
  /\ document (sample_env (T "online") (Raise URLError)) (JStr (Q "{'config': '[]'}"))
     = Ok (JObj [(T "config", JStr (T "[]"))]).
Proof.
  destruct (version_gate_boundary (sample_env (T "online") (Raise URLError)))
    as (H1 & H2 & H3 & _ & H5).
  split; [apply H1; reflexivity|].
  split; [apply H2; reflexivity|].
  split; [apply H3; reflexivity|].
  destruct (H5 (Q "{'config': '[]'}") [(T "config", JStr (T "[]"))])
    as [_ H6]; [discriminate|vm_compute; reflexivity|].
  rewrite H6; [vm_compute; reflexivity|apply H3; reflexivity].
Defined.

(** ** Hexadecimal identifiers *)

Lemma in_range_iff (lo hi c : N) :
  in_range lo hi c = true <-> (lo <= c <= hi)%N.
Proof.
  unfold in_range. rewrite andb_true_iff, !N.leb_le. reflexivity.
Qed.







(** ASCII is read as it is. *)
Lemma to_ascii_low (c : N) : (c < 127)%N -> to_ascii c = c.
Proof. intros H. unfold to_ascii. apply N.ltb_lt in H. now rewrite H. Qed.













(** ** The source classifier *)

Section Classifier.

Context {floats : PyFloat}.
Variable E : env.

Lemma json_loads_raises (s : text) (e : exn) :
  json_loads s = Raise e -> e = JSONDecodeError.
Proof.
  unfold json_loads.
  destruct (parse_value (2 * length s + 1) (skip_ws s)) as [v rest| |];
    try (intros [= <-]; reflexivity).
  destruct (skip_ws rest); [discriminate|intros [= <-]; reflexivity].
Qed.

Lemma _is_json_loads (s : text) :
  _is_json s = Ok (match json_loads s with Ok _ => true | Raise _ => false end).
Proof.
  unfold _is_json. destruct (json_loads s) as [v|e] eqn:H; [reflexivity|].
  apply json_loads_raises in H. now subst.
Qed.

Lemma _is_config_id_ok (s : text) :
  _is_config_id s = Ok (Nat.eqb (length s) 32 && int16_ok s).
Proof.
  unfold _is_config_id, int16.
  destruct (Nat.eqb (length s) 32); [|reflexivity].
  destruct (int16_ok s); reflexivity.
Qed.

Lemma startswith_first_false (c : N) (r p : text) :
  match p with
  | d :: _ => N.eqb c d = false
  | [] => False
  end ->
  startswith (c :: r) p = false.
Proof.
  destruct p as [|d p]; [contradiction|]. simpl. intros H.
  now rewrite N.eqb_sym, H.
Qed.

(** A text that does not start like JSON is not JSON. *)
Lemma not_json_start (c : N) (r : text) :
  json_start c = false -> json_loads (c :: r) = Raise JSONDecodeError.
Proof.
  unfold json_start. simpl existsb. simpl ch.
  rewrite !orb_false_iff.
  intros [[Hw Hd] (H1 & H2 & H3 & H4 & H5 & H6 & H7 & H8 & H9 & _)].
  unfold json_loads. unfold skip_ws. rewrite Hw.
  replace (2 * length (c :: r) + 1) with (S (2 * length (c :: r))) by lia.
  unfold parse_value; fold parse_value.
  simpl ch. rewrite H1, H2, H3.
  rewrite (startswith_first_false c r (T "null")) by exact H4.
  rewrite (startswith_first_false c r (T "true")) by exact H5.
  rewrite (startswith_first_false c r (T "false")) by exact H6.
  rewrite (startswith_first_false c r (T "NaN")) by exact H7.
  rewrite (startswith_first_false c r (T "Infinity")) by exact H8.
  rewrite (startswith_first_false c r (T "-Infinity")) by exact H9.
  unfold scan_number, scan_minus. simpl ch. rewrite H9.
  unfold scan_int_part.
  assert (in_range 49 57 c = false) as ->.
  { destruct (in_range 49 57 c) eqn:Hr; [|reflexivity].
    apply (in_range_weaken (lo' := 48) (hi' := 57)) in Hr; [|lia|lia].
    unfold is_digit in Hd. congruence. }
  assert (N.eqb c 48 = false) as ->.
  { apply N.eqb_neq. intros ->. discriminate. }
  reflexivity.
Qed.

Lemma startswith_head (c : N) (r p : text) (d : N) :
  startswith (c :: r) (d :: p) = true -> c = d.
Proof.
  simpl. intros H. apply andb_true_iff in H as [H _].
  apply N.eqb_eq in H. now subst.
Qed.

Lemma ksf_not_json (spec : text) :
  startswith spec (T "ksf://") = true -> _is_json spec = Ok false.
Proof.
  intros H. rewrite _is_json_loads.
  destruct spec as [|c r]; [discriminate|].
  apply startswith_head in H. subst c.
  now rewrite not_json_start.
Qed.

Lemma http_not_json (spec : text) :
  startswith spec (T "http:") || startswith spec (T "https:") = true ->
  _is_json spec = Ok false.
Proof.
  intros H. rewrite _is_json_loads.
  destruct spec as [|c r]; [discriminate|].
  assert (c = ch "h") as ->
    by (apply orb_true_iff in H as [H|H]; now apply startswith_head in H).
  now rewrite not_json_start.
Qed.

(** Literal JSON is returned as it is, whatever the privacy mode. *)
Lemma json_string_resolution (spec : text) (w : world) :
  spec <> [] -> _is_json spec = Ok true ->
  _get_spec_json_from_diff_source E spec w
  = (Ok (JStr spec, T "json_string"), w).
Proof.
  intros Hne Hj. destruct spec as [|c r]; [contradiction|].
  unfold _get_spec_json_from_diff_source, bind, lift. now rewrite Hj.
Qed.

(** A text that starts with an ASCII character that is neither a hexadecimal
    digit, nor white space, nor a sign is no configuration identifier. *)
Lemma other_start_no_config_id (c : N) (r : text) :
  (c < 127)%N ->
  is_hex c = false -> is_c_space c = false ->
  N.eqb c (ch "+") || N.eqb c (ch "-") = false ->
  _is_config_id (c :: r) = Ok false.
Proof.
  intros Hc Hh Hs Hg. rewrite _is_config_id_ok. f_equal.
  apply andb_false_iff. right. unfold int16_ok.
  cbn [map]. rewrite (to_ascii_low Hc).
  unfold lstrip_int. rewrite Hs. unfold skip_sign. rewrite Hg.
  assert (Hz : N.eqb c (ch "0") = false).
  { apply N.eqb_neq. intros ->. discriminate. }
  unfold skip_hex_prefix, digits_ok.
  destruct (map to_ascii r) as [|x r']; rewrite ?Hz; cbn [andb];
    cbv iota; now rewrite Hh.
Qed.

Lemma ksf_no_config_id (spec : text) :
  startswith spec (T "ksf://") = true -> _is_config_id spec = Ok false.
Proof.
  intros H. destruct spec as [|c r]; [discriminate|].
  apply startswith_head in H. subst c.
  now apply other_start_no_config_id.
Qed.

Lemma http_no_config_id (spec : text) :
  startswith spec (T "http:") || startswith spec (T "https:") = true ->
  _is_config_id spec = Ok false.
Proof.
  intros H. destruct spec as [|c r]; [discriminate|].
  assert (c = ch "h") as ->
    by (apply orb_true_iff in H as [H|H]; now apply startswith_head in H).
  now apply other_start_no_config_id.
Qed.


(** A local path is resolved on the file system alone. *)
Lemma local_file_resolution (spec : text) (w : world) :
  local_kind spec ->
  _get_spec_json_from_diff_source E spec w
  = if Nat.ltb 200 (length (basename spec)) then (Raise ValueError, w)
    else match path_error spec with
         | Some e => (Raise e, w)
         | None =>
             match dict_get spec (files w) with
             | Some (File content) => (Ok (JStr content, T "json_file"), w)
             | Some Undecodable => (Raise UnicodeDecodeError, w)
             | Some Unreadable => (Raise OSError, w)
             | None =>
                 if can_create E spec
                 then (Ok (JStr [], T "json_file"),
                       {| files := dict_set spec (File []) (files w);
                          trace := trace w ++ [FileCreate spec] |})
                 else (Raise OSError, w)
             end
         end.
Proof.
  intros (Hne & Hj & Hk & Hh & Hi).
  destruct spec as [|c r]; [contradiction|].
  unfold _get_spec_json_from_diff_source, bind, lift.
  rewrite Hj, Hk, Hh, Hi.
  destruct (Nat.ltb 200 (length (basename (c :: r)))); [reflexivity|].
  unfold exists_, _get_spec_from_local, read_file, write_empty, ret.
  destruct (path_error (c :: r)) as [e|] eqn:Hp; [reflexivity|].
  destruct (dict_get (c :: r) (files w)) as [[content| |]|] eqn:Hf;
    cbv beta iota; rewrite ?Hp, ?Hf; try reflexivity.
  destruct (can_create E (c :: r)); reflexivity.
Qed.


End Classifier.

Section Resolver.

Context {floats : PyFloat}.
Variable E : env.

Lemma get_spec_json_raise (spec : text) (w w' : world) (e : exn) :
  _get_spec_json_from_diff_source E spec w = (Raise e, w') ->
  get_spec_json E spec w = (Raise e, w').
Proof. intros H. unfold get_spec_json, bind. now rewrite H. Qed.

Lemma get_spec_json_ok (spec : text) (w w' : world) (v : json) (tag : text) :
  _get_spec_json_from_diff_source E spec w = (Ok (v, tag), w') ->
  get_spec_json E spec w
  = (match document E v with
     | Ok doc => Ok (doc, tag)
     | Raise e => Raise e
     end, w').
Proof.
  intros H. unfold get_spec_json, bind, lift, ret. rewrite H.
  destruct (document E v); reflexivity.
Qed.


(** C8, as the code has it. For a spec classified as a local path: a base
    name of more than 200 characters makes the resolver fail with
    [ValueError]. Otherwise, when no file is at the path and one can be
    created there, the resolver creates an empty file at that path and
    returns the empty document tagged [json_file]; when none can be created,
    it raises the error of the attempt and creates nothing. *)
Theorem local_file_missing (spec : text) (w : world) :
  local_kind spec ->
  (200 < length (basename spec) ->
   get_spec_json E spec w = (Raise ValueError, w))
  /\ (length (basename spec) <= 200 ->
      (path_error spec = None ->
       dict_get spec (files w) = None ->
       can_create E spec = true ->
       exists w',
         get_spec_json E spec w
         = (Ok (JObj [(T "chart_map", JObj []); (T "config", JStr [])],
                T "json_file"), w')
         /\ files w' = dict_set spec (File []) (files w)
         /\ dict_get spec (files w') = Some (File [])
         /\ trace w' = trace w ++ [FileCreate spec])
      /\ (path_error spec = None ->
          dict_get spec (files w) = None ->
          can_create E spec = false ->
          get_spec_json E spec w = (Raise OSError, w))
      /\ (forall e, path_error spec = Some e ->
                    get_spec_json E spec w = (Raise e, w))).
Proof.
  intros Hk. pose proof (@local_file_resolution _ E spec w Hk) as H. split.
  - intros Hlen. apply Nat.ltb_lt in Hlen. rewrite Hlen in H.
    now apply get_spec_json_raise.
  - intros Hlen.
    assert (Hlt : Nat.ltb 200 (length (basename spec)) = false)
      by (apply Nat.ltb_ge; exact Hlen).
    rewrite Hlt in H. split; [|split].
    + intros Hp Hf Hc. rewrite Hp, Hf, Hc in H.
      eexists. split; [|split; [|split]].
      * erewrite get_spec_json_ok by exact H. reflexivity.
      * reflexivity.
      * simpl. apply dict_get_set_same.
      * reflexivity.
    + intros Hp Hf Hc. rewrite Hp, Hf, Hc in H.
      now apply get_spec_json_raise.
    + intros e Hp. rewrite Hp in H. now apply get_spec_json_raise.
Qed.

(** C9. A non-empty text that is JSON for something that is neither an
    object nor a list (a number, a string, [true], [false], [null]) is
    tagged [json_string], and [get_spec_json] then fails with
    [AttributeError]: it returns nothing and raises none of the errors of
    the module. *)
Theorem scalar_json_attribute_error (spec : text) (v : json) (w : world) :
  spec <> [] ->
  json_loads spec = Ok v ->
  (forall items, v <> JArr items) ->
  (forall members, v <> JObj members) ->
  _get_spec_json_from_diff_source E spec w
  = (Ok (JStr spec, T "json_string"), w)
  /\ get_spec_json E spec w = (Raise AttributeError, w).
Proof.
  intros Hne Hl Ha Ho.
  assert (Hj : _is_json spec = Ok true) by (rewrite _is_json_loads, Hl; reflexivity).
  pose proof (@json_string_resolution _ E spec w Hne Hj) as H.
  split; [exact H|].
  erewrite get_spec_json_ok by exact H. unfold document.
  destruct spec as [|c r]; [contradiction|].
  change (negb (truthy (JStr (c :: r)))) with false. cbv iota.
  unfold loads. rewrite Hl. unfold rbind at 1.
  destruct v; try reflexivity.
  - now destruct (Ha items).
  - now destruct (Ho members).
Qed.

End Resolver.



(** The scenario of the specification: the path [./nope.json] does not
    exist. *)
Lemma local_file_missing_witness :
  exists w',
    get_spec_json (sample_env (T "online") (Raise URLError)) (T "./nope.json")
      empty_world
    = (Ok (JObj [(T "chart_map", JObj []); (T "config", JStr [])],
           T "json_file"), w')
    /\ files w' = dict_set (T "./nope.json") (File []) (files empty_world)
    /\ dict_get (T "./nope.json") (files w') = Some (File [])
    /\ trace w' = trace empty_world ++ [FileCreate (T "./nope.json")].
Proof.
  apply (@local_file_missing _ (sample_env (T "online") (Raise URLError))
           (T "./nope.json") empty_world).
  - repeat split; try discriminate; vm_compute; reflexivity.
  - vm_compute. lia.
  - reflexivity.
  - reflexivity.
  - reflexivity.
Defined.

(** C8 as stated fails. No file is at the path [a<NUL>b], a local path with
    a short base name, and none is created: [open] refuses a path that holds
    a NUL, whatever the file system allows, and the resolver raises
    [ValueError]. Nor is a file created where the file system does not
    allow it. *)
Lemma local_file_missing_counterexample :
  let E := sample_env (T "online") (Raise URLError) in
  let E' := {| privacy := T "online";
               read_config_from_cloud := fun _ => Raise URLError;
               urlopen := fun _ _ => Raise URLError;
               can_create := fun _ => false;
               rename_columns := prefix_names;
               rand_str := fun _ => [] |} in
  let spec := [ch "a"; 0%N; ch "b"] in
  (_is_json spec = Ok false /\ _is_config_id spec = Ok false
   /\ length (basename spec) = 3
   /\ dict_get spec (files empty_world) = None
   /\ get_spec_json E spec empty_world = (Raise ValueError, empty_world))
  /\ (_is_json (T "nodir/nope.json") = Ok false
      /\ _is_config_id (T "nodir/nope.json") = Ok false
      /\ get_spec_json E' (T "nodir/nope.json") empty_world
         = (Raise OSError, empty_world)).
Proof. vm_compute. repeat split. Qed.

(** A numeral of 32 digits. *)
Lemma scalar_json_attribute_error_witness :
  let s := T "12345678901234567890123456789012" in
  _get_spec_json_from_diff_source (sample_env (T "online") (Raise URLError)) s
    empty_world
  = (Ok (JStr s, T "json_string"), empty_world)
  /\ get_spec_json (sample_env (T "online") (Raise URLError)) s empty_world
     = (Raise AttributeError, empty_world).
Proof.
  intros s.
  apply (@scalar_json_attribute_error _
           (sample_env (T "online") (Raise URLError))
           s (JInt 12345678901234567890123456789012) empty_world).
  - discriminate.
  - vm_compute. reflexivity.
  - discriminate.
  - discriminate.
Defined.

Section Kinds.

Context {floats : PyFloat}.
Variable E : env.

(** The ways in which the classifier returns. *)
Lemma classifier_cases (spec : text) (w w' : world) (v : json) (tag : text) :
  _get_spec_json_from_diff_source E spec w = (Ok (v, tag), w') ->
  (spec = [] /\ tag = T "empty_string" /\ v = JStr [])
  \/ (spec <> [] /\ _is_json spec = Ok true
      /\ tag = T "json_string" /\ v = JStr spec)
  \/ (startswith spec (T "ksf://") = true /\ tag = T "json_ksf")
  \/ (startswith spec (T "http:") || startswith spec (T "https:") = true
      /\ tag = T "json_http")
  \/ (_is_json spec = Ok false /\ _is_config_id spec = Ok true
      /\ offline E = false /\ tag = T "json_server")
  \/ (local_kind spec /\ tag = T "json_file" /\ exists r, v = JStr r).
Proof.
  intros H. destruct spec as [|c r].
  { inversion H; subst. left. split; [|split]; reflexivity. }
  unfold _get_spec_json_from_diff_source, bind, lift in H.
  destruct (_is_json (c :: r)) as [[|]|e] eqn:Hj;
    [|
     |rewrite _is_json_loads in Hj; discriminate].
  { inversion H; subst. right. left.
    split; [discriminate|]. split; [reflexivity|]. split; reflexivity. }
  destruct (startswith (c :: r) (T "ksf://")) eqn:Hk.
  { destruct (offline E); [discriminate|].
    destruct (cloud_read E (skipn 6 (c :: r)) w) as [[x|x] w1];
      inversion H; subst. right. right. left. split; reflexivity. }
  destruct (startswith (c :: r) (T "http:") || startswith (c :: r) (T "https:"))
    eqn:Hh.
  { destruct (offline E); [discriminate|].
    destruct (_get_spec_from_url E (c :: r) w) as [[x|x] w1];
      inversion H; subst. right. right. right. left. split; reflexivity. }
  destruct (_is_config_id (c :: r)) as [[|]|e] eqn:Hi;
    [|
     |rewrite _is_config_id_ok in Hi; discriminate].
  { destruct (offline E) eqn:Hoff; [discriminate|].
    destruct (_get_spec_from_server E (c :: r) w) as [[x|x] w1];
      inversion H; subst. do 4 right. left.
    split; [reflexivity|]. split; [reflexivity|]. split; reflexivity. }
  do 5 right.
  assert (Hloc : local_kind (c :: r)).
  { split; [discriminate|]. split; [exact Hj|]. split; [exact Hk|].
    split; [exact Hh|exact Hi]. }
  split; [exact Hloc|].
  pose proof (@local_file_resolution _ E (c :: r) w Hloc) as Hr.
  unfold _get_spec_json_from_diff_source, bind, lift in Hr.
  rewrite Hj, Hk, Hh, Hi in Hr. rewrite Hr in H. clear Hr.
  destruct (Nat.ltb 200 (length (basename (c :: r)))); [discriminate|].
  destruct (path_error (c :: r)); [discriminate|].
  destruct (dict_get (c :: r) (files w)) as [[content| |]|] eqn:Hf.
  - inversion H. split; [reflexivity|now eexists].
  - discriminate.
  - discriminate.
  - destruct (can_create E (c :: r)); inversion H.
    split; [reflexivity|now eexists].
Qed.



End Kinds.



(** ** The document that is returned *)

Section Documents.

Context {floats : PyFloat}.
Variable E : env.

Lemma classifier_tag_known (spec : text) (w w' : world) (v : json) (tag : text) :
  _get_spec_json_from_diff_source E spec w = (Ok (v, tag), w') ->
  In tag source_tags.
Proof.
  intros H. apply classifier_cases in H. unfold source_tags.
  destruct H as [(_ & H & _)|[(_ & _ & H & _)|[(_ & H)|[(_ & H)|
                 [(_ & _ & _ & H)|(_ & H & _)]]]]]; subst tag; simpl; tauto.
Qed.

Lemma version_gate_object (v : json) (b : bool) :
  version_gate v = Ok b -> exists m, v = JObj m.
Proof. destruct v; try discriminate. intros _. now eexists. Qed.

Lemma version_gate_empty : version_gate (JObj []) = Ok true.
Proof. reflexivity. Qed.

(** What [get_spec_json] makes of the text it resolved, when it returns. *)
Lemma document_shape (spec : json) (doc : json) :
  document E spec = Ok doc ->
  (truthy spec = false /\ doc = empty_document)
  \/ (exists text items config',
         spec = JStr text /\ json_loads text = Ok (JArr items)
         /\ _config_adapter E spec = Ok config'
         /\ doc = JObj [(T "chart_map", JObj []); (T "config", JStr config')])
  \/ (exists text m,
         spec = JStr text /\ json_loads text = Ok (JObj m) /\ m <> []
         /\ ((version_gate (JObj m) = Ok false /\ doc = JObj m)
             \/ (exists config config',
                    version_gate (JObj m) = Ok true
                    /\ dict_get (T "config") m = Some config
                    /\ _config_adapter E config = Ok config'
                    /\ doc = JObj (dict_set (T "config") (JStr config') m)))).
Proof.
  unfold document. destruct (truthy spec) eqn:Ht; simpl negb; cbv iota.
  2:{ intros [= <-]. left. now split. }
  intros H. right.
  destruct spec as [| | | |text| |]; try discriminate. unfold loads in H.
  destruct (json_loads text) as [parsed|e] eqn:Hl.
  2:{ destruct e; discriminate. }
  unfold rbind at 1 in H.
  destruct parsed as [| | | | |items|m].
  1-5: discriminate.
  - left.
    change (version_gate (JObj [(T "chart_map", JObj []); (T "config", JStr text)]))
      with (@Ok bool true) in H.
    unfold rbind at 1 in H. cbv iota in H.
    change (getitem (JObj [(T "chart_map", JObj []); (T "config", JStr text)])
              (T "config")) with (Ok (JStr text)) in H.
    unfold rbind at 1 in H.
    destruct (_config_adapter E (JStr text)) as [config'|e] eqn:Ha;
      [|discriminate].
    injection H as <-. exists text, items, config'.
    split; [reflexivity|]. split; [exact Hl|].
    split; [first [exact Ha|reflexivity]|]. reflexivity.
  - right. exists text, m.
    destruct (version_gate (JObj m)) as [[|]|e] eqn:Hg; [| |discriminate].
    + unfold rbind at 1 in H. cbv iota in H. unfold getitem in H.
      destruct (dict_get (T "config") m) as [config|] eqn:Hc; [|discriminate].
      unfold rbind at 1 in H.
      destruct (_config_adapter E config) as [config'|e] eqn:Ha; [|discriminate].
      injection H as <-.
      split; [reflexivity|]. split; [exact Hl|].
      split; [intros ->; discriminate|].
      right. exists config, config'. now repeat split.
    + injection H as <-.
      split; [reflexivity|]. split; [exact Hl|].
      split; [intros ->; discriminate|].
      left. now split.
Qed.

(** C7, as the code has it. When [get_spec_json] returns, it returns a pair
    of an object that is not empty and of one of the six source tags, the
    tag under which the classifier resolved the spec. The object is the
    empty document [{chart_map: {}, config: ""}] when what was resolved is
    empty; it is [{chart_map: {}, config: c}] with [c] the resolved text
    after migration when that text is a JSON list; and when the text is a
    JSON object it is that object, whatever its keys: as it is when the
    version gate does not trigger, and with its [config] replaced by the
    migrated [config] when the gate triggers. *)
Theorem resolved_document (spec : text) (w w' : world) (doc : json) (tag : text) :
  get_spec_json E spec w = (Ok (doc, tag), w') ->
  In tag source_tags
  /\ (exists m, doc = JObj m /\ m <> [])
  /\ exists resolved,
       _get_spec_json_from_diff_source E spec w = (Ok (resolved, tag), w')
       /\ ((truthy resolved = false /\ doc = empty_document)
           \/ (exists text items config',
                  resolved = JStr text /\ json_loads text = Ok (JArr items)
                  /\ _config_adapter E (JStr text) = Ok config'
                  /\ doc = JObj [(T "chart_map", JObj []);
                                 (T "config", JStr config')])
           \/ (exists text m,
                  resolved = JStr text /\ json_loads text = Ok (JObj m)
                  /\ ((version_gate (JObj m) = Ok false /\ doc = JObj m)
                      \/ (exists config config',
                             version_gate (JObj m) = Ok true
                             /\ dict_get (T "config") m = Some config
                             /\ _config_adapter E config = Ok config'
                             /\ doc = JObj (dict_set (T "config")
                                              (JStr config') m))))).
Proof.
  intros H. unfold get_spec_json, bind, lift, ret in H.
  destruct (_get_spec_json_from_diff_source E spec w) as [[[v t]|e] w1] eqn:Hc;
    [|discriminate].
  destruct (document E v) as [d|e] eqn:Hd; [|discriminate].
  inversion H; subst. clear H.
  split; [eapply classifier_tag_known; exact Hc|].
  apply document_shape in Hd.
  destruct Hd as [[Ht ->]|[(text & items & c' & -> & Hl & Ha & ->)
                          |(text & m & -> & Hl & Hne & Hd)]].
  - split; [eexists; split; [reflexivity|discriminate]|].
    exists v. split; [reflexivity|]. left. now split.
  - split; [eexists; split; [reflexivity|discriminate]|].
    exists (JStr text). split; [reflexivity|].
    right. left. exists text, items, c'. now repeat split.
  - destruct Hd as [[Hg ->]|(config & config' & Hg & Hcf & Ha & ->)].
    + split; [now exists m|].
      exists (JStr text). split; [reflexivity|].
      right. right. exists text, m. split; [reflexivity|]. split; [exact Hl|].
      left. now split.
    + split; [eexists; split; [reflexivity|apply dict_set_not_nil]|].
      exists (JStr text). split; [reflexivity|].
      right. right. exists text, m. split; [reflexivity|]. split; [exact Hl|].
      right. exists config, config'. now repeat split.
Qed.

End Documents.

(** A legacy list of charts comes back wrapped, its fid renamed. *)
Lemma resolved_document_witness :
  let E := sample_env (T "online") (Raise URLError) in
  let spec :=
    Q "[{'encodings':{'dimensions':[{'fid':'a1','name':'x'}],'measures':[]}}]" in
  let config' :=
    Q "[{'encodings':{'dimensions':[{'fid':'GW_x','name':'x'}],'measures':[]}}]" in
  let doc := JObj [(T "chart_map", JObj []); (T "config", JStr config')] in
  get_spec_json E spec empty_world = (Ok (doc, T "json_string"), empty_world)
  /\ In (T "json_string") source_tags
  /\ (exists m, doc = JObj m /\ m <> [])
  /\ exists resolved,
       _get_spec_json_from_diff_source E spec empty_world
       = (Ok (resolved, T "json_string"), empty_world)
       /\ ((truthy resolved = false /\ doc = empty_document)
           \/ (exists text items config',
                  resolved = JStr text /\ json_loads text = Ok (JArr items)
                  /\ _config_adapter E (JStr text) = Ok config'
                  /\ doc = JObj [(T "chart_map", JObj []);
                                 (T "config", JStr config')])
           \/ (exists text m,
                  resolved = JStr text /\ json_loads text = Ok (JObj m)
                  /\ ((version_gate (JObj m) = Ok false /\ doc = JObj m)
                      \/ (exists config config',
                             version_gate (JObj m) = Ok true
                             /\ dict_get (T "config") m = Some config
                             /\ _config_adapter E config = Ok config'
                             /\ doc = JObj (dict_set (T "config")
                                              (JStr config') m))))).
Proof.
  intros E spec config' doc.
  assert (H : get_spec_json E spec empty_world
              = (Ok (doc, T "json_string"), empty_world))
    by (vm_compute; reflexivity).
  split; [exact H|].
  exact (@resolved_document _ E spec empty_world empty_world doc
           (T "json_string") H).
Defined.

(** C7 as stated fails: an object that declares a version above the
    threshold is returned as it is, and is neither of shape (b) nor empty. *)
Lemma resolved_document_counterexample :
  let doc := JObj [(T "version", JStr (T "0.4.0"))] in
  get_spec_json (sample_env (T "online") (Raise URLError))
    (Q "{'version': '0.4.0'}") empty_world
  = (Ok (doc, T "json_string"), empty_world)
  /\ ~ (shape_b doc \/ doc = JObj []).
Proof.
  intros doc. split; [vm_compute; reflexivity|].
  intros [(m & cm & c & items & Hm & Hcm & _)|H]; [|discriminate].
  injection Hm as <-. discriminate.
Qed.

(** ** The field reconciler *)

Section Reconciler.

Context {floats : PyFloat}.
Variable E : env.

(** The loop over the dataset fields in closed form: the absent fields get
    a new reference each, in order; those of type ["dimension"] go to the
    first list, all the others to the second. *)
Lemma new_fields_closed (all_fields : list field_dict) (set : list json) :
  forall d m n d' m' n',
    new_fields E all_fields set d m n = Ok (d', m', n') ->
    d' = d ++ dims_of (gw_fields E (filter (absent set) all_fields) n)
    /\ m' = m ++ meas_of (gw_fields E (filter (absent set) all_fields) n)
    /\ n' = n + length (filter (absent set) all_fields)
    /\ Forall (fun f => dict_get (T "fid") f <> None) all_fields
    /\ Forall (fun f => dict_get (T "name") f <> None)
         (filter (absent set) all_fields).
Proof.
  induction all_fields as [|field rest IH]; intros d m n d' m' n' H.
  - simpl in H. injection H as <- <- <-. simpl.
    rewrite !app_nil_r. repeat split; auto.
  - unfold new_fields in H; fold new_fields in H. unfold field_item in H.
    destruct (dict_get (T "fid") field) as [fid|] eqn:Hfid; [|discriminate].
    unfold rbind at 1 in H.
    assert (Hfid' : dict_get (T "fid") field <> None) by (rewrite Hfid; discriminate).
    destruct (in_field_set fid set) eqn:Hin.
    + assert (Habs : absent set field = false)
        by (unfold absent; now rewrite Hfid, Hin).
      apply IH in H. simpl filter. rewrite Habs.
      destruct H as (H1 & H2 & H3 & H4 & H5).
      repeat split; auto.
    + assert (Habs : absent set field = true)
        by (unfold absent; now rewrite Hfid, Hin).
      destruct (dict_get (T "name") field) as [name|] eqn:Hname; [|discriminate].
      unfold rbind at 1 in H.
      destruct (dict_get (T "analyticType") field) as [a|] eqn:Ha;
        [|discriminate].
      unfold rbind at 1 in H.
      assert (Hn : field_name field = name)
        by (unfold field_name; now rewrite Hname).
      assert (Hname' : dict_get (T "name") field <> None)
        by (rewrite Hname; discriminate).
      assert (Hd : is_dimension field = text_eqb a (T "dimension"))
        by (unfold is_dimension; now rewrite Ha).
      simpl filter. rewrite Habs. simpl gw_fields. rewrite Hn.
      unfold dims_of, meas_of. simpl filter. rewrite Hd.
      destruct (text_eqb a (T "dimension")); apply IH in H;
        destruct H as (H1 & H2 & H3 & H4 & H5); simpl negb; cbv iota;
        simpl map; simpl length.
      * rewrite <- app_assoc in H1. simpl in H1.
        repeat split; auto. lia.
      * rewrite <- app_assoc in H2. simpl in H2.
        repeat split; auto. lia.
Qed.

Lemma dimensions_not_measures : T "measures" <> T "dimensions".
Proof. discriminate. Qed.

Lemma rbind_ok {A B} (m : result A) (k : A -> result B) (b : B) :
  rbind m k = Ok b -> exists a, m = Ok a /\ k a = Ok b.
Proof. destruct m as [a|e]; [|discriminate]. intros H. now exists a. Qed.

Lemma getitem_ok (v : json) (k : text) (x : json) :
  getitem v k = Ok x -> exists m, v = JObj m /\ dict_get k m = Some x.
Proof.
  destruct v; try discriminate. simpl.
  destruct (dict_get k members) eqn:H; [|discriminate].
  intros [= <-]. now eexists.
Qed.

Lemma extend_ok (v : json) (more : list json) (v' : json) :
  extend v more = Ok v' -> exists l, v = JArr l /\ v' = JArr (l ++ more).
Proof. destruct v; try discriminate. intros [= <-]. now eexists. Qed.

(** The body of the loop over the chart items in closed form. *)
Lemma fill_item_closed (all_fields : list field_dict) (item item' : json)
    (n n' : nat) :
  fill_item E all_fields item n = Ok (item', n') ->
  exists m enc dims meas set,
    item = JObj m
    /\ dict_get (T "encodings") m = Some (JObj enc)
    /\ dict_get (T "dimensions") enc = Some (JArr dims)
    /\ dict_get (T "measures") enc = Some (JArr meas)
    /\ field_set (dims ++ meas) = Ok set
    /\ item'
       = JObj
           (dict_set (T "encodings")
              (JObj
                 (dict_set (T "measures")
                    (JArr (meas ++ meas_of
                             (gw_fields E (filter (absent set) all_fields) n)))
                    (dict_set (T "dimensions")
                       (JArr (dims ++ dims_of
                                (gw_fields E (filter (absent set) all_fields) n)))
                       enc)))
              m)
    /\ n' = n + length (filter (absent set) all_fields)
    /\ Forall (fun f => dict_get (T "fid") f <> None) all_fields
    /\ Forall (fun f => dict_get (T "name") f <> None)
         (filter (absent set) all_fields).
Proof.
  unfold fill_item, item_fields. intros H.
  apply rbind_ok in H as (fields & Hf & H).
  apply rbind_ok in Hf as (enc0 & He & Hf).
  apply getitem_ok in He as (m & -> & Henc).
  apply rbind_ok in Hf as (dims0 & Hd & Hf).
  apply getitem_ok in Hd as (enc & -> & Hdims).
  apply rbind_ok in Hf as (enc1 & He1 & Hf).
  simpl in He1. rewrite Henc in He1. injection He1 as <-.
  apply rbind_ok in Hf as (meas0 & Hm & Hsum).
  apply getitem_ok in Hm as (enc2 & [= <-] & Hmeas).
  apply rbind_ok in H as (set & Hset & H).
  apply rbind_ok in H as ([[d' m'] n1] & Hnew & H).
  apply rbind_ok in H as (enc3 & He3 & H).
  simpl in He3. rewrite Henc in He3. injection He3 as <-.
  apply rbind_ok in H as (dims1 & Hd1 & H).
  simpl in Hd1. rewrite Hdims in Hd1. injection Hd1 as <-.
  apply rbind_ok in H as (dims' & Hx & H).
  apply extend_ok in Hx as (dims & -> & ->).
  apply rbind_ok in H as (meas1 & Hm1 & H).
  unfold set_item at 1, getitem in Hm1.
  rewrite dict_get_set_other in Hm1 by apply dimensions_not_measures.
  rewrite Hmeas in Hm1. injection Hm1 as <-.
  apply rbind_ok in H as (meas' & Hx & H).
  apply extend_ok in Hx as (meas & -> & ->).
  unfold set_item in H. injection H as <- <-.
  simpl in Hsum. injection Hsum as <-.
  apply new_fields_closed in Hnew.
  destruct Hnew as (-> & -> & -> & H4 & H5). simpl app.
  exists m, enc, dims, meas, set. repeat split; auto.
Qed.

Lemma gw_fields_in (fields : list field_dict) :
  forall n p,
    In p (gw_fields E fields n) ->
    In (fst p) fields
    /\ exists k, snd p = gw_field E (fst p) (field_name (fst p)) k.
Proof.
  induction fields as [|f rest IH]; intros n p; simpl; [contradiction|].
  intros [<-|H].
  - split; [now left|]. now exists n.
  - apply IH in H as [H1 H2]. split; [now right|exact H2].
Qed.

Lemma gw_fields_complete (fields : list field_dict) :
  forall n f,
    In f fields ->
    exists k, In (f, gw_field E f (field_name f) k) (gw_fields E fields n).
Proof.
  induction fields as [|f0 rest IH]; intros n f; simpl; [contradiction|].
  intros [->|H].
  - exists n. now left.
  - destruct (IH (S n) f H) as [k Hk]. exists k. now right.
Qed.

Lemma name_some (f : field_dict) :
  dict_get (T "name") f <> None ->
  dict_get (T "name") f = Some (field_name f).
Proof.
  unfold field_name. destruct (dict_get (T "name") f); [reflexivity|].
  intros H. now destruct H.
Qed.

Lemma new_references (all_fields : list field_dict) (set : list json)
    (n : nat) (dimension : bool) :
  Forall (fun f => dict_get (T "name") f <> None)
    (filter (absent set) all_fields) ->
  Forall (new_reference E all_fields dimension)
    (map snd
       (filter (fun p => Bool.eqb (is_dimension (fst p)) dimension)
          (gw_fields E (filter (absent set) all_fields) n))).
Proof.
  intros Hn. apply Forall_forall. intros g Hg.
  apply in_map_iff in Hg as (p & <- & Hp).
  apply filter_In in Hp as [Hp Hd].
  apply gw_fields_in in Hp as [Hin [k Hk]].
  exists (fst p), k.
  rewrite Forall_forall in Hn. pose proof (Hn _ Hin) as Hname.
  apply filter_In in Hin as [Hin _].
  split; [exact Hin|]. split; [now apply Bool.eqb_prop|].
  split; [now apply name_some|exact Hk].
Qed.

Lemma filter_dims (g : list (field_dict * json)) :
  dims_of g
  = map snd (filter (fun p => Bool.eqb (is_dimension (fst p)) true) g).
Proof.
  unfold dims_of. f_equal. apply filter_ext. intros p.
  now destruct (is_dimension (fst p)).
Qed.

Lemma filter_meas (g : list (field_dict * json)) :
  meas_of g
  = map snd (filter (fun p => Bool.eqb (is_dimension (fst p)) false) g).
Proof. reflexivity. Qed.

(** Reconciliation extends a chart item, and changes nothing else in it. *)
Lemma fill_item_extended (all_fields : list field_dict) (item item' : json)
    (n n' : nat) :
  fill_item E all_fields item n = Ok (item', n') ->
  extended E all_fields item item'.
Proof.
  intros H. apply fill_item_closed in H.
  destruct H as (m & enc & dims & meas & set & -> & Henc & Hdims & Hmeas
                 & Hset & -> & _ & Hfid & Hname).
  set (g := gw_fields E (filter (absent set) all_fields) n).
  exists dims, meas, (dims_of g), (meas_of g).
  assert (Hch : forall k,
             channel
               (JObj
                  (dict_set (T "encodings")
                     (JObj
                        (dict_set (T "measures") (JArr (meas ++ meas_of g))
                           (dict_set (T "dimensions")
                              (JArr (dims ++ dims_of g)) enc))) m)) k
             = dict_get k
                 (dict_set (T "measures") (JArr (meas ++ meas_of g))
                    (dict_set (T "dimensions") (JArr (dims ++ dims_of g)) enc))).
  { intros k. unfold channel. now rewrite dict_get_set_same. }
  split; [unfold channel; now rewrite Henc|].
  split; [unfold channel; now rewrite Henc|].
  split.
  { rewrite Hch, dict_get_set_other, dict_get_set_same; [reflexivity|].
    intros Heq. symmetry in Heq. now apply dimensions_not_measures in Heq. }
  split; [rewrite Hch; apply dict_get_set_same|].
  split.
  { intros k Hk1 Hk2. rewrite Hch, !dict_get_set_other by assumption.
    unfold channel. now rewrite Henc. }
  split; [intros k Hk; simpl; now rewrite dict_get_set_other|].
  split; [simpl; now apply dict_set_keys with (v' := JObj enc)|].
  split; [rewrite filter_dims; now apply new_references|].
  split; [rewrite filter_meas; now apply new_references|].
  intros set' field Hs Hin Habs.
  assert (set' = set) as ->.
  { unfold item_fids, item_fields in Hs. simpl in Hs. rewrite Henc in Hs.
    simpl in Hs. rewrite Hdims, Hmeas in Hs. simpl in Hs. congruence. }
  assert (Hf : In field (filter (absent set) all_fields))
    by (apply filter_In; now split).
  destruct (gw_fields_complete (filter (absent set) all_fields) n field Hf)
    as [k Hk].
  exists k. fold g in Hk.
  destruct (is_dimension field) eqn:Hd.
  - unfold dims_of. apply in_map_iff. eexists. split; [|apply filter_In; split;
      [exact Hk|exact Hd]]. reflexivity.
  - unfold meas_of. apply in_map_iff. eexists. split; [|apply filter_In; split;
      [exact Hk|simpl; now rewrite Hd]]. reflexivity.
Qed.

Lemma fill_items_extended (all_fields : list field_dict) (items : list json) :
  forall n items' n',
    fill_items E all_fields items n = Ok (items', n') ->
    Forall2 (extended E all_fields) items items'.
Proof.
  induction items as [|item rest IH]; intros n items' n' H.
  - injection H as <- <-. constructor.
  - simpl in H.
    apply rbind_ok in H as ([item' n1] & Hi & H).
    apply rbind_ok in H as ([rest' n2] & Hr & H).
    injection H as <- <-. constructor.
    + eapply fill_item_extended; exact Hi.
    + eapply IH; exact Hr.
Qed.

(** C5. Reconciliation is additive. The text it returns is the
    serialization of the chart items of the configuration, each of them
    [extended]: its dimensions and its measures are the old references,
    unchanged and in their order, followed by the new ones; every new
    dimension stands for a dataset field of type ["dimension"], every new
    measure for a field of another type (["measure"] among them); every
    other entry of the item is as it was. (A configuration that is not a
    list has no chart items and is serialized as it is.) *)
Theorem reconciliation_additive (config : text) (all_fields : list field_dict)
    (n : nat) (out : text) (n' : nat) :
  fill_new_fields E config all_fields n = Ok (out, n') ->
  exists obj obj',
    json_loads config = Ok obj
    /\ out = json_dumps obj'
    /\ ((exists items items',
            obj = JArr items /\ obj' = JArr items'
            /\ Forall2 (extended E all_fields) items items')
        \/ ((forall items, obj <> JArr items) /\ obj' = obj)).
Proof.
  unfold fill_new_fields. intros H.
  apply rbind_ok in H as (obj & Hl & H).
  apply rbind_ok in H as ([obj' n1] & Hf & H).
  injection H as <- <-. exists obj, obj'.
  split; [exact Hl|]. split; [reflexivity|].
  unfold filled in Hf.
  apply rbind_ok in Hf as (items & Hi & Hf).
  apply rbind_ok in Hf as ([items' n2] & Hfi & Hf).
  destruct obj; injection Hf as <- <-;
    try (right; split; [discriminate|reflexivity]).
  left. injection Hi as <-. exists items0, items'.
  split; [reflexivity|]. split; [reflexivity|].
  eapply fill_items_extended; exact Hfi.
Qed.

(** What a new reference holds: the entries of the dataset field, the name
    of the field as its base name, and a drag id made of a random string. *)
Lemma gw_field_entries (field : field_dict) (name : text) (n : nat) :
  exists reference,
    gw_field E field name n = JObj reference
    /\ dict_get (T "basename") reference = Some (JStr name)
    /\ dict_get (T "dragId") reference = Some (JStr (T "GW_" ++ rand_str E n))
    /\ (forall key value,
           dict_get key field = Some value ->
           key <> T "basename" -> key <> T "dragId" ->
           dict_get key reference = Some (JStr value))
    /\ (forall key,
           dict_get key reference <> None ->
           key = T "basename" \/ key = T "dragId"
           \/ dict_get key field <> None).
Proof.
  unfold gw_field. eexists. split; [reflexivity|].
  split; [|split; [|split]].
  - rewrite dict_get_set_other by discriminate. apply dict_get_set_same.
  - apply dict_get_set_same.
  - intros key value Hv Hb Hd.
    rewrite !dict_get_set_other by assumption.
    now rewrite dict_get_map, Hv.
  - intros key Hk.
    destruct (text_eqb key (T "dragId")) eqn:Hd;
      [apply text_eqb_eq in Hd; tauto|apply text_eqb_neq in Hd].
    destruct (text_eqb key (T "basename")) eqn:Hb;
      [apply text_eqb_eq in Hb; tauto|apply text_eqb_neq in Hb].
    right. right. rewrite !dict_get_set_other in Hk by assumption.
    rewrite dict_get_map in Hk. now destruct (dict_get key field).
Qed.

Lemma gw_fields_draw (fields : list field_dict) :
  forall n f,
    In f fields ->
    exists k, n <= k < n + length fields
              /\ In (f, gw_field E f (field_name f) k) (gw_fields E fields n).
Proof.
  induction fields as [|f0 rest IH]; intros n f; simpl; [contradiction|].
  intros [->|H].
  - exists n. split; [lia|now left].
  - destruct (IH (S n) f H) as (k & Hk & Hin). exists k.
    split; [lia|now right].
Qed.

(** C10. A dataset field that is absent from a chart item and whose
    [analyticType] is anything but ["dimension"] is appended to the measures
    of the item: among what is put after the old measures there is a
    reference that holds every entry of the field (its fid, its name and its
    [analyticType] among them), under ["basename"] the name of the field and
    under ["dragId"] the text [GW_] followed by one of the random strings
    drawn for the item, whatever the field holds under these two keys; the
    reference has no other key. *)
Theorem other_types_go_to_measures (all_fields : list field_dict)
    (item item' : json) (n n' : nat) (set : list json) (field : field_dict)
    (analytic : text) :
  fill_item E all_fields item n = Ok (item', n') ->
  item_fids item = Ok set ->
  In field all_fields ->
  absent set field = true ->
  dict_get (T "analyticType") field = Some analytic ->
  analytic <> T "dimension" ->
  exists meas new_meas reference name k,
    channel item (T "measures") = Some (JArr meas)
    /\ channel item' (T "measures") = Some (JArr (meas ++ new_meas))
    /\ In (JObj reference) new_meas
    /\ dict_get (T "name") field = Some name
    /\ n <= k < n'
    /\ dict_get (T "basename") reference = Some (JStr name)
    /\ dict_get (T "dragId") reference = Some (JStr (T "GW_" ++ rand_str E k))
    /\ (forall key value,
           dict_get key field = Some value ->
           key <> T "basename" -> key <> T "dragId" ->
           dict_get key reference = Some (JStr value))
    /\ (forall key,
           dict_get key reference <> None ->
           key = T "basename" \/ key = T "dragId"
           \/ dict_get key field <> None).
Proof.
  intros H Hs Hin Habs Ha Hne. apply fill_item_closed in H.
  destruct H as (m & enc & dims & meas & set' & -> & Henc & Hdims & Hmeas
                 & Hset & -> & -> & _ & Hname).
  assert (set' = set) as ->.
  { unfold item_fids, item_fields in Hs. simpl in Hs. rewrite Henc in Hs.
    simpl in Hs. rewrite Hdims, Hmeas in Hs. simpl in Hs. congruence. }
  set (g := gw_fields E (filter (absent set) all_fields) n).
  assert (Hf : In field (filter (absent set) all_fields))
    by (apply filter_In; now split).
  destruct (gw_fields_draw (filter (absent set) all_fields) n field Hf)
    as (k & Hk & Hg). fold g in Hg.
  assert (Hd : is_dimension field = false).
  { unfold is_dimension. rewrite Ha. now apply text_eqb_neq. }
  rewrite Forall_forall in Hname. apply Hname, name_some in Hf.
  destruct (gw_field_entries field (field_name field) k)
    as (reference & Hr & H1 & H2 & H3 & H4).
  exists meas, (meas_of g), reference, (field_name field), k.
  split; [unfold channel; now rewrite Henc|].
  split; [unfold channel; rewrite dict_get_set_same; apply dict_get_set_same|].
  split.
  { rewrite <- Hr. unfold meas_of. apply in_map_iff.
    exists (field, gw_field E field (field_name field) k).
    split; [reflexivity|]. apply filter_In. split; [exact Hg|].
    cbn [fst]. now rewrite Hd. }
  now repeat split.
Qed.

(** *** Idempotence *)

Lemma field_set_cons (v : json) (rest : list json) :
  field_set (v :: rest)
  = (fid <- getitem v (T "fid") ;;
     if hashable fid
     then set <- field_set rest ;; Ok (fid :: set)
     else Raise TypeError)%py.
Proof. reflexivity. Qed.

Lemma field_set_map (fields : list json) (set : list json) :
  field_set fields = Ok set <->
  Forall (fun v => exists x, getitem v (T "fid") = Ok x /\ hashable x = true)
    fields
  /\ set = map fid_of fields.
Proof.
  revert set. induction fields as [|v rest IH]; intros set.
  - simpl. split; [intros [= <-]; now split|intros [_ ->]; reflexivity].
  - rewrite field_set_cons. split.
    + intros H. apply rbind_ok in H as (fid & Hf & H).
      destruct (hashable fid) eqn:Hh; [|discriminate].
      apply rbind_ok in H as (set' & Hs & H). injection H as <-.
      apply IH in Hs as [Hall ->]. split.
      * constructor; [now exists fid|exact Hall].
      * simpl map.
        replace (fid_of v) with fid by (unfold fid_of; now rewrite Hf).
        reflexivity.
    + intros [Hall ->]. inversion Hall as [|? ? (x & Hx & Hh) Hrest]; subst.
      rewrite Hx. unfold rbind at 1. rewrite Hh.
      assert (Hs : field_set rest = Ok (map fid_of rest)) by (apply IH; now split).
      rewrite Hs. unfold rbind. simpl map.
      replace (fid_of v) with x by (unfold fid_of; now rewrite Hx).
      reflexivity.
Qed.

Lemma gw_field_fid (field : field_dict) (name : text) (n : nat) (fid : text) :
  dict_get (T "fid") field = Some fid ->
  getitem (gw_field E field name n) (T "fid") = Ok (JStr fid).
Proof.
  intros H. unfold gw_field, getitem.
  rewrite !dict_get_set_other by discriminate.
  rewrite dict_get_map, H. reflexivity.
Qed.

Lemma in_field_set_app (fid : text) (a b : list json) :
  in_field_set fid (a ++ b) = in_field_set fid a || in_field_set fid b.
Proof. unfold in_field_set. apply existsb_app. Qed.

Lemma in_field_set_in (fid : text) (set : list json) :
  In (JStr fid) set -> in_field_set fid set = true.
Proof.
  intros H. unfold in_field_set. apply existsb_exists.
  exists (JStr fid). split; [exact H|]. simpl. apply text_eqb_refl.
Qed.

(** When no dataset field is absent the loop over them adds nothing and
    draws no random string. *)
Lemma new_fields_none (all_fields : list field_dict) (set : list json) :
  Forall (fun f => exists fid, dict_get (T "fid") f = Some fid
                               /\ in_field_set fid set = true) all_fields ->
  forall d m n, new_fields E all_fields set d m n = Ok (d, m, n).
Proof.
  induction 1 as [|f rest (fid & Hf & Hin) _ IH]; intros d m n;
    [reflexivity|].
  simpl. unfold field_item. rewrite Hf. simpl. rewrite Hin. apply IH.
Qed.

Lemma references_ok (all_fields : list field_dict) (set : list json) (n : nat)
    (keep : field_dict * json -> bool) :
  Forall (fun f => dict_get (T "fid") f <> None) all_fields ->
  Forall (fun v => exists x, getitem v (T "fid") = Ok x /\ hashable x = true)
    (map snd (filter keep (gw_fields E (filter (absent set) all_fields) n))).
Proof.
  intros Hfid. apply Forall_forall. intros v Hv.
  apply in_map_iff in Hv as (p & <- & Hp).
  apply filter_In in Hp as [Hp _].
  apply gw_fields_in in Hp as [Hin [k ->]].
  apply filter_In in Hin as [Hin _].
  rewrite Forall_forall in Hfid. specialize (Hfid _ Hin).
  destruct (dict_get (T "fid") (fst p)) as [fid|] eqn:Hf; [|now destruct Hfid].
  exists (JStr fid). split; [now apply gw_field_fid|reflexivity].
Qed.

(** After reconciliation no dataset field is absent from the chart item. *)
Lemma none_absent (all_fields : list field_dict) (set : list json) (n : nat)
    (dims meas : list json) :
  Forall (fun f => dict_get (T "fid") f <> None) all_fields ->
  set = map fid_of (dims ++ meas) ->
  let g := gw_fields E (filter (absent set) all_fields) n in
  Forall (fun f => exists fid,
              dict_get (T "fid") f = Some fid
              /\ in_field_set fid
                   (map fid_of ((dims ++ dims_of g) ++ (meas ++ meas_of g)))
                 = true)
    all_fields.
Proof.
  intros Hfid Hset g. apply Forall_forall. intros f Hin.
  rewrite Forall_forall in Hfid. pose proof (Hfid _ Hin) as Hf.
  destruct (dict_get (T "fid") f) as [fid|] eqn:Hfid'; [|now destruct Hf].
  exists fid. split; [reflexivity|].
  rewrite !map_app, !in_field_set_app.
  destruct (in_field_set fid set) eqn:Hs.
  - rewrite Hset, map_app, in_field_set_app in Hs.
    apply orb_true_iff in Hs as [Hs|Hs]; rewrite Hs;
      rewrite ?orb_true_r; reflexivity.
  - assert (Habs : In f (filter (absent set) all_fields)).
    { apply filter_In. split; [exact Hin|]. unfold absent.
      now rewrite Hfid', Hs. }
    destruct (gw_fields_complete (filter (absent set) all_fields) n f Habs)
      as [k Hk]. fold g in Hk.
    assert (Hfo : fid_of (gw_field E f (field_name f) k) = JStr fid).
    { unfold fid_of. now rewrite gw_field_fid with (fid := fid). }
    destruct (is_dimension f) eqn:Hd.
    + assert (Hm : in_field_set fid (map fid_of (dims_of g)) = true).
      { apply in_field_set_in. rewrite <- Hfo. apply in_map.
        unfold dims_of. apply in_map_iff. eexists.
        split; [|apply filter_In; split; [exact Hk|exact Hd]]. reflexivity. }
      rewrite Hm, ?orb_true_r. reflexivity.
    + assert (Hm : in_field_set fid (map fid_of (meas_of g)) = true).
      { apply in_field_set_in. rewrite <- Hfo. apply in_map.
        unfold meas_of. apply in_map_iff. eexists.
        split; [|apply filter_In; split; [exact Hk|simpl; now rewrite Hd]].
        reflexivity. }
      rewrite Hm, ?orb_true_r. reflexivity.
Qed.

(** Reconciling a reconciled chart item changes nothing. *)
Lemma fill_item_again (all_fields : list field_dict) (item item' : json)
    (n n' : nat) :
  fill_item E all_fields item n = Ok (item', n') ->
  forall k, fill_item E all_fields item' k = Ok (item', k).
Proof.
  intros H k. apply fill_item_closed in H.
  destruct H as (m & enc & dims & meas & set & -> & Henc & Hdims & Hmeas
                 & Hset & -> & _ & Hfid & _).
  set (g := gw_fields E (filter (absent set) all_fields) n).
  set (enc1 := dict_set (T "dimensions") (JArr (dims ++ dims_of g)) enc).
  set (enc2 := dict_set (T "measures") (JArr (meas ++ meas_of g)) enc1).
  assert (H1 : dict_get (T "encodings") (dict_set (T "encodings") (JObj enc2) m)
               = Some (JObj enc2)) by apply dict_get_set_same.
  assert (H2 : dict_get (T "dimensions") enc2 = Some (JArr (dims ++ dims_of g))).
  { unfold enc2, enc1. rewrite dict_get_set_other, dict_get_set_same;
      [reflexivity|].
    intros Heq. symmetry in Heq. now apply dimensions_not_measures in Heq. }
  assert (H3 : dict_get (T "measures") enc2 = Some (JArr (meas ++ meas_of g)))
    by apply dict_get_set_same.
  apply field_set_map in Hset as [Hall Hset].
  apply Forall_app in Hall as [Hd Hm].
  assert (Hset' : field_set ((dims ++ dims_of g) ++ (meas ++ meas_of g))
                  = Ok (map fid_of ((dims ++ dims_of g) ++ (meas ++ meas_of g)))).
  { apply field_set_map. split; [|reflexivity].
    repeat (apply Forall_app; split); try assumption;
      now apply references_ok. }
  unfold fill_item, item_fields.
  cbn [getitem]. rewrite H1. cbn [rbind getitem]. rewrite H2, H3.
  cbn [rbind iterate_sum]. rewrite Hset'. cbn [rbind].
  rewrite new_fields_none by (now apply none_absent).
  cbn [rbind extend set_item getitem]. rewrite !app_nil_r.
  rewrite (dict_set_get_id _ _ H2). rewrite H3.
  cbn [rbind extend]. rewrite app_nil_r.
  rewrite (dict_set_get_id _ _ H3). rewrite (dict_set_get_id _ _ H1).
  reflexivity.
Qed.

Lemma fill_items_again (all_fields : list field_dict) (items : list json) :
  forall n items' n',
    fill_items E all_fields items n = Ok (items', n') ->
    forall k, fill_items E all_fields items' k = Ok (items', k).
Proof.
  induction items as [|item rest IH]; intros n items' n' H k.
  - injection H as <- <-. reflexivity.
  - simpl in H.
    apply rbind_ok in H as ([item' n1] & Hi & H).
    apply rbind_ok in H as ([rest' n2] & Hr & H).
    injection H as <- <-. simpl.
    rewrite (fill_item_again _ _ _ Hi). simpl.
    rewrite (IH _ _ _ Hr). reflexivity.
Qed.

Lemma filled_again (all_fields : list field_dict) (obj obj' : json) (n n' : nat) :
  filled E all_fields obj n = Ok (obj', n') ->
  forall k, filled E all_fields obj' k = Ok (obj', k).
Proof.
  unfold filled. intros H k.
  apply rbind_ok in H as (items & Hi & H).
  apply rbind_ok in H as ([items' n1] & Hf & H).
  destruct obj; try discriminate; injection H as <- <-.
  - destruct s as [|c s]; [reflexivity|]. simpl in Hi. injection Hi as <-.
    simpl in Hf. discriminate.
  - simpl in Hi. injection Hi as <-. simpl iterate. simpl rbind at 1.
    rewrite (fill_items_again _ _ _ Hf). reflexivity.
  - destruct members as [|[key v] members]; [reflexivity|].
    simpl in Hi. injection Hi as <-. simpl in Hf. discriminate.
Qed.

End Reconciler.

(** A dataset field of type ["other"], and a chart that has no field. *)
Lemma other_types_go_to_measures_witness :
  let E := sample_env (T "online") (Raise URLError) in
  let other := [(T "fid", T "c"); (T "name", T "z");
                (T "analyticType", T "other")] in
  let item := JObj [(T "encodings",
                     JObj [(T "dimensions", JArr []); (T "measures", JArr [])])] in
  let reference := [(T "fid", JStr (T "c")); (T "name", JStr (T "z"));
                    (T "analyticType", JStr (T "other"));
                    (T "basename", JStr (T "z"));
                    (T "dragId", JStr (T "GW_r0"))] in
  fill_item E [other] item 0
  = Ok (JObj [(T "encodings",
               JObj [(T "dimensions", JArr []);
                     (T "measures", JArr [JObj reference])])], 1)
  /\ exists item' meas new_meas reference name k,
       fill_item E [other] item 0 = Ok (item', 1)
       /\ channel item (T "measures") = Some (JArr meas)
       /\ channel item' (T "measures") = Some (JArr (meas ++ new_meas))
       /\ In (JObj reference) new_meas
       /\ dict_get (T "name") other = Some name
       /\ 0 <= k < 1
       /\ dict_get (T "basename") reference = Some (JStr name)
       /\ dict_get (T "dragId") reference
          = Some (JStr (T "GW_" ++ rand_str E k)).
Proof.
  intros E other item reference. split; [vm_compute; reflexivity|].
  destruct (fill_item E [other] item 0) as [[item' n']|e] eqn:H;
    [|vm_compute in H; discriminate].
  assert (Hn : n' = 1) by (vm_compute in H; now injection H as _ <-).
  subst n'.
  destruct (@other_types_go_to_measures _ E [other] item item' 0 1 [] other
              (T "other") H)
    as (meas & new_meas & r & name & k & H1 & H2 & H3 & H4 & H5 & H6 & H7 & _).
  - reflexivity.
  - now left.
  - reflexivity.
  - reflexivity.
  - discriminate.
  - exists item', meas, new_meas, r, name, k. now repeat split.
Defined.

(** A chart that lists the dimension [a1], and a dataset that has [a1], a
    measure [b] and a dimension [c]. *)
Lemma reconciliation_additive_witness :
  let E := sample_env (T "online") (Raise URLError) in
  let config :=
    Q "[{'encodings': {'dimensions': [{'fid': 'a1', 'name': 'x'}], 'measures': [], 'rows': []}}]" in
  let all_fields :=
    [[(T "fid", T "a1"); (T "name", T "x"); (T "analyticType", T "dimension")];
     [(T "fid", T "b"); (T "name", T "y"); (T "analyticType", T "measure")];
     [(T "fid", T "c"); (T "name", T "z"); (T "analyticType", T "dimension")]] in
  exists out n' obj obj',
    fill_new_fields E config all_fields 0 = Ok (out, n')
    /\ json_loads config = Ok obj
    /\ out = json_dumps obj'
    /\ ((exists items items',
            obj = JArr items /\ obj' = JArr items'
            /\ Forall2 (extended E all_fields) items items')
        \/ ((forall items, obj <> JArr items) /\ obj' = obj)).
Proof.
  intros E config all_fields.
  destruct (fill_new_fields E config all_fields 0) as [[out n']|e] eqn:H;
    [|vm_compute in H; discriminate].
  destruct (@reconciliation_additive _ E config all_fields 0 out n' H)
    as (obj & obj' & H1 & H2 & H3).
  exists out, n', obj, obj'. now repeat split.
Defined.

(** ** The version migrator *)

Section Migrator.

Context {floats : PyFloat}.
Variable E : env.

Lemma get_ok (v : json) (k : text) (default x : json) :
  get v k default = Ok x ->
  exists m, v = JObj m
            /\ x = match dict_get k m with Some y => y | None => default end.
Proof.
  destruct v; try discriminate. simpl. exists members. split; [reflexivity|].
  destruct (dict_get k members); now injection H as <-.
Qed.

Lemma kdict_set_in {V} (k : json) (v : V) (d : list (json * V)) (k0 : json) (v0 : V) :
  In (k0, v0) (kdict_set k v d) ->
  (k0 = k /\ v0 = v) \/ In (k0, v0) d \/ (v0 = v /\ exists v1, In (k0, v1) d).
Proof.
  induction d as [|[k' v'] d IH]; simpl.
  - intros [[= <- <-]|[]]. now left.
  - destruct (key_eqb k k').
    + intros [[= <- <-]|H].
      * right. right. split; [reflexivity|]. exists v'. now left.
      * right. left. now right.
    + intros [[= <- <-]|H].
      * right. left. now left.
      * apply IH in H as [H|[H|[H1 [v1 H2]]]].
        -- now left.
        -- right. left. now right.
        -- right. right. split; [exact H1|]. exists v1. now right.
Qed.

(** [d[k] = v] changes a value, or puts a key that is equal to none of the
    keys of [d] at the end. *)
Lemma kdict_set_keys {V} (k : json) (v : V) (d : list (json * V)) :
  map fst (kdict_set k v d) = map fst d
  \/ (map fst (kdict_set k v d) = map fst d ++ [k]
      /\ forall k', In k' (map fst d) -> key_eqb k k' = false).
Proof.
  induction d as [|[k0 v0] d IH]; simpl.
  - right. split; [reflexivity|]. intros k' [].
  - destruct (key_eqb k k0) eqn:Hk; simpl; [now left|].
    destruct IH as [IH|[IH Hn]]; [left; now rewrite IH|].
    right. split; [now rewrite IH|].
    intros k' [<-|Hin]; [exact Hk|now apply Hn].
Qed.

(** A [str] is equal to itself only. *)
Lemma key_eqb_str (s : text) (k : json) :
  key_eqb (JStr s) k = true -> k = JStr s.
Proof.
  destruct k; simpl; try discriminate.
  intros H. apply text_eqb_eq in H. now subst.
Qed.

(** After [d[k] = v] with a [str] for [k], [k] is a key of [d], and the keys
    that were there are there still. *)
Lemma kdict_set_has {V} (s : text) (v : V) (d : list (json * V)) :
  In (JStr s) (map fst (kdict_set (JStr s) v d)).
Proof.
  induction d as [|[k0 v0] d IH]; [now left|].
  cbn [kdict_set]. destruct (key_eqb (JStr s) k0) eqn:Hk.
  - apply key_eqb_str in Hk. subst k0. now left.
  - right. exact IH.
Qed.

Lemma kdict_set_keeps {V} (k : json) (v : V) (d : list (json * V)) (k0 : json) :
  In k0 (map fst d) -> In k0 (map fst (kdict_set k v d)).
Proof.
  intros H. destruct (kdict_set_keys k v d) as [->|[-> _]]; [exact H|].
  apply in_or_app. now left.
Qed.

Lemma old_fid_fname_map_cons (field : json) (rest : list json)
    (acc : list (json * json)) :
  old_fid_fname_map (field :: rest) acc
  = (computed <- get field (T "computed") (JBool false) ;;
     if truthy computed then old_fid_fname_map rest acc
     else
       fid <- get field (T "fid") JNull ;;
       if negb (not_sentinel fid) then old_fid_fname_map rest acc
       else
         key <- getitem field (T "fid") ;;
         name <- getitem field (T "name") ;;
         if hashable key then old_fid_fname_map rest (kdict_set key name acc)
         else Raise TypeError)%py.
Proof. reflexivity. Qed.

(** The mapping that the comprehension builds is the dict of the entries of
    the fields. *)
Lemma old_fid_fname_map_entries (fields : list json) :
  forall acc mapping,
    old_fid_fname_map fields acc = Ok mapping ->
    mapping
    = fold_left (fun d e => kdict_set (fst e) (snd e) d)
        (flat_map renamed_entry fields) acc.
Proof.
  induction fields as [|field rest IH]; intros acc mapping H.
  - now injection H as <-.
  - rewrite old_fid_fname_map_cons in H. cbn [flat_map].
    rewrite fold_left_app. unfold renamed_entry at 2, skipped.
    apply rbind_ok in H as (computed & Hc & H). rewrite Hc.
    destruct (truthy computed) eqn:Ht; [now apply IH in H|].
    apply rbind_ok in H as (fid & Hfid & H). rewrite Hfid. cbn [orb].
    destruct (not_sentinel fid) eqn:Hs; cbn [negb] in *; [|now apply IH in H].
    apply rbind_ok in H as (key & Hk & H). rewrite Hk.
    apply rbind_ok in H as (name & Hn & H). rewrite Hn.
    destruct (hashable key); [|discriminate].
    now apply IH in H.
Qed.

(** An entry comes from a field that takes part in the renaming. *)
Lemma renamed_entry_in (field : json) (k v : json) :
  In (k, v) (renamed_entry field) ->
  renamable field
  /\ getitem field (T "fid") = Ok k /\ getitem field (T "name") = Ok v.
Proof.
  unfold renamed_entry, skipped.
  destruct (getitem field (T "fid")) as [fid|e] eqn:Hfid.
  2:{ destruct (get field (T "computed") (JBool false)) as [c|];
        [destruct (truthy c || _)|]; intros []. }
  apply getitem_ok in Hfid as (m & -> & Hm).
  cbn [get getitem]. rewrite Hm.
  destruct (dict_get (T "computed") m) as [c|] eqn:Hc.
  - destruct (truthy c) eqn:Ht; cbn [orb]; [intros []|].
    destruct (not_sentinel fid) eqn:Hs; cbn [negb]; [|intros []].
    destruct (dict_get (T "name") m) as [name|]; [|intros []].
    intros [[= <- <-]|[]]. split; [|now split].
    exists c, fid. cbn [get getitem]. rewrite Hc, Hm. now repeat split.
  - cbn [truthy orb].
    destruct (not_sentinel fid) eqn:Hs; cbn [negb]; [|intros []].
    destruct (dict_get (T "name") m) as [name|]; [|intros []].
    intros [[= <- <-]|[]]. split; [|now split].
    exists (JBool false), fid. cbn [get getitem]. rewrite Hc, Hm.
    now repeat split.
Qed.

(** A field that takes part in the renaming and has a name gives an
    entry. *)
Lemma renamed_entry_of (field : json) (k v : json) :
  renamable field ->
  getitem field (T "fid") = Ok k -> getitem field (T "name") = Ok v ->
  renamed_entry field = [(k, v)].
Proof.
  intros (c & fid & Hc & Ht & Hfid & Hs) Hk Hv.
  rewrite Hk in Hfid. injection Hfid as <-.
  unfold renamed_entry, skipped. rewrite Hc, Ht, Hk, Hv.
  apply getitem_ok in Hk as (m & -> & Hm). cbn [get]. rewrite Hm.
  now rewrite Hs.
Qed.

(** The keys of a dict come from the entries it was made of, and a [str]
    that is the key of an entry is a key of the dict. *)
Lemma entries_keys (es : list (json * json)) :
  forall acc k,
    In k (map fst (fold_left (fun d e => kdict_set (fst e) (snd e) d) es acc)) ->
    In k (map fst acc) \/ In k (map fst es).
Proof.
  induction es as [|[k1 v1] es IH]; intros acc k H; [now left|].
  cbn [fold_left fst snd] in H. apply IH in H as [H|H].
  - apply in_map_iff in H as ([k0 v0] & <- & H).
    apply kdict_set_in in H as [[-> _]|[H|[_ [v' H]]]].
    + right. now left.
    + left. apply in_map_iff. now exists (k0, v0).
    + left. apply in_map_iff. now exists (k0, v').
  - right. now right.
Qed.

Lemma entries_keys_str (es : list (json * json)) :
  forall acc s,
    In (JStr s) (map fst acc) \/ In (JStr s) (map fst es) ->
    In (JStr s)
      (map fst (fold_left (fun d e => kdict_set (fst e) (snd e) d) es acc)).
Proof.
  induction es as [|[k1 v1] es IH]; intros acc s H.
  - destruct H as [H|[]]. exact H.
  - cbn [fold_left fst snd]. apply IH.
    destruct H as [H|[H|H]].
    + left. now apply kdict_set_keeps.
    + left. cbn [fst] in H. subst k1. apply kdict_set_has.
    + now right.
Qed.

Lemma replace_all_substitute (pairs : list (json * text)) :
  forall config out,
    replace_all config pairs = Ok out ->
    exists ps, pairs = as_values ps /\ out = substitute config ps.
Proof.
  induction pairs as [|[old new] rest IH]; intros config out H.
  - injection H as <-. now exists [].
  - simpl in H. destruct old; try discriminate.
    apply IH in H as (ps & -> & ->). now exists ((s, new) :: ps).
Qed.

Lemma substitute_app (config : text) (a b : list (text * text)) :
  substitute config (a ++ b) = substitute (substitute config a) b.
Proof. unfold substitute. apply fold_left_app. Qed.

(** The loop over the chart items: every item contributes its pairs, and
    all the pairs, in order, are substituted in the whole text. *)
Lemma adapt_items_substitute (items : list json) :
  forall config out,
    adapt_items E items config = Ok out ->
    exists renames,
      Forall2 (item_pairs E) items renames
      /\ out = substitute config (concat renames).
Proof.
  induction items as [|item rest IH]; intros config out H.
  - injection H as <-. exists []. split; [constructor|reflexivity].
  - simpl in H.
    apply rbind_ok in H as (pairs & Hp & H).
    apply rbind_ok in H as (config' & Hr & H).
    apply replace_all_substitute in Hr as (ps & -> & ->).
    apply IH in H as (renames & Hall & ->).
    exists (ps :: renames). split.
    + constructor; [|exact Hall].
      unfold item_renames in Hp.
      apply rbind_ok in Hp as (fields & Hf & Hp).
      apply rbind_ok in Hp as (mapping & Hm & Hp).
      injection Hp as Hp. exists fields.
      split; [exact Hf|]. cbv zeta. unfold dict_of.
      apply old_fid_fname_map_entries in Hm. rewrite <- Hm. now symmetry.
    + simpl concat. now rewrite substitute_app.
Qed.

Lemma not_sentinel_text (old : text) :
  not_sentinel (JStr old) = true -> ~ In old sentinels.
Proof.
  unfold not_sentinel. rewrite negb_true_iff. intros H Hin.
  assert (Ht : existsb (fun s => key_eqb (JStr old) (JStr s)) sentinels = true).
  { apply existsb_exists. exists old. split; [exact Hin|].
    simpl. apply text_eqb_refl. }
  congruence.
Qed.

Lemma as_values_in (pairs : list (text * text)) (old new : text) :
  In (JStr old, new) (as_values pairs) <-> In (old, new) pairs.
Proof.
  unfold as_values. rewrite in_map_iff. split.
  - intros ([o n] & [= -> ->] & H). exact H.
  - intros H. now exists (old, new).
Qed.

(** The old ids of a chart item are fids of renamable fields of the item,
    and never a sentinel id. *)
Lemma item_pairs_old (item : json) (pairs : list (text * text))
    (old new : text) :
  item_pairs E item pairs ->
  In (old, new) pairs ->
  ~ In old sentinels
  /\ exists fields field,
       item_fields item = Ok fields /\ In field fields /\ renamable field
       /\ getitem field (T "fid") = Ok (JStr old).
Proof.
  intros (fields & Hf & Hc) Hin. cbv zeta in Hc.
  apply as_values_in in Hin. rewrite Hc in Hin.
  apply in_combine_l in Hin. unfold dict_of in Hin.
  apply entries_keys in Hin as [[]|Hin].
  apply in_map_iff in Hin as ([k v] & Hk & Hin). cbn [fst] in Hk. subst k.
  apply in_flat_map in Hin as (field & Hfield & Hin).
  apply renamed_entry_in in Hin as (Hren & Hfid & _).
  split.
  - destruct Hren as (c & fid & _ & _ & Hfid' & Hs).
    rewrite Hfid in Hfid'. injection Hfid' as <-.
    now apply not_sentinel_text.
  - now exists fields, field.
Qed.

Lemma combine_in_l {A B} (a : list A) (b : list B) (x : A) :
  length b = length a -> In x a -> exists y, In (x, y) (combine a b).
Proof.
  revert b. induction a as [|x0 a IH]; intros b Hlen Hin; [contradiction|].
  destruct b as [|y0 b]; [discriminate|].
  destruct Hin as [->|Hin].
  - exists y0. now left.
  - injection Hlen as Hlen. destruct (IH b Hlen Hin) as [y Hy].
    exists y. now right.
Qed.

(** Every renamable field of a chart item that has a [str] for its fid, and
    a name, has its fid among the old ids, as long as the sanitizer returns
    as many names as it was given. *)
Lemma item_pairs_all (item : json) (pairs : list (text * text))
    (fields : list json) (field : json) (old : text) (name : json) :
  (forall names, length (rename_columns E names) = length names) ->
  item_pairs E item pairs ->
  item_fields item = Ok fields ->
  In field fields ->
  renamable field ->
  getitem field (T "fid") = Ok (JStr old) ->
  getitem field (T "name") = Ok name ->
  exists new, In (old, new) pairs.
Proof.
  intros Hlen (fields' & Hf' & Hc) Hf Hin Hren Hfid Hname. cbv zeta in Hc.
  rewrite Hf in Hf'. injection Hf' as <-.
  assert (Hk : In (JStr old)
                 (map fst (dict_of (flat_map renamed_entry fields)))).
  { unfold dict_of. apply entries_keys_str. right.
    apply in_map_iff. exists (JStr old, name). split; [reflexivity|].
    apply in_flat_map. exists field. split; [exact Hin|].
    rewrite (renamed_entry_of Hren Hfid Hname). now left. }
  destruct (@combine_in_l _ _
              (map fst (dict_of (flat_map renamed_entry fields)))
              (rename_columns E (map snd (dict_of (flat_map renamed_entry fields))))
              (JStr old)) as [new Hnew]; [|exact Hk|].
  { rewrite Hlen, !length_map. reflexivity. }
  exists new. apply as_values_in. now rewrite Hc.
Qed.

(** C2, as the code has it. When migration runs, every chart item
    contributes pairs (old id, new id): the old ids are the keys of the
    mapping made of the fields of its dimensions and measures that are
    neither computed nor carry a sentinel id, and the new ids are what the
    sanitizer makes of the names of that mapping. So every old id is the fid
    of such a field, never a sentinel id, and the fid of every such field is
    an old id. Every old id is then replaced by its new id, by literal
    substitution, pair after pair, in the whole text of the configuration,
    all chart items included. *)
Theorem migration_substitutes (config out : text) :
  _config_adapter E (JStr config) = Ok out ->
  exists config_obj items renames,
    json_loads config = Ok config_obj
    /\ iterate config_obj = Ok items
    /\ Forall2 (item_pairs E) items renames
    /\ out = substitute config (concat renames)
    /\ (forall item pairs old new,
           item_pairs E item pairs -> In (old, new) pairs ->
           ~ In old sentinels
           /\ exists fields field,
                item_fields item = Ok fields /\ In field fields
                /\ renamable field
                /\ getitem field (T "fid") = Ok (JStr old))
    /\ ((forall names, length (rename_columns E names) = length names) ->
        forall item pairs fields field old name,
          item_pairs E item pairs ->
          item_fields item = Ok fields -> In field fields ->
          renamable field ->
          getitem field (T "fid") = Ok (JStr old) ->
          getitem field (T "name") = Ok name ->
          exists new, In (old, new) pairs).
Proof.
  unfold _config_adapter, loads. intros H.
  apply rbind_ok in H as (config_obj & Hl & H).
  apply rbind_ok in H as (items & Hi & H).
  apply adapt_items_substitute in H as (renames & Hall & ->).
  exists config_obj, items, renames.
  split; [exact Hl|]. split; [exact Hi|]. split; [exact Hall|].
  split; [reflexivity|]. split.
  - intros item pairs old new. apply item_pairs_old.
  - intros Hlen item pairs fields field old name.
    now apply item_pairs_all.
Qed.

End Migrator.

(** A chart with a plain dimension, a sentinel measure and a computed
    measure: only the fid of the dimension is renamed. *)
Lemma migration_substitutes_witness :
  let E := sample_env (T "online") (Raise URLError) in
  let config :=
    Q "[{'encodings':{'dimensions':[{'fid':'a1','name':'x'}],'measures':[{'fid':'gw_mea_val_fid','name':'v'},{'fid':'c2','name':'y','computed':true}]}}]" in
  _config_adapter E (JStr config)
  = Ok (Q "[{'encodings':{'dimensions':[{'fid':'GW_x','name':'x'}],'measures':[{'fid':'gw_mea_val_fid','name':'v'},{'fid':'c2','name':'y','computed':true}]}}]")
  /\ exists out config_obj items renames,
       json_loads config = Ok config_obj
       /\ iterate config_obj = Ok items
       /\ Forall2 (item_pairs E) items renames
       /\ out = substitute config (concat renames)
       /\ renames = [[(T "a1", T "GW_x")]].
Proof.
  intros E config. split; [vm_compute; reflexivity|].
  destruct (_config_adapter E (JStr config)) as [out|e] eqn:H;
    [|vm_compute in H; discriminate].
  destruct (@migration_substitutes _ E config out H)
    as (config_obj & items & renames & H1 & H2 & H3 & H4 & _).
  exists out, config_obj, items, renames.
  split; [exact H1|]. split; [exact H2|]. split; [exact H3|].
  split; [exact H4|].
  vm_compute in H1. injection H1 as <-. vm_compute in H2. injection H2 as <-.
  inversion H3 as [|item pairs rest rest' (fields & Hf & Hp) Hrest]; subst.
  inversion Hrest; subst. f_equal.
  vm_compute in Hf. injection Hf as <-. vm_compute in Hp.
  destruct pairs as [|[old new] [|p pairs]]; try discriminate.
  now injection Hp as -> ->.
Defined.

(** C2 as stated fails. The second chart has no field to rename, its only
    field being computed, and yet its text is rewritten: the substitutions
    of the first chart run over the whole configuration. *)
Lemma migration_substitutes_counterexample :
  let E := sample_env (T "online") (Raise URLError) in
  let config :=
    Q "[{'encodings':{'dimensions':[{'fid':'a1','name':'x'}],'measures':[]}},{'encodings':{'dimensions':[{'fid':'a1','name':'x','computed':true}],'measures':[]}}]" in
  exists chart1 chart2 out chart1' chart2',
    json_loads config = Ok (JArr [chart1; chart2])
    /\ item_renames E chart2 = Ok []
    /\ _config_adapter E (JStr config) = Ok out
    /\ json_loads out = Ok (JArr [chart1'; chart2'])
    /\ chart2' <> chart2.
Proof.
  intros E config. do 5 eexists.
  split; [vm_compute; reflexivity|].
  split; [vm_compute; reflexivity|].
  split; [vm_compute; reflexivity|].
  split; [vm_compute; reflexivity|].
  discriminate.
Qed.

(** ** The sources, one by one *)

Section Sources.

Context {floats : PyFloat}.
Variable E : env.

Lemma startswith_app (p s : text) : startswith (p ++ s) p = true.
Proof.
  induction p as [|c p IH]; simpl; [now destruct s|].
  now rewrite N.eqb_refl, IH.
Qed.

(** X1. Outside offline mode, a spec [ksf://rest] is resolved by one call of
    the cloud reader on [rest], the text after the prefix: what the reader
    returns is tagged [json_ksf], what it raises is raised, and the file
    system is left alone. No text with this prefix is taken for JSON. *)
Theorem ksf_resolution (rest : text) (w : world) :
  offline E = false ->
  _get_spec_json_from_diff_source E (T "ksf://" ++ rest) w
  = (match read_config_from_cloud E rest with
     | Ok r => Ok (JStr r, T "json_ksf")
     | Raise e => Raise e
     end,
     {| files := files w; trace := trace w ++ [CloudRead rest] |}).
Proof.
  intros Hoff.
  assert (Hk : startswith (T "ksf://" ++ rest) (T "ksf://") = true)
    by apply startswith_app.
  pose proof (ksf_not_json _ Hk) as Hj.
  change (T "ksf://" ++ rest) with (ch "k" :: T "sf://" ++ rest) in *.
  unfold _get_spec_json_from_diff_source, bind, lift.
  rewrite Hj, Hk, Hoff.
  change (skipn 6 (ch "k" :: T "sf://" ++ rest)) with rest.
  unfold cloud_read, bind, emit, lift, ret.
  destruct (read_config_from_cloud E rest); reflexivity.
Qed.

(** X2. Outside offline mode, a spec that starts with [http:] or [https:]
    is resolved by opening the spec itself as a URL, once, with a timeout of
    15 seconds: the body is tagged [json_http], what the request raises is
    raised, and the file system is left alone. *)
Theorem http_resolution (spec : text) (w : world) :
  startswith spec (T "http:") || startswith spec (T "https:") = true ->
  offline E = false ->
  _get_spec_json_from_diff_source E spec w
  = (match urlopen E spec 15 with
     | Ok r => Ok (JStr r, T "json_http")
     | Raise e => Raise e
     end,
     {| files := files w; trace := trace w ++ [UrlOpen spec 15] |}).
Proof.
  intros Hh Hoff.
  pose proof (http_not_json _ Hh) as Hj.
  destruct spec as [|c r]; [discriminate|].
  assert (c = ch "h") as ->
    by (apply orb_true_iff in Hh as [H|H]; now apply startswith_head in H).
  unfold _get_spec_json_from_diff_source, bind, lift.
  rewrite Hj, Hh, Hoff.
  change (startswith (ch "h" :: r) (T "ksf://")) with false. cbv iota.
  unfold _get_spec_from_url, net_get, bind, emit, lift, ret.
  destruct (urlopen E (ch "h" :: r) 15); reflexivity.
Qed.

(** What [_get_spec_from_server] makes of the answer to its request. *)
Lemma server_outcome (config_id : text) (w : world) :
  _get_spec_from_server E config_id w
  = (match urlopen E (config_url config_id) 30 with
     | Ok body =>
         (json_data <- json_loads body ;;
          code <- getitem json_data (T "code") ;;
          if not_zero code then Raise InvalidConfigIdError
          else data <- getitem json_data (T "data") ;;
               getitem data (T "config_json"))%py
     | Raise e => Raise e
     end,
     {| files := files w; trace := trace w ++ [UrlOpen (config_url config_id) 30] |}).
Proof.
  unfold _get_spec_from_server, net_get, bind, emit, lift.
  destruct (urlopen E (config_url config_id) 30); reflexivity.
Qed.

Lemma not_zero_intval (code : json) :
  not_zero code = false <-> intval code = Some 0%Z.
Proof.
  unfold not_zero. destruct (intval code) as [z|].
  - rewrite negb_false_iff, Z.eqb_eq. split; congruence.
  - split; discriminate.
Qed.

(** X3. [_get_spec_from_server] returns a value [x] exactly when the body of
    the answer is a JSON object whose ["code"] is equal to 0 (as an [int], a
    [bool] or a [float]) and whose ["data"] is an object with [x] under
    ["config_json"]; it has then made one request, with a timeout of 30
    seconds, to the address of the configuration service followed by the
    identifier. *)
Theorem server_config_returned (config_id : text) (w w' : world) (x : json) :
  _get_spec_from_server E config_id w = (Ok x, w') <->
  w' = {| files := files w;
          trace := trace w ++ [UrlOpen (config_url config_id) 30] |}
  /\ exists body m code data,
       urlopen E (config_url config_id) 30 = Ok body
       /\ json_loads body = Ok (JObj m)
       /\ dict_get (T "code") m = Some code
       /\ intval code = Some 0%Z
       /\ dict_get (T "data") m = Some (JObj data)
       /\ dict_get (T "config_json") data = Some x.
Proof.
  rewrite server_outcome. split.
  - intros H. injection H as H <-. split; [reflexivity|].
    destruct (urlopen E (config_url config_id) 30) as [body|e]; [|discriminate].
    apply rbind_ok in H as (json_data & Hl & H).
    apply rbind_ok in H as (code & Hc & H).
    apply getitem_ok in Hc as (m & -> & Hc).
    destruct (not_zero code) eqn:Hz; [discriminate|].
    apply rbind_ok in H as (data & Hd & H).
    apply getitem_ok in Hd as (m' & [= <-] & Hd).
    apply getitem_ok in H as (d & -> & Hx).
    exists body, m, code, d. repeat split; try assumption.
    now apply not_zero_intval.
  - intros [-> (body & m & code & data & Hu & Hl & Hc & Hz & Hd & Hx)].
    rewrite Hu, Hl. cbn [rbind getitem]. rewrite Hc. cbn [rbind].
    apply not_zero_intval in Hz. rewrite Hz. rewrite Hd. cbn [rbind getitem].
    now rewrite Hx.
Qed.

Lemma ksf_not_http (spec : text) :
  startswith spec (T "ksf://") = true ->
  startswith spec (T "http:") || startswith spec (T "https:") = false.
Proof.
  intros H. destruct spec as [|c r]; [discriminate|].
  apply startswith_head in H. subst c. reflexivity.
Qed.

(** An identifier is sent to the configuration service. *)
Lemma config_id_resolution (spec : text) (w : world) :
  _is_json spec = Ok false -> _is_config_id spec = Ok true ->
  offline E = false ->
  _get_spec_json_from_diff_source E spec w
  = (match fst (_get_spec_from_server E spec w) with
     | Ok r => Ok (r, T "json_server")
     | Raise e => Raise e
     end,
     {| files := files w; trace := trace w ++ [UrlOpen (config_url spec) 30] |}).
Proof.
  intros Hj Hi Hoff.
  assert (Hk : startswith spec (T "ksf://") = false).
  { destruct (startswith spec (T "ksf://")) eqn:H; [|reflexivity].
    apply ksf_no_config_id in H. congruence. }
  assert (Hh : startswith spec (T "http:") || startswith spec (T "https:") = false).
  { destruct (startswith spec (T "http:") || startswith spec (T "https:")) eqn:H;
      [|reflexivity].
    apply http_no_config_id in H. congruence. }
  destruct spec as [|c r]; [discriminate|].
  unfold _get_spec_json_from_diff_source at 1. unfold bind at 1, lift at 1.
  rewrite Hj, Hk, Hh. unfold bind at 1, lift at 1. rewrite Hi, Hoff.
  unfold bind, ret. rewrite server_outcome. simpl fst.
  match goal with |- context [match ?u with Ok _ => _ | Raise _ => _ end] =>
    destruct u end; reflexivity.
Qed.

(** X4. An identifier that the configuration service rejects: when the
    answer is an object whose ["code"] is not equal to 0, [get_spec_json]
    raises [InvalidConfigIdError], whatever else the answer holds, after its
    one request and without touching the file system. *)
Theorem rejected_config_id (spec : text) (w : world) (body : text)
    (m : list (text * json)) (code : json) :
  _is_json spec = Ok false -> _is_config_id spec = Ok true ->
  offline E = false ->
  urlopen E (config_url spec) 30 = Ok body ->
  json_loads body = Ok (JObj m) ->
  dict_get (T "code") m = Some code ->
  intval code <> Some 0%Z ->
  get_spec_json E spec w
  = (Raise InvalidConfigIdError,
     {| files := files w; trace := trace w ++ [UrlOpen (config_url spec) 30] |}).
Proof.
  intros Hj Hi Hoff Hu Hl Hc Hz.
  apply get_spec_json_raise. rewrite config_id_resolution by assumption.
  rewrite server_outcome, Hu, Hl. simpl fst. cbn [rbind getitem]. rewrite Hc.
  cbn [rbind].
  destruct (not_zero code) eqn:Hn; [reflexivity|].
  apply not_zero_intval in Hn. contradiction.
Qed.

(** X5. An identifier that the configuration service accepts: the value [x]
    under ["config_json"] is handed on as the resolved spec, tagged
    [json_server]. It need not be a [str]: when it is false ([null],
    [false], 0, an empty string, list or object) the document is the empty
    one, and when it is anything else that is not a [str], [get_spec_json]
    raises [TypeError]. *)
Theorem accepted_config_id (spec : text) (w : world) (body : text)
    (m data : list (text * json)) (code x : json) :
  _is_json spec = Ok false -> _is_config_id spec = Ok true ->
  offline E = false ->
  urlopen E (config_url spec) 30 = Ok body ->
  json_loads body = Ok (JObj m) ->
  dict_get (T "code") m = Some code ->
  intval code = Some 0%Z ->
  dict_get (T "data") m = Some (JObj data) ->
  dict_get (T "config_json") data = Some x ->
  get_spec_json E spec w
  = (match document E x with
     | Ok doc => Ok (doc, T "json_server")
     | Raise e => Raise e
     end,
     {| files := files w; trace := trace w ++ [UrlOpen (config_url spec) 30] |})
  /\ (truthy x = false -> document E x = Ok empty_document)
  /\ (truthy x = true -> (forall s, x <> JStr s) ->
      document E x = Raise TypeError).
Proof.
  intros Hj Hi Hoff Hu Hl Hc Hz Hd Hx. split; [|split].
  - apply get_spec_json_ok. rewrite config_id_resolution by assumption.
    rewrite server_outcome, Hu, Hl. simpl fst. cbn [rbind getitem]. rewrite Hc.
    cbn [rbind]. apply not_zero_intval in Hz. rewrite Hz, Hd.
    cbn [rbind getitem]. now rewrite Hx.
  - intros Ht. unfold document. now rewrite Ht.
  - intros Ht Hs. unfold document. rewrite Ht. simpl negb. cbv iota.
    destruct x; try reflexivity. now destruct (Hs s).
Qed.

(** The world after the classifier: as it was, or with one request made
    (never in offline mode), or with one new, empty file at the path. *)
Lemma resolver_world (spec : text) (w w' : world) (r : result (json * text)) :
  _get_spec_json_from_diff_source E spec w = (r, w') ->
  w' = w
  \/ (offline E = false
      /\ exists ev,
           In ev [CloudRead (skipn 6 spec); UrlOpen spec 15;
                  UrlOpen (config_url spec) 30]
           /\ w' = {| files := files w; trace := trace w ++ [ev] |})
  \/ (dict_get spec (files w) = None
      /\ w' = {| files := dict_set spec (File []) (files w);
                 trace := trace w ++ [FileCreate spec] |}).
Proof.
  intros H. destruct spec as [|c s].
  { injection H as _ <-. now left. }
  unfold _get_spec_json_from_diff_source, bind, lift in H.
  rewrite _is_json_loads in H.
  destruct (json_loads (c :: s)) as [v|e].
  { injection H as _ <-. now left. }
  destruct (startswith (c :: s) (T "ksf://")).
  { destruct (offline E) eqn:Hoff; [injection H as _ <-; now left|].
    right. left. split; [reflexivity|]. exists (CloudRead (skipn 6 (c :: s))).
    split; [now left|].
    unfold cloud_read, bind, emit, lift, ret in H.
    destruct (read_config_from_cloud E (skipn 6 (c :: s)));
      now injection H as _ <-. }
  destruct (startswith (c :: s) (T "http:") || startswith (c :: s) (T "https:")).
  { destruct (offline E) eqn:Hoff; [injection H as _ <-; now left|].
    right. left. split; [reflexivity|]. exists (UrlOpen (c :: s) 15).
    split; [right; now left|].
    unfold _get_spec_from_url, net_get, bind, emit, lift, ret in H.
    destruct (urlopen E (c :: s) 15); now injection H as _ <-. }
  rewrite _is_config_id_ok in H.
  destruct (Nat.eqb (length (c :: s)) 32 && int16_ok (c :: s)).
  { destruct (offline E) eqn:Hoff; [injection H as _ <-; now left|].
    right. left. split; [reflexivity|]. exists (UrlOpen (config_url (c :: s)) 30).
    split; [right; right; now left|].
    unfold ret in H. rewrite server_outcome in H.
    match type of H with context [match ?u with Ok _ => _ | Raise _ => _ end] =>
      destruct u end; now injection H as _ <-. }
  destruct (Nat.ltb 200 (length (basename (c :: s)))).
  { injection H as _ <-. now left. }
  unfold exists_, _get_spec_from_local, read_file, write_empty, ret in H.
  destruct (path_error (c :: s)) as [pe|] eqn:Hp.
  { injection H as _ <-. now left. }
  destruct (dict_get (c :: s) (files w)) as [[content| |]|] eqn:Hf;
    cbv beta iota in H; rewrite ?Hp, ?Hf in H.
  - injection H as _ <-. now left.
  - injection H as _ <-. now left.
  - injection H as _ <-. now left.
  - destruct (can_create E (c :: s)).
    + injection H as _ <-. right. right. now split.
    + injection H as _ <-. now left.
Qed.

(** What [get_spec_json] does after the classifier changes nothing outside. *)
Lemma get_spec_json_world (spec : text) (w w' : world)
    (r : result (json * text)) :
  get_spec_json E spec w = (r, w') ->
  exists r0, _get_spec_json_from_diff_source E spec w = (r0, w').
Proof.
  unfold get_spec_json, bind, lift, ret.
  destruct (_get_spec_json_from_diff_source E spec w) as [[[v tag]|e] w1].
  - destruct (document E v); intros [= _ <-]; now eexists.
  - intros [= _ <-]. now eexists.
Qed.

(** X6. Whatever the spec, and whether it returns or raises, [get_spec_json]
    never removes or rewrites a file that exists: every path keeps what it
    held, and the only file that can be new is an empty one at the path
    [spec], where there was none. *)
Theorem existing_files_kept (spec : text) (w w' : world)
    (r : result (json * text)) :
  get_spec_json E spec w = (r, w') ->
  (forall path node,
      dict_get path (files w) = Some node -> dict_get path (files w') = Some node)
  /\ (forall path node,
         dict_get path (files w') = Some node ->
         dict_get path (files w) = Some node
         \/ (path = spec /\ node = File [] /\ dict_get spec (files w) = None)).
Proof.
  intros H. apply get_spec_json_world in H as [r0 H].
  apply resolver_world in H as [->|[(_ & ev & _ & ->)|[Hn ->]]]; simpl files.
  1-2: split; intros path node Hp; [exact Hp|now left].
  split; intros path node Hp.
  - rewrite dict_get_set_other; [exact Hp|]. intros ->. congruence.
  - destruct (text_eqb path spec) eqn:He.
    + apply text_eqb_eq in He. subst path.
      rewrite dict_get_set_same in Hp. injection Hp as <-. right. now repeat split.
    + apply text_eqb_neq in He. rewrite dict_get_set_other in Hp by exact He.
      now left.
Qed.

(** X7. Whatever the spec, and whether it returns or raises, a call of
    [get_spec_json] does at most one thing to the outside: a read of the
    cloud service on the text after the first six characters, a request for
    the spec as a URL (timeout 15), a request to the configuration service
    (timeout 30), or the creation of a file at the path [spec]. In offline
    mode it is never one of the three that use the network. *)
Theorem one_event_per_call (spec : text) (w w' : world)
    (r : result (json * text)) :
  get_spec_json E spec w = (r, w') ->
  exists evs,
    trace w' = trace w ++ evs
    /\ length evs <= 1
    /\ Forall (fun ev => In ev [CloudRead (skipn 6 spec); UrlOpen spec 15;
                                UrlOpen (config_url spec) 30; FileCreate spec]) evs
    /\ (offline E = true -> Forall (fun ev => is_network ev = false) evs).
Proof.
  intros H. apply get_spec_json_world in H as [r0 H].
  apply resolver_world in H as [->|[(Hoff & ev & Hev & ->)|[Hn ->]]]; simpl trace.
  - exists []. rewrite app_nil_r. repeat split; auto.
  - exists [ev]. repeat split; auto.
    + constructor; [|constructor]. simpl in *. tauto.
    + intros Ht. congruence.
  - exists [FileCreate spec]. repeat split; auto.
    constructor; [|constructor]. simpl. tauto.
Qed.

Ltac wrong_tag :=
  split; [let H := fresh in intros H; vm_compute in H; discriminate H
         |let H := fresh in intros H; exfalso; revert H].

Ltac right_tag := split; [intros _|intros _; reflexivity].

(** X8. When the classifier returns, its tag tells which branch was taken:
    [empty_string] exactly for the empty spec, [json_string] exactly for a
    non-empty spec that is JSON, [json_ksf] exactly for the prefix [ksf://],
    [json_http] exactly for the prefixes [http:] and [https:], [json_server]
    exactly for a configuration identifier that is not JSON, and [json_file]
    exactly for what is left, a local path. *)
Theorem source_tag_identifies (spec : text) (w w' : world) (v : json)
    (tag : text) :
  _get_spec_json_from_diff_source E spec w = (Ok (v, tag), w') ->
  (tag = T "empty_string" <-> spec = [])
  /\ (tag = T "json_string" <-> spec <> [] /\ _is_json spec = Ok true)
  /\ (tag = T "json_ksf" <-> startswith spec (T "ksf://") = true)
  /\ (tag = T "json_http"
      <-> startswith spec (T "http:") || startswith spec (T "https:") = true)
  /\ (tag = T "json_server"
      <-> _is_json spec = Ok false /\ _is_config_id spec = Ok true)
  /\ (tag = T "json_file" <-> local_kind spec).
Proof.
  intros H. apply classifier_cases in H.
  pose proof (@ksf_not_json _ spec) as K1.
  pose proof (ksf_no_config_id spec) as K2.
  pose proof (ksf_not_http spec) as K3.
  pose proof (@http_not_json _ spec) as H1.
  pose proof (http_no_config_id spec) as H2.
  assert (N1 : spec = [] ->
               startswith spec (T "ksf://") = false
               /\ startswith spec (T "http:") || startswith spec (T "https:") = false
               /\ _is_config_id spec = Ok false)
    by (intros ->; repeat split).
  unfold local_kind.
  destruct H as [(Hs & -> & _)|[(Hne & Hj & -> & _)|[(Hk & ->)|[(Hh & ->)|
                 [(Hj & Hi & _ & ->)|((Hne & Hj & Hk & Hh & Hi) & -> & _)]]]]].
  - destruct (N1 Hs) as (N2 & N3 & N4).
    split; [right_tag; exact Hs|].
    split; [wrong_tag; tauto|].
    split; [wrong_tag; congruence|].
    split; [wrong_tag; congruence|].
    split; [wrong_tag; intros [_ Hc]; congruence|].
    wrong_tag; tauto.
  - split; [wrong_tag; exact Hne|].
    split; [right_tag; now split|].
    split; [wrong_tag; intros Hc; apply K1 in Hc; congruence|].
    split; [wrong_tag; intros Hc; apply H1 in Hc; congruence|].
    split; [wrong_tag; intros [Hc _]; congruence|].
    wrong_tag; intros (_ & Hc & _); congruence.
  - specialize (K1 Hk). specialize (K2 Hk). specialize (K3 Hk).
    split; [wrong_tag; intros Hc; apply N1 in Hc as (Hc & _); congruence|].
    split; [wrong_tag; intros [_ Hc]; congruence|].
    split; [right_tag; exact Hk|].
    split; [wrong_tag; congruence|].
    split; [wrong_tag; intros [_ Hc]; congruence|].
    wrong_tag; intros (_ & _ & Hc & _); congruence.
  - specialize (H1 Hh). specialize (H2 Hh).
    split; [wrong_tag; intros Hc; apply N1 in Hc as (_ & Hc & _); congruence|].
    split; [wrong_tag; intros [_ Hc]; congruence|].
    split; [wrong_tag; intros Hc; apply K3 in Hc; congruence|].
    split; [right_tag; exact Hh|].
    split; [wrong_tag; intros [_ Hc]; congruence|].
    wrong_tag; intros (_ & _ & _ & Hc & _); congruence.
  - split; [wrong_tag; intros Hc; apply N1 in Hc as (_ & _ & Hc); congruence|].
    split; [wrong_tag; intros [_ Hc]; congruence|].
    split; [wrong_tag; intros Hc; apply K2 in Hc; congruence|].
    split; [wrong_tag; intros Hc; apply H2 in Hc; congruence|].
    split; [right_tag; now split|].
    wrong_tag; intros (_ & _ & _ & _ & Hc); congruence.
  - split; [wrong_tag; exact Hne|].
    split; [wrong_tag; intros [_ Hc]; congruence|].
    split; [wrong_tag; congruence|].
    split; [wrong_tag; congruence|].
    split; [wrong_tag; intros [_ Hc]; congruence|].
    right_tag. now repeat split.
Qed.

End Sources.

(** The cloud reader is asked for [abc]. *)
Lemma ksf_resolution_witness :
  _get_spec_json_from_diff_source (sample_env (T "online") (Ok (T "[]")))
    (T "ksf://abc") empty_world
  = (Ok (JStr (T "[]"), T "json_ksf"),
     {| files := []; trace := [CloudRead (T "abc")] |}).
Proof.
  apply (@ksf_resolution _ (sample_env (T "online") (Ok (T "[]"))) (T "abc")
           empty_world).
  reflexivity.
Defined.

(** A request that fails: the error is raised, after the request. *)
Lemma http_resolution_witness :
  _get_spec_json_from_diff_source (sample_env (T "online") (Raise URLError))
    (T "https://x") empty_world
  = (Raise URLError, {| files := []; trace := [UrlOpen (T "https://x") 15] |}).
Proof.
  apply (@http_resolution _ (sample_env (T "online") (Raise URLError))
           (T "https://x") empty_world); reflexivity.
Defined.

(** The service answers with code 1, and with a config all the same. *)
Lemma rejected_config_id_witness :
  let s := T "0123456789abcdef0123456789abcdef" in
  get_spec_json
    (sample_env (T "online")
       (Ok (Q "{'code': 1, 'data': {'config_json': '[]'}}")))
    s empty_world
  = (Raise InvalidConfigIdError,
     {| files := []; trace := [UrlOpen (config_url s) 30] |}).
Proof.
  intros s.
  apply (@rejected_config_id _
           (sample_env (T "online")
              (Ok (Q "{'code': 1, 'data': {'config_json': '[]'}}")))
           s empty_world
           (Q "{'code': 1, 'data': {'config_json': '[]'}}")
           [(T "code", JInt 1);
            (T "data", JObj [(T "config_json", JStr (T "[]"))])]
           (JInt 1)).
  - vm_compute. reflexivity.
  - vm_compute. reflexivity.
  - reflexivity.
  - reflexivity.
  - vm_compute. reflexivity.
  - reflexivity.
  - discriminate.
Defined.

(** The service answers with code 0 and no config: the empty document. *)
Lemma accepted_config_id_witness :
  let s := T "0123456789abcdef0123456789abcdef" in
  get_spec_json
    (sample_env (T "online")
       (Ok (Q "{'code': 0, 'data': {'config_json': null}}")))
    s empty_world
  = (Ok (empty_document, T "json_server"),
     {| files := []; trace := [UrlOpen (config_url s) 30] |}).
Proof.
  intros s.
  destruct (@accepted_config_id _
              (sample_env (T "online")
                 (Ok (Q "{'code': 0, 'data': {'config_json': null}}")))
              s empty_world
              (Q "{'code': 0, 'data': {'config_json': null}}")
              [(T "code", JInt 0); (T "data", JObj [(T "config_json", JNull)])]
              [(T "config_json", JNull)] (JInt 0) JNull) as (H1 & _ & _).
  - vm_compute. reflexivity.
  - vm_compute. reflexivity.
  - reflexivity.
  - reflexivity.
  - vm_compute. reflexivity.
  - reflexivity.
  - reflexivity.
  - reflexivity.
  - reflexivity.
  - exact H1.
Defined.

(** A world with one file, and a spec that names another path. *)
Lemma existing_files_kept_witness :
  let w := {| files := [(T "a.json", File (T "[]"))]; trace := [] |} in
  let out := get_spec_json (sample_env (T "online") (Raise URLError))
               (T "b.json") w in
  dict_get (T "a.json") (files (snd out)) = Some (File (T "[]"))
  /\ dict_get (T "b.json") (files (snd out)) = Some (File []).
Proof.
  intros w out.
  destruct (@existing_files_kept _ (sample_env (T "online") (Raise URLError))
              (T "b.json") w (snd out) (fst out)) as [H _].
  - vm_compute. reflexivity.
  - split; [apply H; reflexivity|vm_compute; reflexivity].
Defined.

(** Offline, a path that does not exist: one event, the creation of the
    file. *)
Lemma one_event_per_call_witness :
  let out := get_spec_json (sample_env (T "offline") (Raise URLError))
               (T "b.json") empty_world in
  exists evs,
    trace (snd out) = trace empty_world ++ evs
    /\ length evs <= 1
    /\ Forall (fun ev => In ev [CloudRead (skipn 6 (T "b.json"));
                                UrlOpen (T "b.json") 15;
                                UrlOpen (config_url (T "b.json")) 30;
                                FileCreate (T "b.json")]) evs
    /\ Forall (fun ev => is_network ev = false) evs.
Proof.
  intros out.
  destruct (@one_event_per_call _ (sample_env (T "offline") (Raise URLError))
              (T "b.json") empty_world (snd out) (fst out))
    as (evs & H1 & H2 & H3 & H4).
  - vm_compute. reflexivity.
  - exists evs. split; [exact H1|]. split; [exact H2|]. split; [exact H3|].
    apply H4. reflexivity.
Defined.

(** A list of charts given as text. *)
Lemma source_tag_identifies_witness :
  (T "json_string" = T "empty_string" <-> T "[]" = [])
  /\ (T "json_string" = T "json_string"
      <-> T "[]" <> [] /\ _is_json (T "[]") = Ok true).
Proof.
  destruct (@source_tag_identifies _ (sample_env (T "online") (Raise URLError))
              (T "[]") empty_world empty_world (JStr (T "[]")) (T "json_string"))
    as (H1 & H2 & _).
  - vm_compute. reflexivity.
  - split; [exact H1|exact H2].
Defined.

(** ** What makes the document fail *)

Section Failures.

Context {floats : PyFloat}.
Variable E : env.

(** [document] on a text that is not empty. *)
Lemma document_text (spec : text) :
  spec <> [] ->
  document E (JStr spec)
  = (parsed <- match json_loads spec with
               | Raise JSONDecodeError => Raise ValueError
               | r => r
               end ;;
     let spec_obj :=
       match parsed with
       | JArr _ => JObj [(T "chart_map", JObj []); (T "config", JStr spec)]
       | _ => parsed
       end in
     migrate <- version_gate spec_obj ;;
     if migrate : bool then
       config <- getitem spec_obj (T "config") ;;
       config' <- _config_adapter E config ;;
       Ok (set_item spec_obj (T "config") (JStr config'))
     else Ok spec_obj)%py.
Proof. destruct spec as [|c s]; [contradiction|reflexivity]. Qed.

(** X9. When the text that was resolved (the content of a file, the body of
    an answer) is not empty and is not JSON, [get_spec_json] raises
    [ValueError]; what the classifier did to the outside stays done. *)
Theorem invalid_text_value_error (spec : text) (w w' : world) (r tag : text) :
  _get_spec_json_from_diff_source E spec w = (Ok (JStr r, tag), w') ->
  r <> [] ->
  _is_json r = Ok false ->
  get_spec_json E spec w = (Raise ValueError, w').
Proof.
  intros H Hne Hj. erewrite get_spec_json_ok by exact H.
  rewrite document_text by exact Hne.
  rewrite _is_json_loads in Hj.
  destruct (json_loads r) as [v|e] eqn:Hl; [discriminate|].
  apply json_loads_raises in Hl. subst e. reflexivity.
Qed.

(** X10. A JSON object whose ["version"] is no version number makes the
    version gate fail, in three ways: a false value ([""], [0], [null],
    [false], an empty list or object) leaves the version object unparsed,
    and the comparison raises [AttributeError]; any other value that is not
    a [str] raises [TypeError]; a [str] that does not match the pattern of
    strict version numbers raises [ValueError]. *)
Theorem version_errors (spec : text) (m : list (text * json)) (v : json) :
  spec <> [] ->
  json_loads spec = Ok (JObj m) ->
  dict_get (T "version") m = Some v ->
  (truthy v = false -> document E (JStr spec) = Raise AttributeError)
  /\ (truthy v = true -> (forall s, v <> JStr s) ->
      document E (JStr spec) = Raise TypeError)
  /\ (forall s, v = JStr s -> s <> [] -> parse_version s = None ->
      document E (JStr spec) = Raise ValueError).
Proof.
  intros Hne Hl Hv. rewrite document_text by exact Hne. rewrite Hl.
  cbn [rbind]. unfold version_gate. cbn [get]. rewrite Hv. cbn [rbind].
  split; [|split].
  - intros Ht. unfold StrictVersion_new at 1. rewrite Ht. reflexivity.
  - intros Ht Hs. unfold StrictVersion_new at 1. rewrite Ht. simpl negb.
    cbv iota. destruct v; try reflexivity. now destruct (Hs s).
  - intros s -> Hs Hp. unfold StrictVersion_new at 1.
    destruct s as [|c s]; [contradiction|].
    change (negb (truthy (JStr (c :: s)))) with false. cbv iota.
    now rewrite Hp.
Qed.

(** X11. A JSON object on which the version gate triggers must carry its
    configuration as text: without a ["config"] the migration raises
    [KeyError], and with a ["config"] that is not a [str] it raises
    [TypeError]. *)
Theorem migration_needs_config (spec : text) (m : list (text * json)) :
  spec <> [] ->
  json_loads spec = Ok (JObj m) ->
  version_gate (JObj m) = Ok true ->
  (dict_get (T "config") m = None -> document E (JStr spec) = Raise KeyError)
  /\ (forall c, dict_get (T "config") m = Some c -> (forall s, c <> JStr s) ->
      document E (JStr spec) = Raise TypeError).
Proof.
  intros Hne Hl Hg. rewrite document_text by exact Hne. rewrite Hl.
  cbn [rbind]. rewrite Hg. cbn [rbind getitem]. split.
  - intros ->. reflexivity.
  - intros c -> Hs. cbn [rbind]. unfold _config_adapter.
    destruct c; try reflexivity. now destruct (Hs s).
Qed.

End Failures.

(** A file that holds something else than JSON. *)
Lemma invalid_text_value_error_witness :
  let w := {| files := [(T "f.json", File (T "oops"))]; trace := [] |} in
  get_spec_json (sample_env (T "online") (Raise URLError)) (T "f.json") w
  = (Raise ValueError, w).
Proof.
  intros w.
  apply (@invalid_text_value_error _ (sample_env (T "online") (Raise URLError))
           (T "f.json") w w (T "oops") (T "json_file")).
  - vm_compute. reflexivity.
  - discriminate.
  - vm_compute. reflexivity.
Defined.

(** An empty version, a number as version, and a version of four parts. *)
Lemma version_errors_witness :
  let E := sample_env (T "online") (Raise URLError) in
  document E (JStr (Q "{'version': ''}")) = Raise AttributeError
  /\ document E (JStr (Q "{'version': 3}")) = Raise TypeError
  /\ document E (JStr (Q "{'version': '1.2.3.4'}")) = Raise ValueError.
Proof.
  intros E. split; [|split].
  - apply (@version_errors _ E (Q "{'version': ''}")
             [(T "version", JStr [])] (JStr []));
      [discriminate|vm_compute; reflexivity|reflexivity|reflexivity].
  - apply (@version_errors _ E (Q "{'version': 3}")
             [(T "version", JInt 3)] (JInt 3));
      [discriminate|vm_compute; reflexivity|reflexivity|reflexivity
      |discriminate].
  - apply (@version_errors _ E (Q "{'version': '1.2.3.4'}")
             [(T "version", JStr (T "1.2.3.4"))] (JStr (T "1.2.3.4")))
      with (s := T "1.2.3.4");
      [discriminate|vm_compute; reflexivity|reflexivity|reflexivity
      |discriminate|vm_compute; reflexivity].
Defined.

(** An object without version and without config, and one whose config is
    a list. *)
Lemma migration_needs_config_witness :
  let E := sample_env (T "online") (Raise URLError) in
  document E (JStr (Q "{'chart_map': {}}")) = Raise KeyError
  /\ document E (JStr (Q "{'config': []}")) = Raise TypeError.
Proof.
  intros E. split.
  - apply (@migration_needs_config _ E (Q "{'chart_map': {}}")
             [(T "chart_map", JObj [])]);
      [discriminate|vm_compute; reflexivity|reflexivity|reflexivity].
  - apply (@migration_needs_config _ E (Q "{'config': []}")
             [(T "config", JArr [])])
      with (c := JArr []);
      [discriminate|vm_compute; reflexivity|reflexivity|reflexivity
      |discriminate].
Defined.

(** ** More on the version migrator *)

Section Renames.

Context {floats : PyFloat}.
Variable E : env.

(** X12. A configuration that is JSON but no list: [_config_adapter]
    returns it as it is when it is an empty object or an empty string, and
    raises [TypeError] on anything else (an object with keys, a string with
    characters, a number, [true], [false], [null]). *)
Theorem adapter_non_list (config : text) (v : json) :
  json_loads config = Ok v ->
  (forall items, v <> JArr items) ->
  _config_adapter E (JStr config)
  = match v with
    | JObj [] | JStr [] => Ok config
    | _ => Raise TypeError
    end.
Proof.
  intros Hl Hv. unfold _config_adapter, loads. rewrite Hl. cbn [rbind].
  destruct v as [| | | |s|items|members]; try reflexivity.
  - destruct s; reflexivity.
  - now destruct (Hv items).
  - destruct members as [|[k x] members]; reflexivity.
Qed.

Lemma old_fid_fname_map_skipped (fields : list json) (acc : list (json * json)) :
  forallb skipped fields = true -> old_fid_fname_map fields acc = Ok acc.
Proof.
  induction fields as [|field rest IH]; intros H; [reflexivity|].
  simpl forallb in H. apply andb_true_iff in H as [Hs Hr].
  rewrite old_fid_fname_map_cons. unfold skipped in Hs.
  destruct (get field (T "computed") (JBool false)) as [computed|e];
    [|discriminate].
  cbn [rbind]. destruct (truthy computed); [now apply IH|].
  simpl orb in Hs.
  destruct (get field (T "fid") JNull) as [fid|e]; [|discriminate].
  cbn [rbind]. rewrite Hs. now apply IH.
Qed.

Lemma adapt_items_skipped (items : list json) (config : text) :
  Forall (fun item => exists fields,
              item_fields item = Ok fields /\ forallb skipped fields = true)
    items ->
  adapt_items E items config = Ok config.
Proof.
  induction 1 as [|item rest (fields & Hf & Hs) _ IH]; [reflexivity|].
  simpl. unfold item_renames. rewrite Hf. cbn [rbind].
  rewrite old_fid_fname_map_skipped by exact Hs. cbn [rbind map combine].
  simpl. exact IH.
Qed.

(** X13. When every field among the dimensions and measures of every chart
    item is computed or carries a sentinel id, [_config_adapter] returns the
    configuration as it is, whatever the sanitizer does: such fields need
    neither a name nor a fid that can be a key. An empty list of charts and
    charts without fields are cases of this. *)
Theorem adapter_keeps_unrenamable (config : text) (items : list json) :
  json_loads config = Ok (JArr items) ->
  Forall (fun item => exists fields,
              item_fields item = Ok fields /\ forallb skipped fields = true)
    items ->
  _config_adapter E (JStr config) = Ok config.
Proof.
  intros Hl Hall. unfold _config_adapter, loads. rewrite Hl.
  cbn [rbind iterate]. now apply adapt_items_skipped.
Qed.

Lemma text_keys_app (a b : list json) :
  text_keys (a ++ b) = text_keys a ++ text_keys b.
Proof. unfold text_keys. apply flat_map_app. Qed.

Lemma text_keys_in (s : text) (l : list json) :
  In s (text_keys l) <-> In (JStr s) l.
Proof.
  unfold text_keys. rewrite in_flat_map. split.
  - intros (k & Hk & Hs). destruct k; try contradiction.
    destruct Hs as [->|[]]. exact Hk.
  - intros H. exists (JStr s). split; [exact H|now left].
Qed.

Lemma kdict_set_distinct {V} (k : json) (v : V) (d : list (json * V)) :
  NoDup (text_keys (map fst d)) ->
  NoDup (text_keys (map fst (kdict_set k v d))).
Proof.
  intros H. destruct (kdict_set_keys k v d) as [->|[-> Hn]]; [exact H|].
  rewrite text_keys_app. destruct k; simpl; rewrite ?app_nil_r; try exact H.
  apply NoDup_app; [exact H|constructor; [intros []|constructor]|].
  intros a Ha [<-|[]]. apply text_keys_in in Ha. apply Hn in Ha.
  simpl in Ha. rewrite text_eqb_refl in Ha. discriminate.
Qed.

Lemma old_fid_fname_map_distinct (fields : list json) :
  forall acc mapping,
    NoDup (text_keys (map fst acc)) ->
    old_fid_fname_map fields acc = Ok mapping ->
    NoDup (text_keys (map fst mapping)).
Proof.
  induction fields as [|field rest IH]; intros acc mapping Hacc H.
  - now injection H as <-.
  - rewrite old_fid_fname_map_cons in H.
    apply rbind_ok in H as (computed & _ & H).
    destruct (truthy computed); [now apply IH in H|].
    apply rbind_ok in H as (fid & _ & H).
    destruct (negb (not_sentinel fid)); [now apply IH in H|].
    apply rbind_ok in H as (key & _ & H).
    apply rbind_ok in H as (name & _ & H).
    destruct (hashable key); [|discriminate].
    apply IH in H; [exact H|]. now apply kdict_set_distinct.
Qed.

Lemma combine_keys_in (a : list json) (b : list text) (k : json) :
  In k (map fst (combine a b)) -> In k a.
Proof.
  intros H. apply in_map_iff in H as ([k0 x] & <- & H).
  now apply in_combine_l in H.
Qed.

Lemma combine_distinct (a : list json) :
  forall b : list text,
    NoDup (text_keys a) -> NoDup (text_keys (map fst (combine a b))).
Proof.
  induction a as [|x a IH]; intros b H; [constructor|].
  destruct b as [|y b]; [constructor|].
  simpl combine. simpl map.
  change (x :: a) with ([x] ++ a) in H.
  change (x :: map fst (combine a b)) with ([x] ++ map fst (combine a b)).
  rewrite text_keys_app in *.
  destruct x; simpl in *; try (now apply IH).
  inversion H as [|? ? Hn Hd]; subst. constructor; [|now apply IH].
  intros Hin. apply Hn. apply text_keys_in.
  apply text_keys_in in Hin. now apply combine_keys_in in Hin.
Qed.

(** X14. The old ids that one chart item contributes to the substitution
    are pairwise distinct: a fid that several fields of the item carry (one
    among the dimensions and one among the measures, say) is collected once,
    in the dict of the comprehension, and so is substituted once for the
    item. *)
Theorem old_ids_distinct (item : json) (pairs : list (json * text)) :
  item_renames E item = Ok pairs -> NoDup (text_keys (map fst pairs)).
Proof.
  unfold item_renames. intros H.
  apply rbind_ok in H as (fields & _ & H).
  apply rbind_ok in H as (m & Hm & H). injection H as <-.
  apply combine_distinct.
  eapply old_fid_fname_map_distinct; [|exact Hm]. constructor.
Qed.

End Renames.

(** An object with a key, and the empty object. *)
Lemma adapter_non_list_witness :
  let E := sample_env (T "online") (Raise URLError) in
  _config_adapter E (JStr (Q "{'a': 1}")) = Raise TypeError
  /\ _config_adapter E (JStr (T "{}")) = Ok (T "{}").
Proof.
  intros E. split.
  - apply (@adapter_non_list _ E (Q "{'a': 1}") (JObj [(T "a", JInt 1)]));
      [vm_compute; reflexivity|discriminate].
  - apply (@adapter_non_list _ E (T "{}") (JObj []));
      [vm_compute; reflexivity|discriminate].
Defined.

(** A chart whose only fields are a computed one, which has no name, and
    one with a sentinel id. *)
Lemma adapter_keeps_unrenamable_witness :
  let config :=
    Q "[{'encodings':{'dimensions':[{'fid':'c2','computed':true}],'measures':[{'fid':'gw_mea_key_fid','name':'k'}]}}]" in
  _config_adapter (sample_env (T "online") (Raise URLError)) (JStr config)
  = Ok config.
Proof.
  intros config.
  destruct (json_loads config) as [[| | | | |items|]|] eqn:Hl;
    try (vm_compute in Hl; discriminate).
  apply (@adapter_keeps_unrenamable _
           (sample_env (T "online") (Raise URLError)) config items Hl).
  vm_compute in Hl. injection Hl as <-.
  constructor; [|constructor].
  eexists. split; [vm_compute; reflexivity|reflexivity].
Defined.

(** The fid [a] is carried by a dimension and by a measure. *)
Lemma old_ids_distinct_witness :
  let item :=
    JObj [(T "encodings",
           JObj [(T "dimensions",
                  JArr [JObj [(T "fid", JStr (T "a")); (T "name", JStr (T "x"))]]);
                 (T "measures",
                  JArr [JObj [(T "fid", JStr (T "a")); (T "name", JStr (T "y"))]])])] in
  item_renames (sample_env (T "online") (Raise URLError)) item
  = Ok [(JStr (T "a"), T "GW_y")]
  /\ NoDup (text_keys (map fst [(JStr (T "a"), T "GW_y")])).
Proof.
  intros item. split; [vm_compute; reflexivity|].
  apply (@old_ids_distinct _ (sample_env (T "online") (Raise URLError)) item).
  vm_compute. reflexivity.
Defined.

(** ** More on the field reconciler *)

Section Additions.

Context {floats : PyFloat}.
Variable E : env.

Lemma gw_fields_nth (fields : list field_dict) :
  forall n k field,
    nth_error fields k = Some field ->
    nth_error (gw_fields E fields n) k
    = Some (field, gw_field E field (field_name field) (n + k)).
Proof.
  induction fields as [|f rest IH]; intros n k field H.
  - destruct k; discriminate.
  - destruct k as [|k]; simpl in *.
    + injection H as <-. now rewrite Nat.add_0_r.
    + rewrite (IH (S n) k field H). do 3 f_equal. lia.
Qed.

Lemma item_fids_channels (item : json) (set : list json) :
  item_fids item = Ok set ->
  forall m enc dims meas,
    item = JObj m ->
    dict_get (T "encodings") m = Some (JObj enc) ->
    dict_get (T "dimensions") enc = Some (JArr dims) ->
    dict_get (T "measures") enc = Some (JArr meas) ->
    field_set (dims ++ meas) = Ok set.
Proof.
  intros H m enc dims meas -> He Hd Hm.
  unfold item_fids, item_fields in H. cbn [getitem] in H. rewrite He in H.
  cbn [rbind getitem] in H. rewrite Hd, Hm in H. exact H.
Qed.

(** X15. The new references of a chart item come in the order of the dataset
    fields, and each has a random string of its own: with [n] strings drawn
    before, the [k]-th absent field (from 0) gets the reference built with
    the draw number [n + k], whose ["dragId"] is ["GW_"] followed by that
    string and whose ["basename"] is the name of the field; the references
    of type ["dimension"] are appended to the dimensions and the others to
    the measures, both in that order, and the item has used as many draws
    as it lacked fields. *)
Theorem new_references_in_order (all_fields : list field_dict)
    (item item' : json) (n n' : nat) (set : list json) :
  fill_item E all_fields item n = Ok (item', n') ->
  item_fids item = Ok set ->
  let added := filter (absent set) all_fields in
  n' = n + length added
  /\ (exists dims meas,
         channel item (T "dimensions") = Some (JArr dims)
         /\ channel item (T "measures") = Some (JArr meas)
         /\ channel item' (T "dimensions")
            = Some (JArr (dims ++ dims_of (gw_fields E added n)))
         /\ channel item' (T "measures")
            = Some (JArr (meas ++ meas_of (gw_fields E added n))))
  /\ (forall k field,
         nth_error added k = Some field ->
         let reference := gw_field E field (field_name field) (n + k) in
         nth_error (gw_fields E added n) k = Some (field, reference)
         /\ getitem reference (T "dragId")
            = Ok (JStr (T "GW_" ++ rand_str E (n + k)))
         /\ getitem reference (T "basename") = Ok (JStr (field_name field))).
Proof.
  intros H Hs added. apply fill_item_closed in H.
  destruct H as (m & enc & dims & meas & set0 & -> & Henc & Hdims & Hmeas
                 & Hset & -> & -> & _ & _).
  assert (set0 = set) as ->.
  { pose proof (item_fids_channels Hs eq_refl Henc Hdims Hmeas) as H.
    congruence. }
  fold added. split; [reflexivity|]. split.
  - exists dims, meas. unfold channel. rewrite Henc, dict_get_set_same.
    split; [exact Hdims|]. split; [exact Hmeas|]. split.
    + rewrite dict_get_set_other, dict_get_set_same; [reflexivity|discriminate].
    + apply dict_get_set_same.
  - intros k field Hk reference. split; [now apply gw_fields_nth|].
    unfold reference, gw_field, getitem. split.
    + now rewrite dict_get_set_same.
    + rewrite dict_get_set_other by discriminate.
      now rewrite dict_get_set_same.
Qed.

Lemma present_all (all_fields : list field_dict) (set : list json) :
  forallb (present set) all_fields = true ->
  Forall (fun f => exists fid, dict_get (T "fid") f = Some fid
                               /\ in_field_set fid set = true) all_fields.
Proof.
  intros H. apply Forall_forall. intros f Hin.
  rewrite forallb_forall in H. specialize (H f Hin). unfold present in H.
  destruct (dict_get (T "fid") f) as [fid|]; [|discriminate]. now exists fid.
Qed.

Lemma fill_item_settled (all_fields : list field_dict) (item : json) (n : nat) :
  settled all_fields item = true ->
  fill_item E all_fields item n = Ok (item, n).
Proof.
  unfold settled, channel, item_fids, item_fields. intros H.
  destruct item as [| | | | | |m]; try discriminate.
  destruct (dict_get (T "encodings") m) as [[| | | | | |enc]|] eqn:He;
    try discriminate.
  destruct (dict_get (T "dimensions") enc) as [[| | | | |dims|]|] eqn:Hd;
    try discriminate.
  destruct (dict_get (T "measures") enc) as [[| | | | |meas|]|] eqn:Hm;
    try discriminate.
  cbn [getitem] in H. rewrite He in H. cbn [rbind getitem] in H.
  rewrite Hd, Hm in H. cbn [rbind iterate_sum] in H.
  destruct (field_set (dims ++ meas)) as [set|e] eqn:Hs; [|discriminate].
  apply present_all in H.
  unfold fill_item, item_fields. cbn [getitem]. rewrite He.
  cbn [rbind getitem]. rewrite Hd, Hm. cbn [rbind iterate_sum]. rewrite Hs.
  cbn [rbind]. rewrite new_fields_none by exact H.
  cbn [rbind extend set_item getitem]. rewrite !app_nil_r.
  rewrite (dict_set_get_id _ _ Hd). rewrite Hm.
  cbn [rbind extend]. rewrite app_nil_r.
  rewrite (dict_set_get_id _ _ Hm). rewrite (dict_set_get_id _ _ He).
  reflexivity.
Qed.

Lemma fill_items_settled (all_fields : list field_dict) (items : list json)
    (n : nat) :
  forallb (settled all_fields) items = true ->
  fill_items E all_fields items n = Ok (items, n).
Proof.
  induction items as [|item rest IH]; intros H; [reflexivity|].
  simpl forallb in H. apply andb_true_iff in H as [Hi Hr].
  simpl. rewrite fill_item_settled by exact Hi. cbn [rbind].
  rewrite IH by exact Hr. reflexivity.
Qed.

(** X16. When every chart item already lists every dataset field (an empty
    list of dataset fields, or of charts, among the cases), [fill_new_fields]
    adds nothing and draws no random string: it returns the serialization
    of the configuration it read, which is the same charts written anew and
    not the text it was given. A dataset field that is present needs no
    more than its ["fid"]. *)
Theorem reconciler_noop (config : text) (items : list json)
    (all_fields : list field_dict) (n : nat) :
  json_loads config = Ok (JArr items) ->
  forallb (settled all_fields) items = true ->
  fill_new_fields E config all_fields n = Ok (json_dumps (JArr items), n).
Proof.
  intros Hl Hs. unfold fill_new_fields, filled. rewrite Hl.
  cbn [rbind iterate]. rewrite fill_items_settled by exact Hs. reflexivity.
Qed.

Lemma new_fields_usable (all_fields : list field_dict) (set : list json) :
  forall d m n,
    if existsb (unusable set) all_fields
    then new_fields E all_fields set d m n = Raise KeyError
    else exists d' m' n', new_fields E all_fields set d m n = Ok (d', m', n').
Proof.
  induction all_fields as [|field rest IH]; intros d m n.
  - simpl. now exists d, m, n.
  - simpl existsb. unfold new_fields; fold new_fields.
    unfold unusable, field_item.
    destruct (dict_get (T "fid") field) as [fid|]; [|reflexivity].
    cbn [rbind]. destruct (in_field_set fid set); simpl negb; simpl andb.
    + apply IH.
    + destruct (dict_get (T "name") field) as [name|]; [|reflexivity].
      cbn [rbind].
      destruct (dict_get (T "analyticType") field) as [a|]; [|reflexivity].
      cbn [rbind]. simpl orb.
      destruct (text_eqb a (T "dimension")); apply IH.
Qed.

(** X17. On a chart item with a list of dimensions and a list of measures
    whose fields have fids, the body of the loop of [fill_new_fields]
    succeeds or raises [KeyError], and raises exactly when some dataset
    field has no ["fid"], or is absent from the item and has no ["name"] or
    no ["analyticType"]. *)
Theorem fill_item_key_error (all_fields : list field_dict) (item : json)
    (n : nat) (set dims meas : list json) :
  item_fids item = Ok set ->
  channel item (T "dimensions") = Some (JArr dims) ->
  channel item (T "measures") = Some (JArr meas) ->
  (existsb (unusable set) all_fields = true ->
   fill_item E all_fields item n = Raise KeyError)
  /\ (existsb (unusable set) all_fields = false ->
      exists item' n', fill_item E all_fields item n = Ok (item', n')).
Proof.
  unfold channel, item_fids, item_fields. intros Hs Hd Hm.
  destruct item as [| | | | | |m]; try discriminate.
  destruct (dict_get (T "encodings") m) as [[| | | | | |enc]|] eqn:He;
    try discriminate.
  cbn [getitem] in Hs. rewrite He in Hs. cbn [rbind getitem] in Hs.
  rewrite Hd, Hm in Hs. cbn [rbind iterate_sum] in Hs.
  pose proof (new_fields_usable all_fields set [] [] n) as Hn.
  unfold fill_item, item_fields. cbn [getitem]. rewrite He.
  cbn [rbind getitem]. rewrite Hd, Hm. cbn [rbind iterate_sum]. rewrite Hs.
  cbn [rbind]. split; intros Hu; rewrite Hu in Hn.
  - now rewrite Hn.
  - destruct Hn as (d' & m' & n' & ->). cbn [rbind extend set_item getitem].
    rewrite dict_get_set_other by discriminate. rewrite Hm.
    cbn [rbind extend]. now eexists; eexists.
Qed.

End Additions.

(** A chart without fields and a dataset of a measure and a dimension, with
    three random strings drawn before: the measure gets the fourth and the
    dimension the fifth. *)
Lemma new_references_in_order_witness :
  let E := sample_env (T "online") (Raise URLError) in
  let b := [(T "fid", T "b"); (T "name", T "y"); (T "analyticType", T "measure")] in
  let c := [(T "fid", T "c"); (T "name", T "z"); (T "analyticType", T "dimension")] in
  let item := JObj [(T "encodings",
                     JObj [(T "dimensions", JArr []); (T "measures", JArr [])])] in
  exists item',
    fill_item E [b; c] item 3 = Ok (item', 5)
    /\ channel item' (T "dimensions") = Some (JArr [gw_field E c (T "z") 4])
    /\ channel item' (T "measures") = Some (JArr [gw_field E b (T "y") 3])
    /\ getitem (gw_field E c (T "z") 4) (T "dragId") = Ok (JStr (T "GW_r4")).
Proof.
  intros E b c item.
  destruct (fill_item E [b; c] item 3) as [[item' n']|e] eqn:H;
    [|vm_compute in H; discriminate].
  destruct (@new_references_in_order _ E [b; c] item item' 3 n' [] H eq_refl)
    as (Hn & (dims & meas & Hd & Hm & Hd' & Hm') & Hk).
  exists item'.
  injection Hd as <-. injection Hm as <-.
  split; [now rewrite Hn|].
  split; [exact Hd'|]. split; [exact Hm'|].
  exact (proj1 (proj2 (Hk 1 c eq_refl))).
Defined.

(** A chart that lists the dimension [a1], and a dataset that has no other
    field; the text is written anew, with blanks after the separators. *)
Lemma reconciler_noop_witness :
  let config := Q "[{'encodings':{'dimensions':[{'fid':'a1'}],'measures':[]}}]" in
  fill_new_fields (sample_env (T "online") (Raise URLError)) config
    [[(T "fid", T "a1")]] 7
  = Ok (Q "[{'encodings': {'dimensions': [{'fid': 'a1'}], 'measures': []}}]", 7).
Proof.
  intros config.
  destruct (json_loads config) as [[| | | | |items|]|] eqn:Hl;
    try (vm_compute in Hl; discriminate).
  rewrite (@reconciler_noop _ (sample_env (T "online") (Raise URLError))
             config items [[(T "fid", T "a1")]] 7 Hl).
  - vm_compute in Hl. injection Hl as <-. vm_compute. reflexivity.
  - vm_compute in Hl. injection Hl as <-. vm_compute. reflexivity.
Defined.

(** A dataset field without a fid, and one that is absent and has no
    name. *)
Lemma fill_item_key_error_witness :
  let E := sample_env (T "online") (Raise URLError) in
  let item := JObj [(T "encodings",
                     JObj [(T "dimensions", JArr []); (T "measures", JArr [])])] in
  fill_item E [[(T "name", T "x")]] item 0 = Raise KeyError
  /\ fill_item E [[(T "fid", T "a"); (T "analyticType", T "measure")]] item 0
     = Raise KeyError.
Proof.
  intros E item. split.
  - apply (@fill_item_key_error _ E [[(T "name", T "x")]] item 0 [] [] []);
      reflexivity.
  - apply (@fill_item_key_error _ E
             [[(T "fid", T "a"); (T "analyticType", T "measure")]] item 0
             [] [] []); reflexivity.
Defined.

(** ** The map from ids to names *)

Section FidMap.

Context {floats : PyFloat}.

Lemma dict_get_app {V} (k : text) (a b : list (text * V)) :
  dict_get k (a ++ b)
  = match dict_get k a with
    | Some v => Some v
    | None => dict_get k b
    end.
Proof.
  induction a as [|[k' v] a IH]; simpl; [reflexivity|].
  destruct (text_eqb k k'); [reflexivity|exact IH].
Qed.

Lemma kdict_set_text_keyed {V} (k : text) (v : V) (d : list (json * V)) :
  text_keyed d -> text_keyed (kdict_set (JStr k) v d).
Proof.
  unfold text_keyed. induction 1 as [|[k0 v0] d [s Hs] Hd IH]; simpl.
  - constructor; [now exists k|constructor].
  - simpl in Hs. subst k0. simpl.
    destruct (text_eqb k s); constructor; auto; now exists s.
Qed.

(** Looking up a [str] after [d[k'] = v]. *)
Lemma kdict_get_set {V} (k k' : text) (v : V) (d : list (json * V)) :
  text_keyed d ->
  kdict_get (JStr k) (kdict_set (JStr k') v d)
  = if text_eqb k k' then Some v else kdict_get (JStr k) d.
Proof.
  unfold text_keyed. induction 1 as [|[k0 v0] d [s Hs] _ IH]; simpl.
  - destruct (text_eqb k k'); reflexivity.
  - simpl in Hs. subst k0. simpl.
    destruct (text_eqb k' s) eqn:H1; simpl.
    + apply text_eqb_eq in H1. subst s.
      destruct (text_eqb k k'); reflexivity.
    + destruct (text_eqb k s) eqn:H2; [|exact IH].
      apply text_eqb_eq in H2. subst s.
      destruct (text_eqb k k') eqn:H3; [|reflexivity].
      apply text_eqb_eq in H3. subst k'. rewrite text_eqb_refl in H1.
      discriminate.
Qed.

Lemma last_write_cons (k s : text) (v : json) (ws : list (text * json))
    (before : option json) :
  last_write k ((s, v) :: ws) before
  = last_write k ws (if text_eqb k s then Some v else before).
Proof.
  unfold last_write. simpl rev. rewrite dict_get_app. simpl.
  destruct (dict_get k (rev ws)); [reflexivity|].
  destruct (text_eqb k s); reflexivity.
Qed.

Lemma fid_names_lookup (fields : list json) :
  forall acc m,
    fid_names fields acc = Ok m ->
    Forall (fun f => exists s, getitem f (T "fid") = Ok (JStr s)) fields ->
    text_keyed acc ->
    text_keyed m
    /\ forall k,
         kdict_get (JStr k) m
         = last_write k (flat_map field_write fields) (kdict_get (JStr k) acc).
Proof.
  induction fields as [|field rest IH]; intros acc m H Hall Hacc.
  - injection H as <-. split; [exact Hacc|reflexivity].
  - inversion Hall as [|? ? [s Hs] Hrest]; subst.
    unfold fid_names in H; fold fid_names in H.
    apply rbind_ok in H as (name & Hn & H).
    rewrite Hs in H. cbn [rbind hashable] in H.
    apply IH in H; [|exact Hrest|now apply kdict_set_text_keyed].
    destruct H as [Hm Hl]. split; [exact Hm|].
    intros k. rewrite Hl. simpl flat_map.
    unfold field_write at 2. rewrite Hs, Hn. simpl app.
    rewrite last_write_cons. now rewrite kdict_get_set.
Qed.

Lemma get_truthy (field agg : json) :
  get field (T "aggName") JNull = Ok agg -> truthy agg = true ->
  getitem field (T "aggName") = Ok agg.
Proof.
  intros H Ht. apply get_ok in H as (m & -> & ->). simpl.
  destruct (dict_get (T "aggName") m); [reflexivity|discriminate].
Qed.

Lemma concat_str_ok (a b c : json) :
  concat_str a b = Ok c -> exists x y, a = JStr x /\ b = JStr y /\ c = JStr (x ++ y).
Proof.
  destruct a; try discriminate. destruct b; try discriminate.
  intros [= <-]. now eexists; eexists.
Qed.

Lemma aggregate_names_lookup (fields : list json) :
  forall acc m,
    aggregate_names fields acc = Ok m ->
    text_keyed acc ->
    text_keyed m
    /\ forall k,
         kdict_get (JStr k) m
         = last_write k (flat_map mark_write fields) (kdict_get (JStr k) acc).
Proof.
  induction fields as [|field rest IH]; intros acc m H Hacc.
  - injection H as <-. split; [exact Hacc|reflexivity].
  - unfold aggregate_names in H; fold aggregate_names in H.
    apply rbind_ok in H as (agg & Hg & H).
    destruct (truthy agg) eqn:Ht.
    + pose proof (get_truthy _ Hg Ht) as Ha.
      apply rbind_ok in H as (name & Hn & H).
      apply rbind_ok in H as (name_ & Hn_ & H).
      apply concat_str_ok in Hn_ as (n & u & -> & [= <-] & ->).
      rewrite Ha in H. cbn [rbind] in H.
      apply rbind_ok in H as (value & Hv & H).
      apply concat_str_ok in Hv as (n' & a & [= <-] & -> & ->).
      apply rbind_ok in H as (fid & Hf & H).
      apply rbind_ok in H as (fid_ & Hf_ & H).
      apply concat_str_ok in Hf_ as (x & u' & -> & [= <-] & ->).
      cbn [rbind concat_str] in H.
      apply IH in H; [|now apply kdict_set_text_keyed].
      destruct H as [Hm Hl]. split; [exact Hm|].
      intros k. rewrite Hl. simpl flat_map.
      unfold mark_write at 2. rewrite Hg, Hf, Hn.
      destruct a as [|c a]; [discriminate|]. simpl app.
      rewrite last_write_cons. now rewrite kdict_get_set.
    + apply IH in H; [|exact Hacc]. destruct H as [Hm Hl].
      split; [exact Hm|]. intros k. rewrite Hl. simpl flat_map.
      unfold mark_write at 2. rewrite Hg.
      destruct agg as [| | | |[|c a]| |]; try reflexivity. discriminate.
Qed.

Lemma last_write_app (k : text) (a b : list (text * json)) (before : option json) :
  last_write k (a ++ b) before = last_write k b (last_write k a before).
Proof.
  unfold last_write. rewrite rev_app_distr, dict_get_app.
  destruct (dict_get k (rev b)); reflexivity.
Qed.

(** The sum of channels that starts from a list is the list followed by
    what the channels list. *)
Lemma sum_channels_from_list (encodings : json) (ks : list text) :
  forall l total,
    sum_channels encodings (Read (JArr l)) ks = Ok total ->
    total = Read (JArr (l ++ flat_map (listed encodings) ks)).
Proof.
  induction ks as [|k ks IH]; intros l total H.
  - injection H as <-. cbn [flat_map]. now rewrite app_nil_r.
  - change (sum_channels encodings ?a (k :: ks))
      with (v <- getitem encodings k ;;
            acc' <- py_add a v ;;
            sum_channels encodings acc' ks)%py in H.
    apply rbind_ok in H as (v & Hv & H).
    apply rbind_ok in H as (acc & Ha & H).
    destruct v; try discriminate. injection Ha as <-.
    apply IH in H. subst total. cbn [flat_map]. unfold listed at 2.
    rewrite Hv. now rewrite app_assoc.
Qed.

(** The sum of channels that starts from a [str] is a [str], and the
    channels list nothing. *)
Lemma sum_channels_from_str (encodings : json) (ks : list text) :
  forall s total,
    sum_channels encodings (Read (JStr s)) ks = Ok total ->
    (exists s', total = Read (JStr s'))
    /\ flat_map (listed encodings) ks = [].
Proof.
  induction ks as [|k ks IH]; intros s total H.
  - injection H as <-. split; [now exists s|reflexivity].
  - change (sum_channels encodings ?a (k :: ks))
      with (v <- getitem encodings k ;;
            acc' <- py_add a v ;;
            sum_channels encodings acc' ks)%py in H.
    apply rbind_ok in H as (v & Hv & H).
    apply rbind_ok in H as (acc & Ha & H).
    destruct v; try discriminate. injection Ha as <-.
    apply IH in H as [H1 H2]. split; [exact H1|].
    cbn [flat_map]. unfold listed at 1. now rewrite Hv, H2.
Qed.

(** A sum of channels that starts from anything else is a number, if it is
    anything. *)
Lemma sum_channels_number (encodings : json) (ks : list text) :
  forall total, sum_channels encodings Number ks = Ok total -> total = Number.
Proof.
  induction ks as [|k ks IH]; intros total H.
  - now injection H as <-.
  - change (sum_channels encodings ?a (k :: ks))
      with (v <- getitem encodings k ;;
            acc' <- py_add a v ;;
            sum_channels encodings acc' ks)%py in H.
    apply rbind_ok in H as (v & Hv & H).
    apply rbind_ok in H as (acc & Ha & H).
    cbn [py_add] in Ha. destruct (is_number v); [|discriminate].
    injection Ha as <-. now apply IH.
Qed.

Lemma sum_channels_cons (encodings : json) (acc : summed) (k : text)
    (ks : list text) :
  sum_channels encodings acc (k :: ks)
  = (v <- getitem encodings k ;;
     acc' <- py_add acc v ;;
     sum_channels encodings acc' ks)%py.
Proof. reflexivity. Qed.

Lemma sum_channels_scalar (encodings rows : json) (k : text) (ks : list text)
    (total : summed) :
  (forall l, rows <> JArr l) -> (forall s, rows <> JStr s) ->
  sum_channels encodings (Read rows) (k :: ks) = Ok total ->
  total = Number.
Proof.
  intros Hl Hs H. rewrite sum_channels_cons in H.
  apply rbind_ok in H as (v & _ & H).
  apply rbind_ok in H as (acc & Ha & H).
  assert (acc = Number) as ->.
  { destruct rows as [|b|z|f|s|l|o];
      try (now destruct (Hl l)); try (now destruct (Hs s));
      cbn [py_add] in Ha;
      match type of Ha with
      | (if ?c then _ else _) = _ => destruct c; [|discriminate]
      end; now injection Ha as <-. }
  now apply sum_channels_number in H.
Qed.

(** When the second loop goes through, it went over the fields that the
    seven channels list. *)
Lemma encoding_marks_listed (encodings : json) (marks : list json)
    (acc m : list (json * json)) :
  encoding_marks encodings = Ok marks ->
  aggregate_names marks acc = Ok m ->
  marks = listed_marks encodings.
Proof.
  unfold encoding_marks, listed_marks. intros H Ha.
  apply rbind_ok in H as (rows & Hr & H).
  apply rbind_ok in H as (total & Ht & H).
  cbn [flat_map]. unfold listed at 1. rewrite Hr.
  destruct rows as [|b|z|f|s|l|o];
    try (apply sum_channels_scalar in Ht; [|discriminate|discriminate];
         subst total; discriminate).
  - apply sum_channels_from_str in Ht as [[s' ->] Hnil].
    cbn [flat_map] in Hnil. rewrite Hnil.
    cbn [iterate_summed iterate] in H. injection H as <-.
    destruct s' as [|c s']; [reflexivity|].
    cbn [map aggregate_names get rbind] in Ha. discriminate.
  - apply sum_channels_from_list in Ht. subst total.
    cbn [iterate_summed iterate] in H. now injection H as <-.
Qed.

(** When the first loop goes through, it went over the fields that the
    dimensions and the measures list. *)
Lemma encoding_fields_listed (encodings : json) (fields : list json)
    (acc m : list (json * json)) :
  encoding_fields encodings = Ok fields ->
  fid_names fields acc = Ok m ->
  fields = listed_fields encodings.
Proof.
  unfold encoding_fields, listed_fields, listed. intros H Hn.
  apply rbind_ok in H as (dims & Hd & H).
  apply rbind_ok in H as (meas & Hm & H).
  rewrite Hd, Hm.
  destruct dims; try discriminate; destruct meas; try discriminate;
    injection H as <-; [|reflexivity].
  destruct (s ++ s0) as [|c r]; [reflexivity|].
  cbn [map fid_names getitem rbind] in Hn. discriminate.
Qed.

(** X18. When [get_fid_fname_map_from_encodings] returns and the fids of
    the dimensions and measures are [str], all the keys of the map are
    [str], and the map answers a key with the value that was written last
    for it: the writes are, in order, fid and name of every field that the
    dimensions list, then of every field that the measures list, and then,
    for every field that has a true ["aggName"] among those that the rows,
    the columns, size, shape, color, details and opacity list, in this
    order, the fid and the name with an underscore and the aggregation
    appended to both. *)
Theorem fid_map_lookup (encodings : json) (m : list (json * json)) :
  get_fid_fname_map_from_encodings encodings = Ok m ->
  Forall (fun f => exists s, getitem f (T "fid") = Ok (JStr s))
    (listed_fields encodings) ->
  text_keyed m
  /\ forall k,
       kdict_get (JStr k) m
       = dict_get k
           (rev (writes (listed_fields encodings) (listed_marks encodings))).
Proof.
  unfold get_fid_fname_map_from_encodings. intros H.
  apply rbind_ok in H as (fields & Hf & H).
  apply rbind_ok in H as (m1 & H1 & H).
  apply rbind_ok in H as (marks & Hm & H).
  rewrite <- (@encoding_fields_listed _ _ _ _ Hf H1).
  rewrite <- (@encoding_marks_listed _ _ _ _ Hm H).
  intros Hall.
  apply fid_names_lookup in H1 as [Hk1 Hl1]; [|exact Hall|constructor].
  apply aggregate_names_lookup in H as [Hk Hl]; [|exact Hk1].
  split; [exact Hk|]. intros k.
  rewrite Hl, Hl1. unfold writes.
  transitivity (last_write k (flat_map field_write fields
                              ++ flat_map mark_write marks) None).
  - now rewrite last_write_app.
  - unfold last_write.
    now destruct (dict_get k (rev (flat_map field_write fields
                                   ++ flat_map mark_write marks))).
Qed.

(** *** Channels that are missing *)

Lemma sum_channels_lists (enc : list (text * json)) (ks : list text) :
  (forall k v, In k ks -> dict_get k enc = Some v -> exists l, v = JArr l) ->
  forall l,
    (exists k, In k ks /\ dict_get k enc = None)
    /\ sum_channels (JObj enc) (Read (JArr l)) ks = Raise KeyError
    \/ (forall k, In k ks -> dict_get k enc <> None)
       /\ exists l', sum_channels (JObj enc) (Read (JArr l)) ks
                     = Ok (Read (JArr l')).
Proof.
  induction ks as [|k ks IH]; intros Hl l.
  - right. split; [intros k []|]. now exists l.
  - simpl sum_channels. cbn [getitem].
    destruct (dict_get k enc) as [v|] eqn:Hk.
    + destruct (Hl k v (or_introl eq_refl) Hk) as [l0 ->]. cbn [rbind py_add].
      destruct (IH (fun k' v' Hin => Hl k' v' (or_intror Hin)) (l ++ l0))
        as [[(k' & Hin & Hn) ->]|[Hall [l' ->]]].
      * left. split; [|reflexivity]. exists k'. split; [now right|exact Hn].
      * right. split; [|now exists l'].
        intros k' [<-|Hin]; [congruence|now apply Hall].
    + left. split; [|reflexivity]. exists k. split; [now left|exact Hk].
Qed.

(** X19. All seven channels must be there, with or without aggregated
    fields: when the first loop has gone through and the channels that are
    there hold lists, an encodings dict that lacks one of ["rows"],
    ["columns"], ["size"], ["shape"], ["color"], ["details"] and ["opacity"]
    makes [get_fid_fname_map_from_encodings] raise [KeyError]. *)
Theorem fid_map_needs_channels (enc : list (text * json)) (k : text)
    (fields : list json) (names : list (json * json)) :
  encoding_fields (JObj enc) = Ok fields ->
  fid_names fields [] = Ok names ->
  In k [T "rows"; T "columns"; T "size"; T "shape"; T "color"; T "details";
        T "opacity"] ->
  dict_get k enc = None ->
  (forall k' v,
      In k' [T "rows"; T "columns"; T "size"; T "shape"; T "color";
             T "details"; T "opacity"] ->
      dict_get k' enc = Some v -> exists l, v = JArr l) ->
  get_fid_fname_map_from_encodings (JObj enc) = Raise KeyError.
Proof.
  intros Hf Hn Hin Hk Hl.
  unfold get_fid_fname_map_from_encodings. rewrite Hf. cbn [rbind].
  rewrite Hn. cbn [rbind]. unfold encoding_marks. cbn [getitem].
  destruct (dict_get (T "rows") enc) as [rows|] eqn:Hr; [|reflexivity].
  destruct (Hl _ rows (or_introl eq_refl) Hr) as [l ->]. cbn [rbind].
  destruct (@sum_channels_lists enc
              [T "columns"; T "size"; T "shape"; T "color"; T "details";
               T "opacity"]
              (fun k' v' Hin' => Hl k' v' (or_intror Hin')) l)
    as [[_ ->]|[Hall _]]; [reflexivity|].
  destruct Hin as [<-|Hin]; [congruence|].
  now destruct (Hall k Hin).
Qed.

(** *** Channels without aggregation *)

Lemma aggregate_names_none (marks : list json) (acc : list (json * json)) :
  Forall (fun f => exists agg,
              get f (T "aggName") JNull = Ok agg /\ truthy agg = false) marks ->
  aggregate_names marks acc = Ok acc.
Proof.
  induction 1 as [|f rest (agg & Hg & Ht) _ IH]; [reflexivity|].
  simpl. rewrite Hg. cbn [rbind]. now rewrite Ht.
Qed.

(** X20. When no field of the seven channels has a true ["aggName"] (the
    key is missing, or its value is empty, [null], 0 or [false]), the second
    loop writes nothing: the result is what the loop over the dimensions and
    measures gives, its errors included, and the fields of the channels
    need neither a fid nor a name. *)
Theorem fid_map_without_aggregates (encodings : json) (fields marks : list json) :
  encoding_fields encodings = Ok fields ->
  encoding_marks encodings = Ok marks ->
  Forall (fun f => exists agg,
              get f (T "aggName") JNull = Ok agg /\ truthy agg = false) marks ->
  get_fid_fname_map_from_encodings encodings = fid_names fields [].
Proof.
  intros Hf Hm Hall. unfold get_fid_fname_map_from_encodings.
  rewrite Hf. cbn [rbind].
  destruct (fid_names fields []) as [names|e]; [|reflexivity].
  cbn [rbind]. rewrite Hm. cbn [rbind]. now apply aggregate_names_none.
Qed.

End FidMap.

(** The fid [a] is written twice, and once more with an aggregation that a
    field of the columns has. *)
Lemma fid_map_lookup_witness :
  let field name := JObj [(T "fid", JStr (T "a")); (T "name", JStr (T name))] in
  let mark := JObj [(T "fid", JStr (T "a")); (T "name", JStr (T "x"));
                    (T "aggName", JStr (T "sum"))] in
  let encodings :=
    JObj [(T "dimensions", JArr [field "x"%string]);
          (T "measures", JArr [field "y"%string]);
          (T "rows", JArr []); (T "columns", JArr [mark]); (T "size", JArr []);
          (T "shape", JArr []); (T "color", JArr []); (T "details", JArr []);
          (T "opacity", JArr [])] in
  exists m,
    get_fid_fname_map_from_encodings encodings = Ok m
    /\ kdict_get (JStr (T "a")) m = Some (JStr (T "y"))
    /\ kdict_get (JStr (T "a_sum")) m = Some (JStr (T "x_sum"))
    /\ kdict_get (JStr (T "b")) m = None.
Proof.
  intros field mark encodings.
  destruct (get_fid_fname_map_from_encodings encodings) as [m|e] eqn:H;
    [|vm_compute in H; discriminate].
  destruct (fid_map_lookup _ H) as [_ Hl].
  { repeat constructor; eexists; vm_compute; reflexivity. }
  exists m. split; [reflexivity|].
  rewrite !Hl. vm_compute. repeat split.
Defined.

(** Encodings without ["opacity"], and without a single field. *)
Lemma fid_map_needs_channels_witness :
  get_fid_fname_map_from_encodings
    (JObj [(T "dimensions", JArr []); (T "measures", JArr []);
           (T "rows", JArr []); (T "columns", JArr []); (T "size", JArr []);
           (T "shape", JArr []); (T "color", JArr []); (T "details", JArr [])])
  = Raise KeyError.
Proof.
  apply (@fid_map_needs_channels _
           [(T "dimensions", JArr []); (T "measures", JArr []);
            (T "rows", JArr []); (T "columns", JArr []); (T "size", JArr []);
            (T "shape", JArr []); (T "color", JArr []); (T "details", JArr [])]
           (T "opacity") [] []).
  - reflexivity.
  - reflexivity.
  - simpl. tauto.
  - reflexivity.
  - intros k' v Hin Hk.
    repeat (destruct Hin as [<-|Hin];
            [vm_compute in Hk; first [discriminate|injection Hk as <-; now eexists]|]).
    destruct Hin.
Defined.

(** A field on the rows that has nothing but an empty ["aggName"]. *)
Lemma fid_map_without_aggregates_witness :
  get_fid_fname_map_from_encodings
    (JObj [(T "dimensions", JArr [JObj [(T "fid", JStr (T "a"));
                                        (T "name", JStr (T "x"))]]);
           (T "measures", JArr []);
           (T "rows", JArr [JObj [(T "aggName", JStr [])]]);
           (T "columns", JArr []); (T "size", JArr []);
           (T "shape", JArr []); (T "color", JArr []); (T "details", JArr []);
           (T "opacity", JArr [])])
  = Ok [(JStr (T "a"), JStr (T "x"))].
Proof.
  rewrite (@fid_map_without_aggregates _ _
             [JObj [(T "fid", JStr (T "a")); (T "name", JStr (T "x"))]]
             [JObj [(T "aggName", JStr [])]]).
  - reflexivity.
  - reflexivity.
  - reflexivity.
  - constructor; [|constructor]. eexists. split; reflexivity.
Defined.

(** ** Reading back what was written *)

Lemma hex_digits_value (n : N) :
  (n < 65536)%N ->
  ((((n / 4096 mod 16) * 16 + n / 256 mod 16) * 16 + n / 16 mod 16) * 16
   + n mod 16 = n)%N.
Proof.
  intros H.
  pose proof (N.div_mod' n 16) as H0.
  pose proof (N.div_mod' (n / 16) 16) as H1.
  pose proof (N.div_mod' (n / 256) 16) as H2.
  pose proof (N.div_mod' (n / 4096) 16) as H3.
  replace (n / 16 / 16)%N with (n / 256)%N in H1
    by (rewrite N.Div0.div_div; reflexivity).
  replace (n / 256 / 16)%N with (n / 4096)%N in H2
    by (rewrite N.Div0.div_div; reflexivity).
  assert (H4 : (n / 4096 < 16)%N) by (apply N.Div0.div_lt_upper_bound; lia).
  rewrite (N.div_small _ _ H4) in H3.
  lia.
Qed.

Lemma in_range_false (lo hi c : N) :
  (c < lo \/ hi < c)%N -> in_range lo hi c = false.
Proof.
  intros H. destruct (in_range lo hi c) eqn:E; [|reflexivity].
  apply in_range_iff in E. lia.
Qed.

Lemma hex_value_digit (d : N) : (d < 16)%N -> hex_value (hex_digit d) = Some d.
Proof.
  intros H. unfold hex_digit, hex_value.
  destruct (N.ltb_spec d 10).
  - replace (in_range 48 57 (48 + d)) with true
      by (symmetry; apply in_range_iff; lia).
    f_equal. lia.
  - rewrite in_range_false by lia.
    replace (in_range 97 102 (87 + d)) with true
      by (symmetry; apply in_range_iff; lia).
    f_equal. lia.
Qed.

Lemma hex4_escape (n : N) :
  (n < 65536)%N ->
  hex4 (hex_digit (n / 4096 mod 16)) (hex_digit (n / 256 mod 16))
    (hex_digit (n / 16 mod 16)) (hex_digit (n mod 16)) = Some n.
Proof.
  intros H. unfold hex4.
  rewrite !hex_value_digit by (apply N.mod_lt; discriminate).
  f_equal. now apply hex_digits_value.
Qed.

(** An escape [\uXXXX] in the body of a string literal. *)
Lemma scan_string_u (n : N) (r : text) (pending : option N) (acc : text) :
  (n < 65536)%N ->
  scan_string (u_escape n ++ r) pending acc
  = match pending with
    | Some hi =>
        if is_low_surrogate n
        then scan_string r None (join_surrogates hi n :: acc)
        else if is_high_surrogate n
        then scan_string r (Some n) (hi :: acc)
        else scan_string r None (n :: hi :: acc)
    | None =>
        if is_high_surrogate n
        then scan_string r (Some n) acc
        else scan_string r None (n :: acc)
    end.
Proof.
  intros H. unfold u_escape. cbn [app].
  unfold scan_string; fold scan_string.
  change (N.eqb (ch "\") 34) with false.
  change (N.eqb (ch "\") (ch "\")) with true.
  change (N.eqb (ch "u") (ch "u")) with true. cbv iota.
  now rewrite hex4_escape.
Qed.

(** *** Texts *)

Lemma code_point_lt (c : N) : code_point c = true -> (c < 1114112)%N.
Proof. apply N.ltb_lt. Qed.

Lemma high_range (c : N) :
  is_high_surrogate c = true <-> (55296 <= c <= 56319)%N.
Proof. apply in_range_iff. Qed.

Lemma low_range (c : N) :
  is_low_surrogate c = true <-> (56320 <= c <= 57343)%N.
Proof. apply in_range_iff. Qed.

Lemma high_not_low (c : N) :
  is_high_surrogate c = true -> is_low_surrogate c = false.
Proof.
  intros H. apply high_range in H. unfold is_low_surrogate.
  apply in_range_false. lia.
Qed.

Lemma join_pairs_other (c : N) (s : text) :
  is_high_surrogate c = false -> join_pairs (c :: s) = c :: join_pairs s.
Proof. intros H. destruct s as [|d s]; cbn [join_pairs]; now rewrite ?H. Qed.

Lemma join_pairs_high (hi c : N) (s : text) :
  is_low_surrogate c = false ->
  join_pairs (hi :: c :: s) = hi :: join_pairs (c :: s).
Proof.
  intros H. cbn [join_pairs]. now rewrite H, andb_false_r.
Qed.

Lemma join_pairs_apart (c d : N) (s : text) :
  is_high_surrogate c && is_low_surrogate d = false ->
  join_pairs (c :: d :: s) = c :: join_pairs (d :: s).
Proof. intros H. cbn [join_pairs]. now rewrite H. Qed.

Lemma join_pairs_pair (hi lo : N) (s : text) :
  is_high_surrogate hi = true -> is_low_surrogate lo = true ->
  join_pairs (hi :: lo :: s) = join_surrogates hi lo :: join_pairs s.
Proof. intros H1 H2. cbn [join_pairs]. now rewrite H1, H2. Qed.

(** The escape that [json.dumps] writes for a code point of the basic plane
    that is not printable ASCII. *)
Lemma escape_char_u (c : N) :
  (127 <= c < 65536)%N -> escape_char c = u_escape c.
Proof.
  intros H. unfold escape_char.
  repeat match goal with
         | |- context [N.eqb c ?k] =>
             replace (N.eqb c k) with false by (symmetry; apply N.eqb_neq; simpl; lia)
         end.
  rewrite in_range_false by lia.
  replace (N.ltb c 65536) with true by (symmetry; apply N.ltb_lt; lia).
  reflexivity.
Qed.

(** The halves of a code point above the basic plane. *)
Lemma astral_halves (c : N) :
  (65536 <= c < 1114112)%N ->
  exists hi lo,
    escape_char c = u_escape hi ++ u_escape lo
    /\ is_high_surrogate hi = true /\ is_low_surrogate lo = true
    /\ join_surrogates hi lo = c.
Proof.
  intros H. unfold escape_char.
  repeat match goal with
         | |- context [N.eqb c ?k] =>
             replace (N.eqb c k) with false by (symmetry; apply N.eqb_neq; simpl; lia)
         end.
  rewrite in_range_false by lia.
  replace (N.ltb c 65536) with false by (symmetry; apply N.ltb_ge; lia).
  cbv zeta.
  assert (Hq : ((c - 65536) / 1024 < 1024)%N)
    by (apply N.Div0.div_lt_upper_bound; lia).
  rewrite (N.mod_small _ _ Hq).
  assert (Hm : ((c - 65536) mod 1024 < 1024)%N)
    by (apply N.mod_lt; discriminate).
  pose proof (N.div_mod' (c - 65536) 1024) as Hd.
  set (q := ((c - 65536) / 1024)%N) in *.
  set (m := ((c - 65536) mod 1024)%N) in *.
  clearbody q m.
  exists (55296 + q)%N, (56320 + m)%N. split; [reflexivity|].
  split; [apply high_range; lia|]. split; [apply low_range; lia|].
  unfold join_surrogates. lia.
Qed.

(** A pair of surrogates, joined, is written as the two are. *)
Lemma escape_char_joined (hi lo : N) :
  is_high_surrogate hi = true -> is_low_surrogate lo = true ->
  escape_char (join_surrogates hi lo) = escape_char hi ++ escape_char lo.
Proof.
  intros Hh Hl. apply high_range in Hh. apply low_range in Hl.
  rewrite (@escape_char_u hi), (@escape_char_u lo) by lia.
  assert (Hc : (65536 <= join_surrogates hi lo < 1114112)%N)
    by (unfold join_surrogates; lia).
  unfold escape_char.
  repeat match goal with
         | |- context [N.eqb (join_surrogates hi lo) ?k] =>
             replace (N.eqb (join_surrogates hi lo) k) with false
               by (symmetry; apply N.eqb_neq; simpl; lia)
         end.
  rewrite in_range_false by lia.
  replace (N.ltb (join_surrogates hi lo) 65536) with false
    by (symmetry; apply N.ltb_ge; lia).
  cbv zeta.
  assert (Hv : (join_surrogates hi lo - 65536
                = (hi - 55296) * 1024 + (lo - 56320))%N)
    by (unfold join_surrogates; lia).
  rewrite Hv.
  assert (Hq : (((hi - 55296) * 1024 + (lo - 56320)) / 1024 = hi - 55296)%N).
  { rewrite N.div_add_l by discriminate. rewrite N.div_small by lia. lia. }
  assert (Hm : (((hi - 55296) * 1024 + (lo - 56320)) mod 1024 = lo - 56320)%N).
  { rewrite N.add_comm, N.Div0.mod_add. apply N.mod_small. lia. }
  rewrite Hq, Hm. rewrite N.mod_small by lia.
  replace (55296 + (hi - 55296))%N with hi by lia.
  replace (56320 + (lo - 56320))%N with lo by lia.
  reflexivity.
Qed.

(** What [json.dumps] writes for a text is what it writes for the text with
    its pairs joined. *)
Lemma escape_joined (s : text) :
  flat_map escape_char (join_pairs s) = flat_map escape_char s
  /\ forall c, flat_map escape_char (join_pairs (c :: s))
               = flat_map escape_char (c :: s).
Proof.
  induction s as [|d s [IH1 IH2]].
  - split; [reflexivity|]. intros c. reflexivity.
  - split; [apply IH2|]. intros c.
    destruct (is_high_surrogate c && is_low_surrogate d) eqn:Hp.
    + apply andb_true_iff in Hp as [Hh Hl].
      rewrite join_pairs_pair by assumption.
      cbn [flat_map]. rewrite IH1, (escape_char_joined _ _ Hh Hl).
      now rewrite <- app_assoc.
    + rewrite join_pairs_apart by exact Hp.
      change (flat_map escape_char (c :: join_pairs (d :: s)))
        with (escape_char c ++ flat_map escape_char (join_pairs (d :: s))).
      now rewrite IH2.
Qed.

(** A text without a pair is its own text with the pairs joined. *)
Lemma join_pairs_unpaired (s : text) : paired s = false -> join_pairs s = s.
Proof.
  induction s as [|c s IH]; [reflexivity|].
  cbn [paired join_pairs]. destruct s as [|d s]; [reflexivity|].
  intros H. apply orb_false_iff in H as [Hp Hr]. rewrite Hp.
  now rewrite IH.
Qed.

(** What [json.dumps] writes for a code point, read after an escape of a
    high surrogate ([pending]) or after anything else. *)
Lemma scan_escape_char (c : N) (r : text) (pending : option N) (acc : text) :
  code_point c = true ->
  scan_string (escape_char c ++ r) pending acc
  = if is_high_surrogate c then scan_string r (Some c) (flush pending acc)
    else if is_low_surrogate c
    then match pending with
         | Some hi => scan_string r None (join_surrogates hi c :: acc)
         | None => scan_string r None (c :: acc)
         end
    else scan_string r None (c :: flush pending acc).
Proof.
  intros Hc. apply code_point_lt in Hc.
  destruct (N.ltb_spec c 127) as [Ha|Ha].
  - (* ASCII *)
    unfold is_high_surrogate, is_low_surrogate.
    rewrite !in_range_false by lia. unfold escape_char.
    destruct (N.eqb c 34) eqn:E1; [apply N.eqb_eq in E1; now subst|].
    destruct (N.eqb c (ch "\")) eqn:E2; [apply N.eqb_eq in E2; now subst|].
    destruct (N.eqb c 10) eqn:E3; [apply N.eqb_eq in E3; now subst|].
    destruct (N.eqb c 13) eqn:E4; [apply N.eqb_eq in E4; now subst|].
    destruct (N.eqb c 9) eqn:E5; [apply N.eqb_eq in E5; now subst|].
    destruct (N.eqb c 8) eqn:E6; [apply N.eqb_eq in E6; now subst|].
    destruct (N.eqb c 12) eqn:E7; [apply N.eqb_eq in E7; now subst|].
    destruct (in_range 32 126 c) eqn:E8.
    + apply in_range_iff in E8. cbn [app].
      unfold scan_string; fold scan_string. rewrite E1, E2.
      replace (N.leb c 31) with false by (symmetry; apply N.leb_gt; lia).
      reflexivity.
    + replace (N.ltb c 65536) with true by (symmetry; apply N.ltb_lt; lia).
      rewrite scan_string_u by lia.
      unfold is_high_surrogate, is_low_surrogate.
      rewrite !in_range_false by lia. now destruct pending.
  - destruct (N.ltb_spec c 65536) as [Hb|Hb].
    + (* the basic plane above ASCII *)
      rewrite escape_char_u, scan_string_u by lia.
      destruct (is_high_surrogate c) eqn:Hh.
      * rewrite (high_not_low _ Hh). now destruct pending.
      * destruct (is_low_surrogate c); now destruct pending.
    + (* above the basic plane *)
      destruct (@astral_halves c) as (hi & lo & -> & Hh & Hl & Hj); [lia|].
      unfold is_high_surrogate, is_low_surrogate.
      rewrite !in_range_false by lia.
      pose proof Hh as Hh'. apply high_range in Hh'.
      pose proof Hl as Hl'. apply low_range in Hl'.
      rewrite <- app_assoc.
      rewrite scan_string_u by lia. rewrite Hh, (high_not_low _ Hh).
      destruct pending as [p|]; rewrite scan_string_u by lia;
        rewrite Hl, Hj; reflexivity.
Qed.

(** The body of a literal that [json.dumps] wrote, and its closing quote. *)
Lemma scan_body (s : text) :
  is_str s = true ->
  forall r pending acc,
    match pending with
    | Some hi => is_high_surrogate hi = true
    | None => True
    end ->
    scan_string (flat_map escape_char s ++ 34%N :: r) pending acc
    = Some (rev acc ++ join_pairs (flush pending [] ++ s), r).
Proof.
  induction s as [|c s IH]; intros Hs r pending acc Hp.
  - cbn [flat_map app]. unfold scan_string. rewrite N.eqb_refl.
    destruct pending as [hi|]; cbn [flush rev app]; now rewrite ?app_nil_r.
  - cbn [is_str forallb] in Hs. apply andb_true_iff in Hs as [Hc Hs].
    cbn [flat_map]. rewrite <- app_assoc.
    rewrite scan_escape_char by exact Hc.
    destruct (is_high_surrogate c) eqn:Hh.
    + rewrite IH by assumption.
      destruct pending as [hi|]; cbn [flush rev app].
      * rewrite join_pairs_high by now apply high_not_low.
        now rewrite <- app_assoc.
      * reflexivity.
    + destruct (is_low_surrogate c) eqn:Hl.
      * destruct pending as [hi|]; rewrite IH by (assumption || exact I);
          cbn [flush rev app].
        -- rewrite join_pairs_pair by assumption. now rewrite <- app_assoc.
        -- rewrite join_pairs_other by exact Hh. now rewrite <- app_assoc.
      * rewrite IH by (assumption || exact I).
        destruct pending as [hi|]; cbn [flush rev app].
        -- rewrite join_pairs_high by exact Hl.
           rewrite join_pairs_other by exact Hh.
           rewrite <- !app_assoc. reflexivity.
        -- rewrite join_pairs_other by exact Hh. now rewrite <- app_assoc.
Qed.

Lemma scan_quoted (s : text) :
  is_str s = true ->
  forall r acc,
    scan_string (flat_map escape_char s ++ 34%N :: r) None acc
    = Some (rev acc ++ join_pairs s, r).
Proof. intros Hs r acc. now apply (scan_body s Hs r None acc). Qed.

(** Plain texts are [str] without pairs. *)
Lemma plain_char_range (c : N) :
  plain_char c = true -> ((c < 55296 \/ 57343 < c) /\ c < 1114112)%N.
Proof.
  unfold plain_char. rewrite andb_true_iff, negb_true_iff, N.ltb_lt.
  intros [H1 H2]. split; [|exact H2].
  destruct (N.lt_ge_cases c 55296) as [|Hlo]; [now left|].
  destruct (N.lt_ge_cases 57343 c) as [|Hhi]; [now right|].
  assert (in_range 55296 57343 c = true) by (apply in_range_iff; lia).
  congruence.
Qed.

Lemma plain_text_str (s : text) :
  plain_text s = true -> is_str s = true /\ join_pairs s = s.
Proof.
  induction s as [|c s IH]; intros H; [now split|].
  cbn [plain_text forallb] in H. apply andb_true_iff in H as [Hc Hs].
  destruct (IH Hs) as [IH1 IH2]. apply plain_char_range in Hc as [Hr Hm].
  split.
  - cbn [is_str forallb]. apply andb_true_iff. split; [now apply N.ltb_lt|].
    exact IH1.
  - rewrite join_pairs_other, IH2; [reflexivity|].
    unfold is_high_surrogate. apply in_range_false. lia.
Qed.

(** *** Integers *)

Lemma uint_text_digits (u : Decimal.uint) :
  Forall (fun c => is_digit c = true) (uint_text u).
Proof. induction u; simpl; constructor; auto. Qed.

Lemma decimal_value_acc (u : Decimal.uint) :
  forall acc : positive,
    fold_left (fun a c => (10 * a + (c - 48))%N) (uint_text u) (Npos acc)
    = Npos (Pos.of_uint_acc u acc).
Proof.
  induction u; intros acc; cbn [uint_text fold_left Pos.of_uint_acc];
    [reflexivity|..];
    match goal with
    | |- fold_left _ _ ?a = N.pos (Pos.of_uint_acc _ ?b) =>
        replace a with (Npos b) by lia
    end; apply IHu.
Qed.

Lemma decimal_value_uint (u : Decimal.uint) :
  decimal_value (uint_text u) = Pos.of_uint u.
Proof.
  unfold decimal_value.
  induction u; cbn [uint_text fold_left Pos.of_uint];
    [reflexivity|exact IHu|..];
    match goal with
    | |- fold_left _ _ ?a = N.pos (Pos.of_uint_acc _ ?b) =>
        replace a with (Npos b) by lia
    end; apply decimal_value_acc.
Qed.

(** The digits of a positive number: at least one, the first of them not a
    zero. *)
Lemma to_uint_head (p : positive) :
  exists d r,
    uint_text (Pos.to_uint p) = d :: r /\ in_range 49 57 d = true.
Proof.
  pose proof (DecimalPos.Unsigned.to_of (Pos.to_uint p)) as H.
  rewrite DecimalPos.Unsigned.of_to in H. simpl N.to_uint in H.
  destruct (Pos.to_uint p) as [|u|u|u|u|u|u|u|u|u|u] eqn:E;
    try (simpl; do 2 eexists; split; reflexivity).
  - now apply DecimalPos.Unsigned.to_uint_nonnil in E.
  - exfalso. unfold Decimal.unorm in H. simpl Decimal.nzhead in H.
    destruct (Decimal.nzhead u) eqn:En; try discriminate.
    + injection H as ->. now apply DecimalPos.Unsigned.to_uint_nonzero in E.
    + injection H as <-. now apply DecimalFacts.nzhead_nonzero in En.
Qed.

Lemma delimited_head (rest : text) :
  delimited rest = true ->
  match rest with
  | [] => True
  | c :: _ => is_digit c = false /\ N.eqb c (ch ".") = false
              /\ N.eqb c (ch "e") || N.eqb c (ch "E") = false
              /\ is_json_ws c = false
  end.
Proof.
  destruct rest as [|c r]; [trivial|]. unfold delimited.
  rewrite !orb_true_iff, !N.eqb_eq.
  intros [[->| ->]| ->]; repeat split.
Qed.

Lemma span_digits (l rest : text) :
  Forall (fun c => is_digit c = true) l ->
  delimited rest = true ->
  span is_digit (l ++ rest) = (l, rest).
Proof.
  intros Hl Hr. induction Hl as [|c l Hc _ IH]; simpl.
  - apply delimited_head in Hr. destruct rest as [|c r]; [reflexivity|].
    simpl. destruct Hr as [-> _]. reflexivity.
  - now rewrite Hc, IH.
Qed.

Lemma digit_range (c : N) : is_digit c = true -> (48 <= c <= 57)%N.
Proof. unfold is_digit. apply in_range_iff. Qed.

Section Numbers.

Context {floats : PyFloat}.

Lemma scan_tail (rest : text) :
  delimited rest = true ->
  scan_frac rest = ([], rest) /\ scan_exp rest = ([], rest).
Proof.
  intros H. apply delimited_head in H. destruct rest as [|c r];
    [split; reflexivity|].
  destruct H as (_ & H1 & H2 & _). unfold scan_frac, scan_exp.
  now rewrite H1, H2.
Qed.

(** The digits that [json.dumps] writes for a number. *)
Lemma int_digits (n : N) :
  let ds := uint_text (N.to_uint n) in
  Forall (fun c => is_digit c = true) ds
  /\ decimal_value ds = n
  /\ (ds = [48%N] \/ exists d r, ds = d :: r /\ in_range 49 57 d = true).
Proof.
  intros ds. split; [apply uint_text_digits|]. split.
  - unfold ds. rewrite decimal_value_uint.
    apply (DecimalN.Unsigned.of_to n).
  - destruct n as [|p]; [now left|right]. apply to_uint_head.
Qed.

Lemma scan_int_part_digits (ds rest : text) :
  Forall (fun c => is_digit c = true) ds ->
  ds = [48%N] \/ (exists d r, ds = d :: r /\ in_range 49 57 d = true) ->
  delimited rest = true ->
  scan_int_part (ds ++ rest) = Some (ds, rest).
Proof.
  intros Hd [->|(d & r & -> & Hh)] Hr.
  - reflexivity.
  - pose proof (span_digits rest Hd Hr) as Hs. cbn [app] in *.
    unfold scan_int_part. now rewrite Hh, Hs.
Qed.

Lemma scan_minus_digit (ds rest : text) :
  Forall (fun c => is_digit c = true) ds ->
  ds <> [] ->
  scan_minus (ds ++ rest) = (false, ds ++ rest).
Proof.
  intros Hd Hne. destruct ds as [|d r]; cbn [app].
  - contradiction.
  - inversion Hd as [|? ? Hc _]; subst. apply digit_range in Hc.
    unfold scan_minus.
    replace (N.eqb d (ch "-")) with false; [reflexivity|].
    symmetry. apply N.eqb_neq. simpl. lia.
Qed.

Lemma scan_int (z : Z) (rest : text) :
  delimited rest = true ->
  scan_number (int_text z ++ rest) = Some (JInt z, rest).
Proof.
  intros Hr. destruct (scan_tail rest Hr) as [Hf He].
  assert (Hn : forall n,
             scan_int_part (uint_text (N.to_uint n) ++ rest)
             = Some (uint_text (N.to_uint n), rest)
             /\ decimal_value (uint_text (N.to_uint n)) = n
             /\ scan_minus (uint_text (N.to_uint n) ++ rest)
                = (false, uint_text (N.to_uint n) ++ rest)).
  { intros n. destruct (int_digits n) as (Hd & Hv & Hh).
    split; [now apply scan_int_part_digits|].
    split; [exact Hv|]. apply scan_minus_digit; [exact Hd|].
    destruct Hh as [->|(d & r & -> & _)]; discriminate. }
  assert (Hp : forall n,
             scan_number (uint_text (N.to_uint n) ++ rest)
             = Some (JInt (Z.of_N n), rest)).
  { intros n. destruct (Hn n) as (Hi & Hv & Hm).
    unfold scan_number. now rewrite Hm, Hi, Hf, He, Hv. }
  destruct z as [|p|p].
  - apply (Hp 0%N).
  - apply (Hp (Npos p)).
  - destruct (Hn (Npos p)) as (Hi & Hv & _). cbn [N.to_uint] in Hi, Hv.
    unfold int_text. cbn [app]. unfold scan_number, scan_minus.
    rewrite N.eqb_refl, Hi, Hf, He, Hv. reflexivity.
Qed.

End Numbers.

(** *** Values *)

Section JsonInduction.

Variable P : json -> Prop.
Hypothesis Hnull : P JNull.
Hypothesis Hbool : forall b, P (JBool b).
Hypothesis Hint : forall z, P (JInt z).
Hypothesis Hfloat : forall f, P (JFloat f).
Hypothesis Hstr : forall s, P (JStr s).
Hypothesis Harr : forall items, Forall P items -> P (JArr items).
Hypothesis Hobj :
  forall members, Forall (fun kv => P (snd kv)) members -> P (JObj members).

(** Induction on a value, with the items of a list and the values of an
    object as the smaller values. *)
Lemma json_induction : forall v, P v.
Proof.
  fix IH 1. intros [|b|z|f|s|items|members].
  - exact Hnull.
  - apply Hbool.
  - apply Hint.
  - apply Hfloat.
  - apply Hstr.
  - apply Harr. induction items as [|x r IHr]; constructor;
      [apply IH|exact IHr].
  - apply Hobj. induction members as [|kv r IHr]; constructor;
      [apply IH|exact IHr].
Qed.

End JsonInduction.

Section RoundTrip.

Context {floats : PyFloat}.

Lemma parse_value_string (fuel : nat) (body : text) :
  parse_value (S fuel) (34%N :: body)
  = match scan_string body None [] with
    | Some (str, rest) => Parsed (JStr str) rest
    | None => Malformed
    end.
Proof. reflexivity. Qed.

Lemma parse_value_array (fuel : nat) (body : text) :
  parse_value (S fuel) (ch "[" :: body)
  = match skip_ws body with
    | c2 :: r2 =>
        if N.eqb c2 (ch "]") then Parsed (JArr []) r2
        else parse_items fuel (c2 :: r2) []
    | [] => Malformed
    end.
Proof. reflexivity. Qed.

Lemma parse_value_object (fuel : nat) (body : text) :
  parse_value (S fuel) (ch "{" :: body)
  = match skip_ws body with
    | c2 :: r2 =>
        if N.eqb c2 (ch "}") then Parsed (JObj []) r2
        else parse_members fuel (c2 :: r2) []
    | [] => Malformed
    end.
Proof. reflexivity. Qed.

Lemma parse_items_S (fuel : nat) (s : text) (acc : list json) :
  parse_items (S fuel) s acc
  = match parse_value fuel s with
    | Parsed v rest =>
        match skip_ws rest with
        | c :: r =>
            if N.eqb c (ch "]") then Parsed (JArr (rev (v :: acc))) r
            else if N.eqb c (ch ",")
            then parse_items fuel (skip_ws r) (v :: acc)
            else Malformed
        | [] => Malformed
        end
    | Malformed => Malformed
    | OutOfFuel => OutOfFuel
    end.
Proof. reflexivity. Qed.

Lemma parse_members_S (fuel : nat) (body : text) (acc : list (text * json)) :
  parse_members (S fuel) (34%N :: body) acc
  = match scan_string body None [] with
    | Some (key, rest) =>
        match skip_ws rest with
        | c2 :: r2 =>
            if N.eqb c2 (ch ":") then
              match parse_value fuel (skip_ws r2) with
              | Parsed v rest2 =>
                  match skip_ws rest2 with
                  | c3 :: r3 =>
                      if N.eqb c3 (ch "}")
                      then Parsed (JObj (dict_set key v acc)) r3
                      else if N.eqb c3 (ch ",")
                      then parse_members fuel (skip_ws r3) (dict_set key v acc)
                      else Malformed
                  | [] => Malformed
                  end
              | Malformed => Malformed
              | OutOfFuel => OutOfFuel
              end
            else Malformed
        | [] => Malformed
        end
    | None => Malformed
    end.
Proof. reflexivity. Qed.

Lemma skip_ws_head (c : N) (r : text) :
  is_json_ws c = false -> skip_ws (c :: r) = c :: r.
Proof. intros H. simpl. now rewrite H. Qed.

Lemma skip_ws_blank (r : text) : skip_ws (ch " " :: r) = skip_ws r.
Proof. reflexivity. Qed.

(** A number at the head of the text goes to the scanner of numbers. *)
Lemma parse_value_digit (fuel : nat) (c : N) (r : text) :
  is_digit c = true ->
  parse_value (S fuel) (c :: r)
  = match scan_number (c :: r) with
    | Some (v, rest) => Parsed v rest
    | None => Malformed
    end.
Proof.
  intros H. apply digit_range in H.
  unfold parse_value; fold parse_value. simpl ch.
  replace (N.eqb c 34) with false by (symmetry; apply N.eqb_neq; lia).
  replace (N.eqb c 123) with false by (symmetry; apply N.eqb_neq; lia).
  replace (N.eqb c 91) with false by (symmetry; apply N.eqb_neq; lia).
  rewrite (startswith_first_false c r (T "null"))
    by (apply N.eqb_neq; simpl; lia).
  rewrite (startswith_first_false c r (T "true"))
    by (apply N.eqb_neq; simpl; lia).
  rewrite (startswith_first_false c r (T "false"))
    by (apply N.eqb_neq; simpl; lia).
  rewrite (startswith_first_false c r (T "NaN"))
    by (apply N.eqb_neq; simpl; lia).
  rewrite (startswith_first_false c r (T "Infinity"))
    by (apply N.eqb_neq; simpl; lia).
  rewrite (startswith_first_false c r (T "-Infinity"))
    by (apply N.eqb_neq; simpl; lia).
  reflexivity.
Qed.

Lemma parse_value_minus (fuel : nat) (d : N) (r : text) :
  is_digit d = true ->
  parse_value (S fuel) (ch "-" :: d :: r)
  = match scan_number (ch "-" :: d :: r) with
    | Some (v, rest) => Parsed v rest
    | None => Malformed
    end.
Proof.
  intros H. apply digit_range in H.
  unfold parse_value; fold parse_value.
  change (N.eqb (ch "-") 34) with false.
  change (N.eqb (ch "-") (ch "{")) with false.
  change (N.eqb (ch "-") (ch "[")) with false.
  change (startswith (ch "-" :: d :: r) (T "null")) with false.
  change (startswith (ch "-" :: d :: r) (T "true")) with false.
  change (startswith (ch "-" :: d :: r) (T "false")) with false.
  change (startswith (ch "-" :: d :: r) (T "NaN")) with false.
  change (startswith (ch "-" :: d :: r) (T "Infinity")) with false.
  change (startswith (ch "-" :: d :: r) (T "-Infinity"))
    with (startswith (d :: r) (T "Infinity")).
  rewrite (startswith_first_false d r (T "Infinity"))
    by (apply N.eqb_neq; simpl; lia).
  reflexivity.
Qed.

Lemma digit_not_ws (c : N) :
  is_digit c = true -> is_json_ws c = false /\ N.eqb c (ch "]") = false.
Proof.
  intros H. apply digit_range in H. unfold is_json_ws.
  split; [|apply N.eqb_neq; simpl; lia].
  repeat (apply orb_false_iff; split); apply N.eqb_neq; lia.
Qed.

(** A float that is read back starts with a character of a value. *)
Lemma float_head (f : text) :
  float_reads_back f ->
  exists c r, f = c :: r /\ is_json_ws c = false /\ N.eqb c (ch "]") = false.
Proof.
  intros H. specialize (H 0 [] eq_refl). rewrite app_nil_r in H.
  destruct f as [|c r]; [discriminate|].
  exists c, r. split; [reflexivity|].
  destruct (is_json_ws c) eqn:Hw.
  - exfalso. unfold is_json_ws in Hw. rewrite !orb_true_iff, !N.eqb_eq in Hw.
    destruct Hw as [[[->| ->]| ->]| ->]; discriminate.
  - split; [reflexivity|].
    destruct (N.eqb c (ch "]")) eqn:Hc; [|reflexivity].
    apply N.eqb_eq in Hc. subst c. discriminate.
Qed.

(** What [json.dumps] writes starts with a character of a value. *)
Lemma dumps_head (v : json) :
  floats_read_back v ->
  exists c r,
    json_dumps v = c :: r /\ is_json_ws c = false /\ N.eqb c (ch "]") = false.
Proof.
  destruct v as [|[|]|z|f|s|items|members]; intros Hf;
    try (do 2 eexists; split; [reflexivity|now split]).
  - destruct z as [|p|p]; try (do 2 eexists; split; [reflexivity|now split]).
    destruct (to_uint_head p) as (d & r & Hu & Hh).
    exists d, r. split; [exact Hu|]. apply digit_not_ws.
    apply (in_range_weaken (lo := 49) (hi := 57)); [lia|lia|exact Hh].
  - inversion Hf as [|? ? Hff _]; subst. now apply float_head.
Qed.

Lemma reads_back_scalar :
  reads_back JNull /\ (forall b, reads_back (JBool b)).
Proof.
  split; [|intros [|]]; intros _ _ [|fuel] rest _ H;
    try (now destruct H); clear H.
  - pose proof (startswith_app (T "null") rest) as H.
    change (json_dumps JNull ++ rest) with (ch "n" :: T "ull" ++ rest).
    change (T "null" ++ rest) with (ch "n" :: T "ull" ++ rest) in H.
    unfold parse_value; fold parse_value.
    change (N.eqb (ch "n") 34) with false.
    change (N.eqb (ch "n") (ch "{")) with false.
    change (N.eqb (ch "n") (ch "[")) with false.
    cbv iota. now rewrite H.
  - pose proof (startswith_app (T "true") rest) as H.
    change (json_dumps (JBool true) ++ rest) with (ch "t" :: T "rue" ++ rest).
    change (T "true" ++ rest) with (ch "t" :: T "rue" ++ rest) in H.
    unfold parse_value; fold parse_value.
    change (N.eqb (ch "t") 34) with false.
    change (N.eqb (ch "t") (ch "{")) with false.
    change (N.eqb (ch "t") (ch "[")) with false.
    change (startswith (ch "t" :: T "rue" ++ rest) (T "null")) with false.
    cbv iota. now rewrite H.
  - pose proof (startswith_app (T "false") rest) as H.
    change (json_dumps (JBool false) ++ rest) with (ch "f" :: T "alse" ++ rest).
    change (T "false" ++ rest) with (ch "f" :: T "alse" ++ rest) in H.
    unfold parse_value; fold parse_value.
    change (N.eqb (ch "f") 34) with false.
    change (N.eqb (ch "f") (ch "{")) with false.
    change (N.eqb (ch "f") (ch "[")) with false.
    change (startswith (ch "f" :: T "alse" ++ rest) (T "null")) with false.
    change (startswith (ch "f" :: T "alse" ++ rest) (T "true")) with false.
    cbv iota. now rewrite H.
Qed.

Lemma reads_back_int (z : Z) : reads_back (JInt z).
Proof.
  intros _ _ [|fuel] rest Hr H; [now destruct H|]. clear H.
  pose proof (scan_int z rest Hr) as Hs. change (json_dumps (JInt z)) with (int_text z).
  change (norm (JInt z)) with (JInt z).
  destruct z as [|p|p].
  - change (int_text 0 ++ rest) with (48%N :: rest) in *.
    rewrite parse_value_digit by reflexivity. now rewrite Hs.
  - unfold int_text in *. simpl N.to_uint in *.
    destruct (to_uint_head p) as (d & r & Hu & Hh). rewrite Hu in *.
    cbn [app] in *. rewrite parse_value_digit; [now rewrite Hs|].
    apply (in_range_weaken (lo := 49) (hi := 57)); [lia|lia|exact Hh].
  - unfold int_text in *.
    destruct (to_uint_head p) as (d & r & Hu & Hh). rewrite Hu in *.
    cbn [app] in *. rewrite parse_value_minus; [now rewrite Hs|].
    apply (in_range_weaken (lo := 49) (hi := 57)); [lia|lia|exact Hh].
Qed.

Lemma reads_back_float (f : text) : reads_back (JFloat f).
Proof.
  intros _ Hf [|fuel] rest Hr H; [now destruct H|]. clear H.
  inversion Hf as [|? ? Hff _]; subst. now apply Hff.
Qed.

Lemma reads_back_str (s : text) : reads_back (JStr s).
Proof.
  intros Hp _ [|fuel] rest _ H; [now destruct H|]. clear H.
  change (json_dumps (JStr s)) with (34%N :: flat_map escape_char s ++ [34%N]).
  cbn [app]. rewrite <- app_assoc. cbn [app].
  rewrite parse_value_string, scan_quoted by exact Hp. reflexivity.
Qed.

End RoundTrip.

(** *** Lists and objects *)

Section Containers.

Context {floats : PyFloat}.

Lemma join_more (sep a b : text) (l : list text) :
  join sep (a :: b :: l) = a ++ sep ++ join sep (b :: l).
Proof. reflexivity. Qed.

(** The scanner gave a value, or ran out of fuel. *)
Lemma reads_back_or_out (v : json) (fuel : nat) (rest : text) :
  reads_back v -> sound v = true -> floats_read_back v ->
  delimited rest = true ->
  parse_value fuel (json_dumps v ++ rest) = OutOfFuel
  \/ parse_value fuel (json_dumps v ++ rest) = Parsed (norm v) rest.
Proof.
  intros Hv Hp Hf Hr.
  destruct (parse_value fuel (json_dumps v ++ rest)) eqn:H.
  - right. rewrite <- H. apply Hv; [exact Hp|exact Hf|exact Hr|]. now rewrite H.
  - right. rewrite <- H. apply Hv; [exact Hp|exact Hf|exact Hr|]. now rewrite H.
  - now left.
Qed.

(** Blanks before what [json.dumps] wrote for a list of values. *)
Lemma skip_ws_items (sep : text) (x : json) (more : list json) (rest : text) :
  floats_read_back x ->
  skip_ws (join sep (map json_dumps (x :: more)) ++ rest)
  = join sep (map json_dumps (x :: more)) ++ rest.
Proof.
  intros Hp. destruct (dumps_head Hp) as (c & r & Hd & Hw & _).
  destruct more as [|y more]; cbn [map]; [cbn [join]|rewrite join_more];
    rewrite Hd; cbn [app]; now apply skip_ws_head.
Qed.

Lemma floats_read_back_cons (x : json) (items : list json) :
  floats_read_back (JArr (x :: items)) ->
  floats_read_back x /\ floats_read_back (JArr items).
Proof.
  unfold floats_read_back. cbn [floats_in flat_map]. apply Forall_app.
Qed.

Lemma floats_read_back_member (k : text) (v : json)
    (members : list (text * json)) :
  floats_read_back (JObj ((k, v) :: members)) ->
  floats_read_back v /\ floats_read_back (JObj members).
Proof.
  unfold floats_read_back. cbn [floats_in flat_map snd]. apply Forall_app.
Qed.

Lemma parse_items_dumps (items : list json) :
  Forall (reads_back (floats := floats)) items ->
  forallb sound items = true ->
  floats_read_back (JArr items) ->
  items <> [] ->
  forall fuel acc rest,
    parse_items fuel (join (T ", ") (map json_dumps items) ++ ch "]" :: rest) acc
    <> OutOfFuel ->
    parse_items fuel (join (T ", ") (map json_dumps items) ++ ch "]" :: rest) acc
    = Parsed (JArr (rev acc ++ map norm items)) rest.
Proof.
  induction items as [|x items IH]; intros Hall Hp Hf Hne fuel acc rest;
    [contradiction|].
  inversion Hall as [|? ? Hx Hrest]; subst.
  simpl forallb in Hp. apply andb_true_iff in Hp as [Hpx Hpr].
  apply floats_read_back_cons in Hf as [Hfx Hfr].
  destruct fuel as [|fuel]; [intros H; now destruct H|].
  rewrite parse_items_S. destruct items as [|y more].
  - cbn [map join].
    destruct (reads_back_or_out fuel (ch "]" :: rest) Hx Hpx Hfx eq_refl)
      as [-> | ->]; [intros H; now destruct H|].
    intros _. rewrite skip_ws_head by reflexivity.
    rewrite N.eqb_refl. simpl rev. reflexivity.
  - cbn [map]. rewrite join_more. rewrite <- !app_assoc.
    change (T ", " ++ join (T ", ") (json_dumps y :: map json_dumps more)
            ++ ch "]" :: rest)
      with (ch "," :: ch " "
            :: join (T ", ") (map json_dumps (y :: more)) ++ ch "]" :: rest).
    destruct (reads_back_or_out fuel
                (ch "," :: ch " "
                 :: join (T ", ") (map json_dumps (y :: more)) ++ ch "]" :: rest)
                Hx Hpx Hfx eq_refl)
      as [-> | ->]; [intros H; now destruct H|].
    rewrite skip_ws_head by reflexivity.
    change (N.eqb (ch ",") (ch "]")) with false.
    change (N.eqb (ch ",") (ch ",")) with true. cbv iota.
    rewrite skip_ws_blank.
    destruct (floats_read_back_cons Hfr) as [Hfy _].
    rewrite skip_ws_items by exact Hfy.
    intros H. rewrite IH; try assumption.
    + simpl rev. now rewrite <- app_assoc.
    + discriminate.
Qed.

Lemma reads_back_list (items : list json) :
  Forall (reads_back (floats := floats)) items -> reads_back (JArr items).
Proof.
  intros Hall Hp Hf [|fuel] rest _; [intros H; now destruct H|].
  change (json_dumps (JArr items))
    with (ch "[" :: join (T ", ") (map json_dumps items) ++ [ch "]"]).
  cbn [app]. rewrite <- app_assoc. cbn [app].
  rewrite parse_value_array. cbn [sound] in Hp.
  destruct items as [|x more].
  - intros _. reflexivity.
  - destruct (floats_read_back_cons Hf) as [Hfx _].
    rewrite skip_ws_items by exact Hfx.
    destruct (dumps_head Hfx) as (c & r & Hd & _ & Hc).
    assert (Hj : exists r',
               join (T ", ") (map json_dumps (x :: more)) ++ ch "]" :: rest
               = c :: r').
    { destruct more as [|y more]; cbn [map]; [cbn [join]|rewrite join_more];
        rewrite Hd; cbn [app]; now eexists. }
    destruct Hj as [r' Hj]. rewrite Hj, Hc, <- Hj.
    intros H. rewrite parse_items_dumps; try assumption.
    + reflexivity.
    + discriminate.
Qed.

(** A key that is not in the dict goes to its end. *)
Lemma dict_set_fresh {V} (k : text) (v : V) (d : list (text * V)) :
  ~ In k (map fst d) -> dict_set k v d = d ++ [(k, v)].
Proof.
  induction d as [|[k' v'] d IH]; intros H; [reflexivity|].
  simpl in *. destruct (text_eqb k k') eqn:E.
  - apply text_eqb_eq in E. subst. tauto.
  - rewrite IH; [reflexivity|tauto].
Qed.

Lemma distinct_NoDup (keys : list text) :
  distinct keys = true -> NoDup keys.
Proof.
  induction keys as [|k keys IH]; intros H; [constructor|].
  simpl in H. apply andb_true_iff in H as [Hk Hr].
  constructor; [|now apply IH].
  intros Hin. apply negb_true_iff in Hk.
  assert (Ht : existsb (text_eqb k) keys = true).
  { apply existsb_exists. exists k. split; [exact Hin|apply text_eqb_refl]. }
  congruence.
Qed.

Lemma member_text_head (kv : text * json) (rest : text) :
  member_text kv ++ rest
  = 34%N :: flat_map escape_char (fst kv)
    ++ 34%N :: ch ":" :: ch " " :: json_dumps (snd kv) ++ rest.
Proof.
  unfold member_text, quote. cbn [app]. rewrite <- !app_assoc. reflexivity.
Qed.

Lemma skip_ws_members (kv : text * json) (more : list (text * json))
    (rest : text) :
  exists r,
    join (T ", ") (map member_text (kv :: more)) ++ rest = 34%N :: r
    /\ skip_ws (join (T ", ") (map member_text (kv :: more)) ++ rest)
       = join (T ", ") (map member_text (kv :: more)) ++ rest.
Proof.
  destruct more as [|kv' more]; cbn [map]; [cbn [join]|rewrite join_more];
    rewrite <- ?app_assoc; rewrite member_text_head; eexists;
    (split; [reflexivity|now apply skip_ws_head]).
Qed.

(** A member of an object with the pairs joined in its key and in its
    value. *)
Lemma parse_members_dumps (members : list (text * json)) :
  Forall (fun kv => reads_back (floats := floats) (snd kv)) members ->
  forallb (fun kv => is_str (fst kv) && sound (snd kv)) members = true ->
  floats_read_back (JObj members) ->
  members <> [] ->
  forall fuel acc rest,
    NoDup (map fst acc
           ++ map (fun kv => join_pairs (fst kv)) members) ->
    parse_members fuel
      (join (T ", ") (map member_text members) ++ ch "}" :: rest) acc
    <> OutOfFuel ->
    parse_members fuel
      (join (T ", ") (map member_text members) ++ ch "}" :: rest) acc
    = Parsed
        (JObj (acc ++ map (fun kv => (join_pairs (fst kv), norm (snd kv)))
                        members)) rest.
Proof.
  induction members as [|[k v] members IH];
    intros Hall Hp Hf Hne fuel acc rest Hd; [contradiction|].
  inversion Hall as [|? ? Hv Hrest]; subst. simpl in Hv.
  simpl forallb in Hp. apply andb_true_iff in Hp as [Hpk Hpr].
  apply andb_true_iff in Hpk as [Hpk Hpv]. simpl in Hpk, Hpv.
  apply floats_read_back_member in Hf as [Hfv Hfr].
  destruct fuel as [|fuel]; [intros H; now destruct H|].
  cbn [map fst snd] in Hd |- *.
  assert (Hfresh : dict_set (join_pairs k) (norm v) acc
                   = acc ++ [(join_pairs k, norm v)]).
  { apply dict_set_fresh. apply NoDup_remove_2 in Hd. intros Hin. apply Hd.
    apply in_or_app. now left. }
  assert (Hd' : NoDup (map fst (acc ++ [(join_pairs k, norm v)])
                       ++ map (fun kv => join_pairs (fst kv)) members)).
  { rewrite map_app. cbn [map fst]. now rewrite <- app_assoc. }
  destruct members as [|kv' more].
  - cbn [map join]. rewrite member_text_head. cbn [fst snd].
    rewrite parse_members_S, scan_quoted by exact Hpk. cbn [rev app].
    rewrite skip_ws_head by reflexivity. rewrite N.eqb_refl.
    rewrite skip_ws_blank.
    destruct (dumps_head Hfv) as (c & r & Hdv & Hw & _).
    rewrite Hdv. cbn [app]. rewrite skip_ws_head by exact Hw.
    change (c :: r ++ ch "}" :: rest) with ((c :: r) ++ ch "}" :: rest).
    rewrite <- Hdv.
    destruct (reads_back_or_out fuel (ch "}" :: rest) Hv Hpv Hfv eq_refl)
      as [-> | ->]; [intros H; now destruct H|].
    intros _. rewrite skip_ws_head by reflexivity. rewrite N.eqb_refl.
    now rewrite Hfresh.
  - cbn [map] in Hd' |- *. rewrite join_more. rewrite <- !app_assoc.
    rewrite member_text_head. cbn [fst snd].
    rewrite parse_members_S, scan_quoted by exact Hpk. cbn [rev app].
    rewrite skip_ws_head by reflexivity. rewrite N.eqb_refl.
    rewrite skip_ws_blank.
    destruct (dumps_head Hfv) as (c & r & Hdv & Hw & _).
    rewrite Hdv. cbn [app]. rewrite skip_ws_head by exact Hw.
    change (c :: r ++ T ", " ++ join (T ", ")
                                  (member_text kv' :: map member_text more)
              ++ ch "}" :: rest)
      with ((c :: r)
            ++ ch "," :: ch " "
               :: join (T ", ") (map member_text (kv' :: more))
                  ++ ch "}" :: rest).
    rewrite <- Hdv.
    destruct (reads_back_or_out fuel
                (ch "," :: ch " "
                 :: join (T ", ") (map member_text (kv' :: more))
                    ++ ch "}" :: rest)
                Hv Hpv Hfv eq_refl)
      as [-> | ->]; [intros H; now destruct H|].
    rewrite skip_ws_head by reflexivity.
    change (N.eqb (ch ",") (ch "}")) with false.
    change (N.eqb (ch ",") (ch ",")) with true. cbv iota.
    rewrite skip_ws_blank.
    destruct (skip_ws_members kv' more (ch "}" :: rest)) as (r' & _ & ->).
    rewrite Hfresh. intros H. rewrite IH; try assumption.
    + now rewrite <- app_assoc.
    + discriminate.
Qed.

Lemma reads_back_object (members : list (text * json)) :
  Forall (fun kv => reads_back (floats := floats) (snd kv)) members ->
  reads_back (JObj members).
Proof.
  intros Hall Hp Hf [|fuel] rest _; [intros H; now destruct H|].
  change (json_dumps (JObj members))
    with (ch "{" :: join (T ", ") (map member_text members) ++ [ch "}"]).
  cbn [app]. rewrite <- app_assoc. cbn [app].
  rewrite parse_value_object. cbn [sound] in Hp.
  apply andb_true_iff in Hp as [Hp Hd]. apply distinct_NoDup in Hd.
  destruct members as [|kv more].
  - intros _. reflexivity.
  - destruct (skip_ws_members kv more (ch "}" :: rest)) as (r' & Hj & ->).
    rewrite Hj. change (N.eqb 34 (ch "}")) with false. cbv iota.
    rewrite <- Hj.
    intros H. rewrite parse_members_dumps; try assumption.
    + reflexivity.
    + discriminate.
Qed.

(** Every value is read back, with its pairs joined. *)
Lemma reads_back_all (v : json) : reads_back v.
Proof.
  induction v using json_induction.
  - apply reads_back_scalar.
  - apply reads_back_scalar.
  - apply reads_back_int.
  - apply reads_back_float.
  - apply reads_back_str.
  - now apply reads_back_list.
  - now apply reads_back_object.
Qed.

(** [json.loads(json.dumps(v))] is [v] with its pairs joined. *)
Lemma dumps_loads_norm (v : json) :
  sound v = true -> floats_read_back v ->
  json_loads (json_dumps v) = Ok (norm v).
Proof.
  intros Hp Hfl. unfold json_loads.
  destruct (dumps_head Hfl) as (c & r & Hd & Hw & _).
  assert (Hs : skip_ws (json_dumps v) = json_dumps v)
    by (rewrite Hd; now apply skip_ws_head).
  pose proof (json_loads_fuel (json_dumps v)) as Hf. rewrite Hs in *.
  generalize dependent (2 * length (json_dumps v) + 1). intros fuel Hf.
  rewrite <- (app_nil_r (json_dumps v)) in Hf |- *.
  rewrite (@reads_back_all v Hp Hfl) by (reflexivity || exact Hf). reflexivity.
Qed.

(** A plain value is sound, holds no float and no pair. *)
Lemma plain_sound (v : json) :
  plain v = true -> sound v = true /\ floats_in v = [] /\ norm v = v.
Proof.
  induction v as [| | |f|s|items IH|members IH] using json_induction;
    intros Hp; try (now repeat split); try discriminate.
  - apply plain_text_str in Hp as [H1 H2]. cbn [sound norm floats_in].
    now rewrite H2.
  - cbn [plain sound norm floats_in] in *.
    induction IH as [|x items Hx _ IHi]; [now repeat split|].
    cbn [forallb] in Hp. apply andb_true_iff in Hp as [Hpx Hpr].
    destruct (Hx Hpx) as (H1 & H2 & H3).
    destruct (IHi Hpr) as (H4 & H5 & H6).
    cbn [forallb flat_map map]. rewrite H1, H2, H3, H4, H5.
    injection H6 as H6. now rewrite H6.
  - cbn [plain sound norm floats_in] in *.
    apply andb_true_iff in Hp as [Hp Hd].
    assert (H : forallb (fun kv => is_str (fst kv) && sound (snd kv)) members
                = true
                /\ flat_map (fun kv => floats_in (snd kv)) members = []
                /\ map (fun kv => (join_pairs (fst kv), norm (snd kv))) members
                   = members).
    { clear Hd. induction IH as [|[k x] members Hx _ IHm]; [now repeat split|].
      cbn [forallb fst snd] in Hp. apply andb_true_iff in Hp as [Hkx Hpr].
      apply andb_true_iff in Hkx as [Hk Hpx]. cbn [snd] in Hx.
      destruct (Hx Hpx) as (H1 & H2 & H3).
      destruct (IHm Hpr) as (H4 & H5 & H6).
      apply plain_text_str in Hk as [Hk1 Hk2].
      cbn [forallb flat_map map fst snd].
      now rewrite Hk1, Hk2, H1, H2, H3, H4, H5, H6. }
    destruct H as (H1 & H2 & H3). rewrite H1, H2, H3. cbn [andb].
    split; [|now split].
    replace (map (fun kv : text * json => join_pairs (fst kv)) members)
      with (map fst members); [exact Hd|].
    rewrite <- H3 at 1. rewrite map_map. reflexivity.
Qed.

(** [json.loads(json.dumps(v))] is [v] when [v] is plain. *)
Lemma dumps_loads (v : json) :
  plain v = true -> json_loads (json_dumps v) = Ok v.
Proof.
  intros Hp. destruct (plain_sound v Hp) as (H1 & H2 & H3).
  rewrite dumps_loads_norm; [now rewrite H3|exact H1|].
  unfold floats_read_back. rewrite H2. constructor.
Qed.

End Containers.

(** *** Reconciliation keeps values plain *)

Lemma dict_set_key_in {V} (k a : text) (v : V) (d : list (text * V)) :
  In a (map fst (dict_set k v d)) -> In a (map fst d) \/ a = k.
Proof.
  induction d as [|[k' v'] d IH]; simpl.
  - intros [<-|[]]. now right.
  - destruct (text_eqb k k'); simpl; [tauto|].
    intros [<-|H]; [tauto|]. apply IH in H. tauto.
Qed.

Lemma dict_set_NoDup {V} (k : text) (v : V) (d : list (text * V)) :
  NoDup (map fst d) -> NoDup (map fst (dict_set k v d)).
Proof.
  induction d as [|[k' v'] d IH]; simpl; intros H.
  - constructor; [intros []|constructor].
  - destruct (text_eqb k k') eqn:E; simpl; [exact H|].
    inversion H as [|? ? Hn Hd]; subst. constructor; [|now apply IH].
    intros Hin. apply dict_set_key_in in Hin as [Hin| ->]; [contradiction|].
    rewrite text_eqb_refl in E. discriminate.
Qed.

Lemma NoDup_distinct (keys : list text) : NoDup keys -> distinct keys = true.
Proof.
  induction 1 as [|k keys Hn _ IH]; [reflexivity|].
  simpl. rewrite IH, andb_true_r. apply negb_true_iff.
  destruct (existsb (text_eqb k) keys) eqn:E; [|reflexivity].
  apply existsb_exists in E as (x & Hin & Hx).
  apply text_eqb_eq in Hx. now subst.
Qed.

Lemma plain_dict_set (k : text) (x : json) (m : list (text * json)) :
  plain (JObj m) = true -> plain_text k = true -> plain x = true ->
  plain (JObj (dict_set k x m)) = true.
Proof.
  cbn [plain]. rewrite !andb_true_iff. intros [Hm Hd] Hk Hx. split.
  - clear Hd. induction m as [|[k' v'] m IH]; simpl.
    + now rewrite Hk, Hx.
    + simpl in Hm. apply andb_true_iff in Hm as [Hkv Hm].
      apply andb_true_iff in Hkv as [Hk' Hv'].
      destruct (text_eqb k k'); simpl.
      * now rewrite Hk', Hx, Hm.
      * now rewrite Hk', Hv', IH.
  - apply NoDup_distinct, dict_set_NoDup. now apply distinct_NoDup.
Qed.

Lemma plain_dict_get (k : text) (x : json) (m : list (text * json)) :
  plain (JObj m) = true -> dict_get k m = Some x -> plain x = true.
Proof.
  cbn [plain]. rewrite andb_true_iff. intros [Hm _].
  induction m as [|[k' v'] m IH]; simpl; [discriminate|].
  simpl in Hm. apply andb_true_iff in Hm as [Hkv Hm].
  apply andb_true_iff in Hkv as [_ Hv'].
  destruct (text_eqb k k'); [now intros [= <-]|now apply IH].
Qed.

Lemma plain_text_app (a b : text) :
  plain_text (a ++ b) = plain_text a && plain_text b.
Proof. apply forallb_app. Qed.

Lemma plain_field_name (field : field_dict) :
  plain_field field = true -> plain_text (field_name field) = true.
Proof.
  unfold plain_field, field_name. rewrite andb_true_iff. intros [H _].
  induction field as [|[k v] field IH]; [reflexivity|].
  cbn [forallb fst snd dict_get] in *. apply andb_true_iff in H as [Hkv H].
  apply andb_true_iff in Hkv as [_ Hv].
  destruct (text_eqb (T "name") k); [exact Hv|now apply IH].
Qed.

Section PlainReferences.

Context {floats : PyFloat}.
Variable E : env.
Hypothesis plain_rand : forall k, plain_text (rand_str E k) = true.

Lemma gw_field_plain (field : field_dict) (n : nat) :
  plain_field field = true ->
  plain (gw_field E field (field_name field) n) = true.
Proof.
  intros Hf. pose proof (plain_field_name field Hf) as Hn.
  unfold gw_field. apply plain_dict_set; [apply plain_dict_set| |].
  - unfold plain_field in Hf. apply andb_true_iff in Hf as [Hkv Hd].
    assert (Hk : map fst (map (fun kv : text * text => (fst kv, JStr (snd kv)))
                            field) = map fst field)
      by (rewrite map_map; reflexivity).
    cbn [plain]. rewrite Hk, Hd, andb_true_r. clear -Hkv.
    induction field as [|[k v] field IH]; [reflexivity|].
    cbn [map forallb fst snd plain] in *.
    apply andb_true_iff in Hkv as [-> Hkv]. now apply IH.
  - reflexivity.
  - exact Hn.
  - reflexivity.
  - cbn [plain]. rewrite plain_text_app. now rewrite plain_rand.
Qed.

Lemma gw_fields_plain (fields : list field_dict) :
  forallb plain_field fields = true ->
  forall n, forallb (fun p => plain (snd p)) (gw_fields E fields n) = true.
Proof.
  induction fields as [|f rest IH]; intros H n; [reflexivity|].
  cbn [forallb] in H. apply andb_true_iff in H as [Hf Hr].
  cbn [gw_fields forallb snd]. now rewrite gw_field_plain, IH.
Qed.

Lemma references_plain (all_fields : list field_dict) (set : list json)
    (n : nat) (keep : field_dict * json -> bool) :
  forallb plain_field all_fields = true ->
  forallb plain
    (map snd (filter keep (gw_fields E (filter (absent set) all_fields) n)))
  = true.
Proof.
  intros H. apply forallb_forall. intros v Hv.
  apply in_map_iff in Hv as (p & <- & Hp). apply filter_In in Hp as [Hp _].
  assert (Hg : forallb (fun p => plain (snd p))
                 (gw_fields E (filter (absent set) all_fields) n) = true).
  { apply gw_fields_plain. apply forallb_forall. intros f Hf.
    apply filter_In in Hf as [Hf _].
    rewrite forallb_forall in H. now apply H. }
  rewrite forallb_forall in Hg. now apply Hg.
Qed.

Lemma fill_item_plain (all_fields : list field_dict) (item item' : json)
    (n n' : nat) :
  forallb plain_field all_fields = true ->
  plain item = true ->
  fill_item E all_fields item n = Ok (item', n') ->
  plain item' = true.
Proof.
  intros Hf Hp H. apply fill_item_closed in H.
  destruct H as (m & enc & dims & meas & set & -> & Henc & Hdims & Hmeas
                 & _ & -> & _).
  pose proof (plain_dict_get _ _ Hp Henc) as Hpe.
  pose proof (plain_dict_get _ _ Hpe Hdims) as Hpd.
  pose proof (plain_dict_get _ _ Hpe Hmeas) as Hpm.
  apply plain_dict_set; [exact Hp|reflexivity|].
  apply plain_dict_set; [apply plain_dict_set; [exact Hpe|reflexivity|]
                        |reflexivity|].
  - cbn [plain] in *. rewrite forallb_app, Hpd. now apply references_plain.
  - cbn [plain] in *. rewrite forallb_app, Hpm. now apply references_plain.
Qed.

Lemma fill_items_plain (all_fields : list field_dict) (items : list json) :
  forallb plain_field all_fields = true ->
  forallb plain items = true ->
  forall n items' n',
    fill_items E all_fields items n = Ok (items', n') ->
    forallb plain items' = true.
Proof.
  intros Hf. induction items as [|item rest IH]; intros Hp n items' n' H.
  - now injection H as <- <-.
  - simpl in Hp. apply andb_true_iff in Hp as [Hpi Hpr]. simpl in H.
    apply rbind_ok in H as ([item' n1] & Hi & H).
    apply rbind_ok in H as ([rest' n2] & Hr & H).
    injection H as <- <-. simpl.
    rewrite (fill_item_plain _ _ _ Hf Hpi Hi). now apply IH in Hr.
Qed.

Lemma filled_plain (all_fields : list field_dict) (obj obj' : json)
    (n n' : nat) :
  forallb plain_field all_fields = true ->
  plain obj = true ->
  filled E all_fields obj n = Ok (obj', n') ->
  plain obj' = true.
Proof.
  unfold filled. intros Hf Hp H.
  apply rbind_ok in H as (items & Hi & H).
  apply rbind_ok in H as ([items' n1] & Hfi & H).
  destruct obj; try discriminate; injection H as <- <-; try exact Hp.
  injection Hi as <-. cbn [plain] in *. now apply fill_items_plain in Hfi.
Qed.

End PlainReferences.

(** ** What the reconciler writes can be read *)

Section Written.

Context {floats : PyFloat}.
Variable E : env.

(** X21. On plain data (a configuration without floats, texts without
    surrogates, no key twice in an object or in a dataset field, random
    strings without surrogates) the text that [fill_new_fields] returns is
    JSON: [json.loads] reads it as the reconciled configuration, and the
    source classifier takes it for literal JSON. *)
Theorem reconciler_output_reads_back (config : text) (config_obj : json)
    (all_fields : list field_dict) (n : nat) (out : text) (n' : nat) :
  json_loads config = Ok config_obj ->
  plain config_obj = true ->
  forallb plain_field all_fields = true ->
  (forall k, plain_text (rand_str E k) = true) ->
  fill_new_fields E config all_fields n = Ok (out, n') ->
  exists obj,
    reconciled E config all_fields n = Ok obj
    /\ out = json_dumps obj
    /\ json_loads out = Ok obj
    /\ _is_json out = Ok true.
Proof.
  intros Hl Hp Hf Hr H. unfold fill_new_fields, reconciled in *.
  rewrite Hl in *. cbn [rbind] in *.
  apply rbind_ok in H as ([obj n1] & Hfi & H). injection H as <- <-.
  exists obj. rewrite Hfi. cbn [rbind].
  assert (Hd : json_loads (json_dumps obj) = Ok obj).
  { apply dumps_loads. eapply filled_plain; eassumption. }
  repeat split; [exact Hd|]. now rewrite _is_json_loads, Hd.
Qed.

(** X22. On plain data, reconciliation is idempotent: reconciling the text
    that [fill_new_fields] returned, with the same dataset fields, returns
    that text again and draws no random string. *)
Theorem reconciliation_idempotent_plain (config : text) (config_obj : json)
    (all_fields : list field_dict) (n : nat) (out : text) (n' : nat) :
  json_loads config = Ok config_obj ->
  plain config_obj = true ->
  forallb plain_field all_fields = true ->
  (forall k, plain_text (rand_str E k) = true) ->
  fill_new_fields E config all_fields n = Ok (out, n') ->
  forall k, fill_new_fields E out all_fields k = Ok (out, k).
Proof.
  intros Hl Hp Hf Hr H k. unfold fill_new_fields in *.
  rewrite Hl in H. cbn [rbind] in H.
  apply rbind_ok in H as ([obj n1] & Hfi & H). injection H as <- <-.
  rewrite dumps_loads by (eapply filled_plain; eassumption).
  cbn [rbind].
  now rewrite (@filled_again _ E all_fields config_obj obj n n1 Hfi k).
Qed.

End Written.

(** The random strings of the sample environment are plain. *)
Lemma sample_rand_plain (mode : text) (response : result text) (k : nat) :
  plain_text (rand_str (sample_env mode response) k) = true.
Proof.
  simpl rand_str. cbn [plain_text forallb]. apply andb_true_iff.
  split; [reflexivity|].
  assert (H : forall u, forallb plain_char (uint_text u) = true).
  { intros u. apply forallb_forall. intros c Hc.
    pose proof (uint_text_digits u) as Hd. rewrite Forall_forall in Hd.
    apply Hd, digit_range in Hc. unfold plain_char.
    rewrite in_range_false by lia. apply N.ltb_lt. lia. }
  destruct (Z.of_nat k) eqn:Hz; try apply H; lia.
Qed.

(** A chart that lists the dimension [a1], and a dataset that has [a1], a
    measure [b] and a dimension [c]: what is written is read back. *)
Lemma reconciler_output_reads_back_witness :
  let E := sample_env (T "online") (Raise URLError) in
  let config :=
    Q "[{'encodings': {'dimensions': [{'fid': 'a1', 'name': 'x'}], 'measures': [], 'rows': []}}]" in
  let all_fields :=
    [[(T "fid", T "a1"); (T "name", T "x"); (T "analyticType", T "dimension")];
     [(T "fid", T "b"); (T "name", T "y"); (T "analyticType", T "measure")];
     [(T "fid", T "c"); (T "name", T "z"); (T "analyticType", T "dimension")]] in
  exists out n' obj,
    fill_new_fields E config all_fields 0 = Ok (out, n')
    /\ reconciled E config all_fields 0 = Ok obj
    /\ json_loads out = Ok obj
    /\ _is_json out = Ok true.
Proof.
  intros E config all_fields.
  destruct (fill_new_fields E config all_fields 0) as [[out n']|e] eqn:H;
    [|vm_compute in H; discriminate].
  destruct (json_loads config) as [config_obj|e] eqn:Hl;
    [|vm_compute in Hl; discriminate].
  pose proof Hl as Hl'. vm_compute in Hl'. injection Hl' as <-.
  destruct (@reconciler_output_reads_back _ E config _ all_fields 0 out n' Hl)
    as (obj & H1 & _ & H2 & H3); try reflexivity; try exact H.
  - apply sample_rand_plain.
  - now exists out, n', obj.
Defined.

(** The same chart and dataset: the second reconciliation returns the text
    of the first. *)
Lemma reconciliation_idempotent_plain_witness :
  let E := sample_env (T "online") (Raise URLError) in
  let config :=
    Q "[{'encodings': {'dimensions': [{'fid': 'a1', 'name': 'x'}], 'measures': [], 'rows': []}}]" in
  let all_fields :=
    [[(T "fid", T "a1"); (T "name", T "x"); (T "analyticType", T "dimension")];
     [(T "fid", T "b"); (T "name", T "y"); (T "analyticType", T "measure")];
     [(T "fid", T "c"); (T "name", T "z"); (T "analyticType", T "dimension")]] in
  exists out n',
    fill_new_fields E config all_fields 0 = Ok (out, n')
    /\ fill_new_fields E out all_fields 5 = Ok (out, 5).
Proof.
  intros E config all_fields.
  destruct (fill_new_fields E config all_fields 0) as [[out n']|e] eqn:H;
    [|vm_compute in H; discriminate].
  destruct (json_loads config) as [config_obj|e] eqn:Hl;
    [|vm_compute in Hl; discriminate].
  pose proof Hl as Hl'. vm_compute in Hl'. injection Hl' as <-.
  exists out, n'. split; [reflexivity|].
  apply (@reconciliation_idempotent_plain _ E config _ all_fields 0 out n' Hl);
    try reflexivity; try exact H.
  apply sample_rand_plain.
Defined.

(** ** Reconciling what the reconciler wrote *)

(** What [json.dumps] writes for a value is what it writes for the value
    with its pairs joined. *)
Lemma dumps_norm (v : json) : json_dumps (norm v) = json_dumps v.
Proof.
  induction v as [| | | |s|items IH|members IH] using json_induction;
    try reflexivity.
  - cbn [norm json_dumps]. unfold quote.
    now rewrite (proj1 (escape_joined s)).
  - cbn [norm json_dumps]. do 3 f_equal.
    induction IH as [|x items Hx _ IHi]; [reflexivity|].
    cbn [map]. now rewrite Hx, IHi.
  - cbn [norm json_dumps]. do 3 f_equal.
    induction IH as [|[k x] members Hx _ IHm]; [reflexivity|].
    cbn [map fst snd] in *. rewrite Hx, IHm. unfold quote.
    now rewrite (proj1 (escape_joined k)).
Qed.

(** A text below the surrogates is equal to a text with its pairs joined
    only when it is equal to the text. *)
Lemma text_eqb_joined (s : text) :
  (forall k, Forall (fun c => (c < 55296)%N) k ->
             text_eqb k (join_pairs s) = text_eqb k s)
  /\ (forall c k, Forall (fun c => (c < 55296)%N) k ->
                  text_eqb k (join_pairs (c :: s)) = text_eqb k (c :: s)).
Proof.
  induction s as [|d s [IH1 IH2]].
  - split; intros; reflexivity.
  - split; [apply IH2|]. intros c k Hk.
    destruct (is_high_surrogate c && is_low_surrogate d) eqn:Hp.
    + apply andb_true_iff in Hp as [Hh Hl].
      rewrite join_pairs_pair by assumption.
      destruct k as [|a k]; [reflexivity|].
      inversion Hk as [|? ? Ha _]; subst. apply high_range in Hh.
      cbn [text_eqb].
      replace (N.eqb a (join_surrogates c d)) with false
        by (symmetry; apply N.eqb_neq; unfold join_surrogates; lia).
      replace (N.eqb a c) with false by (symmetry; apply N.eqb_neq; lia).
      reflexivity.
    + rewrite join_pairs_apart by exact Hp.
      destruct k as [|a k]; [reflexivity|].
      inversion Hk as [|? ? Ha Hk']; subst.
      cbn [text_eqb]. now rewrite IH2.
Qed.

Lemma dict_get_norm (k : text) (m : list (text * json)) :
  Forall (fun c => (c < 55296)%N) k ->
  dict_get k (map (fun kv => (join_pairs (fst kv), norm (snd kv))) m)
  = option_map norm (dict_get k m).
Proof.
  intros Hk. induction m as [|[k' v] m IH]; [reflexivity|].
  cbn [map dict_get fst snd].
  rewrite (proj1 (text_eqb_joined k') k Hk).
  destruct (text_eqb k k'); [reflexivity|exact IH].
Qed.

Lemma getitem_norm (v : json) (k : text) (x : json) :
  Forall (fun c => (c < 55296)%N) k ->
  getitem v k = Ok x -> getitem (norm v) k = Ok (norm x).
Proof.
  intros Hk H. apply getitem_ok in H as (m & -> & Hm).
  cbn [norm getitem]. now rewrite dict_get_norm, Hm.
Qed.

Ltac low_text := repeat constructor.

Lemma field_set_norm (fields set : list json) :
  field_set fields = Ok set -> field_set (map norm fields) = Ok (map norm set).
Proof.
  revert set. induction fields as [|f fields IH]; intros set H.
  - now injection H as <-.
  - rewrite field_set_cons in H.
    apply rbind_ok in H as (fid & Hf & H).
    destruct (hashable fid) eqn:Hh; [|discriminate].
    apply rbind_ok in H as (set' & Hs & H). injection H as <-.
    cbn [map]. rewrite field_set_cons.
    rewrite (getitem_norm (k := T "fid") f) with (x := fid);
      [|low_text|exact Hf].
    cbn [rbind].
    replace (hashable (norm fid)) with true by (now destruct fid).
    rewrite (IH _ Hs). reflexivity.
Qed.

(** A field that is present in a chart item is present in the item with
    its pairs joined, when its fid holds no pair. *)
Lemma present_norm (set : list json) (field : field_dict) :
  fid_unpaired field = true ->
  present set field = true -> present (map norm set) field = true.
Proof.
  unfold fid_unpaired, present.
  destruct (dict_get (T "fid") field) as [fid|]; [|discriminate].
  intros Hu Hp. apply negb_true_iff in Hu.
  unfold in_field_set in Hp. apply existsb_exists in Hp as (g & Hin & Hg).
  apply key_eqb_str in Hg. subst g.
  apply in_field_set_in. apply in_map_iff. exists (JStr fid).
  split; [|exact Hin]. cbn [norm]. now rewrite join_pairs_unpaired.
Qed.

Lemma settled_norm (all_fields : list field_dict) (item : json) :
  forallb fid_unpaired all_fields = true ->
  settled all_fields item = true ->
  settled all_fields (norm item) = true.
Proof.
  intros Hu. unfold settled, channel, item_fids, item_fields. intros H.
  destruct item as [| | | | | |m]; try discriminate.
  destruct (dict_get (T "encodings") m) as [[| | | | | |enc]|] eqn:He;
    try discriminate.
  destruct (dict_get (T "dimensions") enc) as [[| | | | |dims|]|] eqn:Hd;
    try discriminate.
  destruct (dict_get (T "measures") enc) as [[| | | | |meas|]|] eqn:Hm;
    try discriminate.
  cbn [getitem] in H. rewrite He in H. cbn [rbind getitem] in H.
  rewrite Hd, Hm in H. cbn [rbind iterate_sum] in H.
  destruct (field_set (dims ++ meas)) as [set|e] eqn:Hs; [|discriminate].
  cbn [norm getitem].
  rewrite (dict_get_norm (k := T "encodings")), He by low_text.
  cbn [option_map norm rbind getitem].
  rewrite (dict_get_norm (k := T "dimensions")), Hd by low_text.
  rewrite (dict_get_norm (k := T "measures")), Hm by low_text.
  cbn [option_map norm rbind iterate_sum]. rewrite <- map_app.
  rewrite (@field_set_norm _ _ Hs).
  apply forallb_forall. intros f Hf.
  rewrite forallb_forall in H, Hu. apply present_norm; auto.
Qed.

Lemma sound_dict_get (k : text) (x : json) (m : list (text * json)) :
  sound (JObj m) = true -> dict_get k m = Some x -> sound x = true.
Proof.
  cbn [sound]. rewrite andb_true_iff. intros [Hm _].
  induction m as [|[k' v'] m IH]; simpl; [discriminate|].
  simpl in Hm. apply andb_true_iff in Hm as [Hkv Hm].
  apply andb_true_iff in Hkv as [_ Hv'].
  destruct (text_eqb k k'); [now intros [= <-]|now apply IH].
Qed.

Lemma is_str_low (k : text) :
  Forall (fun c => (c < 55296)%N) k -> is_str k = true /\ join_pairs k = k.
Proof.
  induction 1 as [|c k Hc _ [IH1 IH2]]; [now split|]. split.
  - cbn [is_str forallb]. apply andb_true_iff. split; [|exact IH1].
    apply N.ltb_lt. lia.
  - rewrite join_pairs_other, IH2; [reflexivity|].
    unfold is_high_surrogate. apply in_range_false. lia.
Qed.

(** The keys of a dict stay apart when a key below the surrogates is
    set. *)
Lemma keys_apart_set {V W} (f : V -> W) (k : text) (x : V)
    (m : list (text * V)) :
  Forall (fun c => (c < 55296)%N) k ->
  NoDup (map (fun kv => join_pairs (fst kv)) m) ->
  NoDup (map (fun kv => join_pairs (fst kv)) (dict_set k x m)).
Proof.
  intros Hk. induction m as [|[k' v'] m IH]; intros H.
  - cbn [dict_set map]. constructor; [intros []|constructor].
  - cbn [dict_set]. destruct (text_eqb k k') eqn:E; [exact H|].
    cbn [map fst] in *. inversion H as [|? ? Hn Hd]; subst.
    constructor; [|now apply IH].
    intros Hin. apply in_map_iff in Hin as ([k2 v2] & Hj & Hin).
    cbn [fst] in Hj.
    assert (Hk2 : In k2 (map fst (dict_set k x m)))
      by (apply in_map_iff; now exists (k2, v2)).
    apply dict_set_key_in in Hk2 as [Hk2| ->].
    + apply Hn. apply in_map_iff in Hk2 as ([k3 v3] & <- & Hin3).
      apply in_map_iff. exists (k3, v3). now split.
    + pose proof (proj1 (text_eqb_joined k') k Hk) as Ht.
      rewrite <- Hj in Ht. rewrite (proj2 (is_str_low Hk)) in Ht.
      rewrite text_eqb_refl, E in Ht. discriminate.
Qed.

Lemma sound_dict_set (k : text) (x : json) (m : list (text * json)) :
  Forall (fun c => (c < 55296)%N) k ->
  sound (JObj m) = true -> sound x = true ->
  sound (JObj (dict_set k x m)) = true.
Proof.
  intros Hk. cbn [sound]. rewrite !andb_true_iff. intros [Hm Hd] Hx. split.
  - clear Hd. destruct (is_str_low Hk) as [Hs _].
    induction m as [|[k' v'] m IH]; simpl.
    + now rewrite Hs, Hx.
    + simpl in Hm. apply andb_true_iff in Hm as [Hkv Hm].
      apply andb_true_iff in Hkv as [Hk' Hv'].
      destruct (text_eqb k k'); simpl.
      * now rewrite Hk', Hx, Hm.
      * now rewrite Hk', Hv', IH.
  - apply NoDup_distinct. apply (keys_apart_set (fun v => v)); [exact Hk|].
    now apply distinct_NoDup.
Qed.

Lemma sound_field_name (field : field_dict) :
  sound_field field = true -> is_str (field_name field) = true.
Proof.
  unfold sound_field, str_field, field_name. rewrite andb_true_iff.
  intros [H _].
  induction field as [|[k v] field IH]; [reflexivity|].
  cbn [forallb fst snd dict_get] in *. apply andb_true_iff in H as [Hkv H].
  apply andb_true_iff in Hkv as [_ Hv].
  destruct (text_eqb (T "name") k); [exact Hv|now apply IH].
Qed.

Lemma floats_read_back_get {floats : PyFloat} (k : text) (x : json)
    (m : list (text * json)) :
  floats_read_back (JObj m) -> dict_get k m = Some x -> floats_read_back x.
Proof.
  unfold floats_read_back. cbn [floats_in].
  induction m as [|[k' v'] m IH]; [discriminate|].
  cbn [flat_map snd dict_get]. intros H. apply Forall_app in H as [Hv Hm].
  destruct (text_eqb k k'); [now intros [= <-]|now apply IH].
Qed.

Lemma floats_read_back_set {floats : PyFloat} (k : text) (x : json)
    (m : list (text * json)) :
  floats_read_back (JObj m) -> floats_read_back x ->
  floats_read_back (JObj (dict_set k x m)).
Proof.
  unfold floats_read_back. cbn [floats_in]. intros Hm Hx.
  induction m as [|[k' v'] m IH].
  - cbn [dict_set flat_map snd]. now rewrite app_nil_r.
  - cbn [flat_map snd] in Hm. apply Forall_app in Hm as [Hv Hm].
    cbn [dict_set]. destruct (text_eqb k k'); cbn [flat_map snd];
      apply Forall_app; split; auto.
Qed.

Section SoundReferences.

Context {floats : PyFloat}.
Variable E : env.
Hypothesis rand_is_str : forall k, is_str (rand_str E k) = true.

Lemma gw_field_sound (field : field_dict) (n : nat) :
  sound_field field = true ->
  sound (gw_field E field (field_name field) n) = true
  /\ floats_in (gw_field E field (field_name field) n) = [].
Proof.
  intros Hf. pose proof (sound_field_name field Hf) as Hn.
  unfold sound_field, str_field, keys_apart in Hf.
  apply andb_true_iff in Hf as [Hkv Hd].
  set (base := map (fun kv : text * text => (fst kv, JStr (snd kv))) field).
  assert (Hb : sound (JObj base) = true).
  { assert (Hk : map (fun kv : text * json => join_pairs (fst kv)) base
                 = map (fun kv : text * text => join_pairs (fst kv)) field)
      by (unfold base; rewrite map_map; reflexivity).
    cbn [sound]. rewrite Hk, Hd, andb_true_r. unfold base. clear -Hkv.
    induction field as [|[k v] field IH]; [reflexivity|].
    cbn [map forallb fst snd sound] in *.
    apply andb_true_iff in Hkv as [-> Hkv]. now apply IH. }
  split.
  - unfold gw_field. fold base.
    apply sound_dict_set; [low_text|apply sound_dict_set; [low_text|exact Hb|]|].
    + exact Hn.
    + cbn [sound]. unfold is_str. rewrite forallb_app.
      fold (is_str (rand_str E n)). now rewrite rand_is_str.
  - unfold gw_field. fold base.
    assert (Hfl : forall m : list (text * json),
               flat_map (fun kv => floats_in (snd kv)) m = [] ->
               forall k s,
                 flat_map (fun kv => floats_in (snd kv)) (dict_set k (JStr s) m)
                 = []).
    { intros m Hm k s. induction m as [|[k' v'] m IH]; [reflexivity|].
      cbn [flat_map snd] in Hm. apply app_eq_nil in Hm as [Hv Hm].
      cbn [dict_set]. destruct (text_eqb k k'); cbn [flat_map snd floats_in].
      - exact Hm.
      - now rewrite Hv, IH. }
    cbn [floats_in]. apply Hfl, Hfl. unfold base. clear.
    induction field as [|[k v] field IH]; [reflexivity|exact IH].
Qed.

Lemma references_sound (all_fields : list field_dict) (set : list json)
    (n : nat) (keep : field_dict * json -> bool) :
  (forall f, In f all_fields -> absent set f = true -> sound_field f = true) ->
  let refs :=
    map snd (filter keep (gw_fields E (filter (absent set) all_fields) n)) in
  forallb sound refs = true /\ flat_map floats_in refs = [].
Proof.
  intros H refs.
  assert (Hall : Forall (fun v => sound v = true /\ floats_in v = []) refs).
  { apply Forall_forall. intros v Hv.
    apply in_map_iff in Hv as (p & <- & Hp). apply filter_In in Hp as [Hp _].
    apply gw_fields_in in Hp as [Hin [k ->]].
    apply filter_In in Hin as [Hin Ha]. now apply gw_field_sound, H. }
  clearbody refs. induction Hall as [|v refs [H1 H2] _ [IH1 IH2]];
    [now split|].
  cbn [forallb flat_map]. now rewrite H1, H2, IH1, IH2.
Qed.

Lemma floats_read_back_extend (l more : list json) :
  floats_read_back (JArr l) -> flat_map floats_in more = [] ->
  floats_read_back (JArr (l ++ more)).
Proof.
  unfold floats_read_back. cbn [floats_in]. intros Hl Hm.
  rewrite flat_map_app, Hm, app_nil_r. exact Hl.
Qed.

Lemma item_fids_closed (m enc : list (text * json)) (dims meas set : list json) :
  dict_get (T "encodings") m = Some (JObj enc) ->
  dict_get (T "dimensions") enc = Some (JArr dims) ->
  dict_get (T "measures") enc = Some (JArr meas) ->
  field_set (dims ++ meas) = Ok set ->
  item_fids (JObj m) = Ok set.
Proof.
  intros He Hd Hm Hs. unfold item_fids, item_fields.
  cbn [getitem]. rewrite He. cbn [rbind getitem].
  rewrite Hd, Hm. cbn [rbind iterate_sum]. exact Hs.
Qed.

Lemma fill_item_sound (all_fields : list field_dict) (item item' : json)
    (n n' : nat) :
  (forall set, item_fids item = Ok set ->
               forall f, In f all_fields -> absent set f = true ->
                         sound_field f = true) ->
  sound item = true -> floats_read_back item ->
  fill_item E all_fields item n = Ok (item', n') ->
  sound item' = true /\ floats_read_back item'.
Proof.
  intros Hf Hp Hfl H. apply fill_item_closed in H.
  destruct H as (m & enc & dims & meas & set & -> & Henc & Hdims & Hmeas
                 & Hset & -> & _).
  pose proof (@item_fids_closed _ _ _ _ _ Henc Hdims Hmeas Hset) as Hfids.
  specialize (Hf set Hfids).
  pose proof (@sound_dict_get _ _ _ Hp Henc) as Hpe.
  pose proof (@sound_dict_get _ _ _ Hpe Hdims) as Hpd.
  pose proof (@sound_dict_get _ _ _ Hpe Hmeas) as Hpm.
  pose proof (@floats_read_back_get _ _ _ _ Hfl Henc) as Hfe.
  pose proof (@floats_read_back_get _ _ _ _ Hfe Hdims) as Hfd.
  pose proof (@floats_read_back_get _ _ _ _ Hfe Hmeas) as Hfm.
  destruct (@references_sound all_fields set n (fun p => is_dimension (fst p)) Hf)
    as [Hd1 Hd2].
  destruct (@references_sound all_fields set n
              (fun p => negb (is_dimension (fst p))) Hf)
    as [Hm1 Hm2].
  split.
  - apply sound_dict_set; [low_text|exact Hp|].
    apply sound_dict_set; [low_text|apply sound_dict_set; [low_text|exact Hpe|]|].
    + cbn [sound] in *. rewrite forallb_app, Hpd. exact Hd1.
    + cbn [sound] in *. rewrite forallb_app, Hpm. exact Hm1.
  - apply floats_read_back_set; [exact Hfl|].
    apply floats_read_back_set; [apply floats_read_back_set; [exact Hfe|]|].
    + now apply floats_read_back_extend.
    + now apply floats_read_back_extend.
Qed.

Lemma fill_items_sound (all_fields : list field_dict) (items : list json) :
  (forall item set f, In item items -> item_fids item = Ok set ->
                      In f all_fields -> absent set f = true ->
                      sound_field f = true) ->
  sound (JArr items) = true -> floats_read_back (JArr items) ->
  forall n items' n',
    fill_items E all_fields items n = Ok (items', n') ->
    sound (JArr items') = true /\ floats_read_back (JArr items').
Proof.
  induction items as [|item rest IH]; intros Hf Hp Hfl n items' n' H.
  - injection H as <- <-. now split.
  - cbn [sound forallb] in Hp. apply andb_true_iff in Hp as [Hpi Hpr].
    apply floats_read_back_cons in Hfl as [Hfi Hfr]. simpl in H.
    apply rbind_ok in H as ([item' n1] & Hi & H).
    apply rbind_ok in H as ([rest' n2] & Hr & H).
    injection H as <- <-.
    destruct (@fill_item_sound all_fields _ _ _ _
                (fun set Hs f => Hf item set f (or_introl eq_refl) Hs) Hpi Hfi Hi)
      as [H1 H2].
    destruct (IH (fun i set f Hin => Hf i set f (or_intror Hin))
                Hpr Hfr _ _ _ Hr) as [H3 H4].
    split.
    + cbn [sound forallb] in *. now rewrite H1, H3.
    + unfold floats_read_back in *. cbn [floats_in flat_map] in *.
      apply Forall_app. now split.
Qed.

Lemma filled_sound (all_fields : list field_dict) (obj obj' : json)
    (n n' : nat) :
  (forall f, In f all_fields -> lacked obj f -> sound_field f = true) ->
  sound obj = true -> floats_read_back obj ->
  filled E all_fields obj n = Ok (obj', n') ->
  sound obj' = true /\ floats_read_back obj'.
Proof.
  unfold filled. intros Hf Hp Hfl H.
  apply rbind_ok in H as (items & Hi & H).
  apply rbind_ok in H as ([items' n1] & Hfi & H).
  destruct obj; try discriminate; injection H as <- <-; try (now split).
  injection Hi as <-. apply fill_items_sound in Hfi; try assumption.
  intros item set f Hin Hs Hin' Ha. apply Hf; [exact Hin'|].
  now exists item, set.
Qed.

End SoundReferences.

Section Again.

Context {floats : PyFloat}.
Variable E : env.

(** After reconciliation a chart item lacks no dataset field. *)
Lemma fill_item_settles (all_fields : list field_dict) (item item' : json)
    (n n' : nat) :
  fill_item E all_fields item n = Ok (item', n') ->
  settled all_fields item' = true.
Proof.
  intros H. apply fill_item_closed in H.
  destruct H as (m & enc & dims & meas & set & -> & Henc & Hdims & Hmeas
                 & Hset & -> & _ & Hfid & _).
  set (g := gw_fields E (filter (absent set) all_fields) n).
  set (enc1 := dict_set (T "dimensions") (JArr (dims ++ dims_of g)) enc).
  set (enc2 := dict_set (T "measures") (JArr (meas ++ meas_of g)) enc1).
  assert (H1 : dict_get (T "encodings") (dict_set (T "encodings") (JObj enc2) m)
               = Some (JObj enc2)) by apply dict_get_set_same.
  assert (H2 : dict_get (T "dimensions") enc2 = Some (JArr (dims ++ dims_of g))).
  { unfold enc2, enc1. rewrite dict_get_set_other, dict_get_set_same;
      [reflexivity|discriminate]. }
  assert (H3 : dict_get (T "measures") enc2 = Some (JArr (meas ++ meas_of g)))
    by apply dict_get_set_same.
  apply field_set_map in Hset as [Hall Hset].
  apply Forall_app in Hall as [Hd Hm].
  assert (Hset' : field_set ((dims ++ dims_of g) ++ (meas ++ meas_of g))
                  = Ok (map fid_of ((dims ++ dims_of g) ++ (meas ++ meas_of g)))).
  { apply field_set_map. split; [|reflexivity].
    repeat (apply Forall_app; split); try assumption;
      now apply references_ok. }
  unfold settled, channel, item_fids, item_fields.
  rewrite H1, H2, H3. cbn [getitem]. rewrite H1. cbn [rbind getitem].
  rewrite H2, H3. cbn [rbind iterate_sum]. rewrite Hset'.
  pose proof (@none_absent _ E all_fields set n dims meas Hfid Hset) as Hna.
  cbv zeta in Hna. fold g in Hna.
  apply forallb_forall. intros f Hin.
  rewrite Forall_forall in Hna. destruct (Hna f Hin) as (fid & Hf & Hp).
  unfold present. now rewrite Hf.
Qed.

Lemma fill_items_settle (all_fields : list field_dict) (items : list json) :
  forall n items' n',
    fill_items E all_fields items n = Ok (items', n') ->
    forallb (settled all_fields) items' = true.
Proof.
  induction items as [|item rest IH]; intros n items' n' H.
  - now injection H as <- <-.
  - simpl in H.
    apply rbind_ok in H as ([item' n1] & Hi & H).
    apply rbind_ok in H as ([rest' n2] & Hr & H).
    injection H as <- <-. cbn [forallb].
    now rewrite (fill_item_settles _ _ _ Hi), (IH _ _ _ Hr).
Qed.

(** Reconciling what was reconciled, with its pairs joined, changes
    nothing. *)
Lemma filled_joined_again (all_fields : list field_dict) (obj obj' : json)
    (n n' : nat) :
  (chart_items obj <> [] -> forallb fid_unpaired all_fields = true) ->
  filled E all_fields obj n = Ok (obj', n') ->
  forall k, filled E all_fields (norm obj') k = Ok (norm obj', k).
Proof.
  unfold filled. intros Hu H k.
  apply rbind_ok in H as (items & Hi & H).
  apply rbind_ok in H as ([items' n1] & Hf & H).
  destruct obj; try discriminate; injection H as <- <-.
  - destruct s as [|c s]; [reflexivity|]. simpl in Hi. injection Hi as <-.
    simpl in Hf. discriminate.
  - simpl in Hi. injection Hi as <-. cbn [chart_items] in Hu.
    destruct items0 as [|item items0]; [now injection Hf as <- <-|].
    specialize (Hu ltac:(discriminate)).
    cbn [norm iterate rbind]. apply fill_items_settle in Hf.
    rewrite fill_items_settled; [reflexivity|].
    rewrite forallb_forall in Hf. apply forallb_forall. intros x Hx.
    apply in_map_iff in Hx as (y & <- & Hy).
    apply settled_norm; [exact Hu|now apply Hf].
  - destruct members as [|[key v] members]; [reflexivity|].
    simpl in Hi. injection Hi as <-. simpl in Hf. discriminate.
Qed.

(** C6, as the code has it. Reconciliation is idempotent when no two keys
    of one object of the configuration differ only in how a surrogate pair
    is written, nor two keys of a dataset field that some chart item lacks,
    and, if there is a chart item at all, no fid of a dataset field holds a
    surrogate pair: reconciling the text that [fill_new_fields] returned,
    with the same dataset fields, returns that text again and draws no
    random string. (The texts are [str], and the floats of the configuration
    are read from what is written for them, as in Python.) *)
Theorem reconciliation_idempotent (config : text) (config_obj : json)
    (all_fields : list field_dict) (n : nat) (out : text) (n' : nat) :
  json_loads config = Ok config_obj ->
  sound config_obj = true ->
  floats_read_back config_obj ->
  forallb str_field all_fields = true ->
  (forall k, is_str (rand_str E k) = true) ->
  (chart_items config_obj <> [] ->
   forallb fid_unpaired all_fields = true) ->
  (forall field, In field all_fields -> lacked config_obj field ->
                 keys_apart field = true) ->
  fill_new_fields E config all_fields n = Ok (out, n') ->
  forall k, fill_new_fields E out all_fields k = Ok (out, k).
Proof.
  intros Hl Hp Hfl Hf Hr Hu Hk H k. unfold fill_new_fields in *.
  rewrite Hl in H. cbn [rbind] in H.
  apply rbind_ok in H as ([obj n1] & Hfi & H). injection H as <- <-.
  assert (Hsf : forall f, In f all_fields -> lacked config_obj f ->
                          sound_field f = true).
  { intros f Hin Hla. unfold sound_field. rewrite (Hk f Hin Hla).
    rewrite forallb_forall in Hf. now rewrite (Hf f Hin). }
  destruct (@filled_sound _ E Hr _ _ _ _ _ Hsf Hp Hfl Hfi) as [Hs Hb].
  rewrite dumps_loads_norm by assumption. cbn [rbind].
  rewrite (@filled_joined_again _ _ _ _ _ Hu Hfi k). cbn [rbind].
  now rewrite dumps_norm.
Qed.

End Again.

(** A float of the sample floats that is read back. *)
Lemma sample_float_reads_back : float_reads_back (T "1.5").
Proof.
  intros fuel [|c r] Hr; [reflexivity|].
  unfold delimited in Hr. rewrite !orb_true_iff, !N.eqb_eq in Hr.
  destruct Hr as [[->| ->]| ->]; reflexivity.
Qed.

(** A chart with a float, and a dataset field whose name holds a surrogate
    pair: the second reconciliation returns the text of the first. *)
Lemma reconciliation_idempotent_witness :
  let E := sample_env (T "online") (Raise URLError) in
  let config :=
    Q "[{'encodings': {'dimensions': [{'fid': 'a1', 'name': 'x'}], 'measures': []}, 'w': 1.5}]" in
  let all_fields :=
    [[(T "fid", T "a1"); (T "name", T "x"); (T "analyticType", T "dimension")];
     [(T "fid", T "b"); (T "name", [55357; 56832]%N);
      (T "analyticType", T "measure")]] in
  exists out n',
    fill_new_fields E config all_fields 0 = Ok (out, n')
    /\ fill_new_fields E out all_fields 5 = Ok (out, 5).
Proof.
  intros E config all_fields.
  destruct (fill_new_fields E config all_fields 0) as [[out n']|e] eqn:H;
    [|vm_compute in H; discriminate].
  destruct (json_loads config) as [config_obj|e] eqn:Hl;
    [|vm_compute in Hl; discriminate].
  pose proof Hl as Hl'. vm_compute in Hl'. injection Hl' as <-.
  exists out, n'. split; [reflexivity|].
  apply (@reconciliation_idempotent _ E config _ all_fields 0 out n' Hl);
    try reflexivity; try exact H.
  - constructor; [apply sample_float_reads_back|constructor].
  - intros k. apply plain_text_str, sample_rand_plain.
  - intros field [<-|[<-|[]]] _; reflexivity.
Defined.

(** C6 as stated fails. A fid that holds a surrogate pair as two code
    points is written as two escapes, which read back as one code point:
    the field is absent again, and is added a second time. And without any
    dataset field: two keys of a chart, one with the pair as two code points
    and one with the code point they stand for, are written the same way,
    and what is written reads back as one key. So do two such keys of a
    dataset field that the chart lacks. *)
Lemma reconciliation_idempotent_counterexample :
  let E := sample_env (T "online") (Raise URLError) in
  let config := Q "[{'encodings': {'dimensions': [], 'measures': []}}]" in
  let all_fields :=
    [[(T "fid", [55296; 56320]%N); (T "name", T "n");
      (T "analyticType", T "dimension")]] in
  let config2 :=
    Q "[{'encodings': {'dimensions': [], 'measures': []}, '"
    ++ [55357; 56832]%N ++ Q "': 1, '" ++ [128512]%N ++ Q "': 2}]" in
  let all_fields3 :=
    [[(T "fid", T "a"); (T "name", T "n"); (T "analyticType", T "dimension");
      ([55357; 56832]%N, T "u"); ([128512]%N, T "v")]] in
  (exists once twice,
      fill_new_fields E config all_fields 0 = Ok (once, 1)
      /\ fill_new_fields E once all_fields 1 = Ok (twice, 2)
      /\ twice <> once)
  /\ (exists once twice,
         fill_new_fields E config2 [] 0 = Ok (once, 0)
         /\ fill_new_fields E once [] 0 = Ok (twice, 0)
         /\ twice <> once)
  /\ (exists once twice,
         fill_new_fields E config all_fields3 0 = Ok (once, 1)
         /\ fill_new_fields E once all_fields3 1 = Ok (twice, 1)
         /\ twice <> once).
Proof.
  intros E config all_fields config2 all_fields3. split; [|split].
  - eexists. eexists.
    split; [vm_compute; reflexivity|].
    split; [vm_compute; reflexivity|].
    intros H. apply (f_equal (@length N)) in H. vm_compute in H. discriminate.
  - eexists. eexists.
    split; [vm_compute; reflexivity|].
    split; [vm_compute; reflexivity|].
    intros H. apply (f_equal (@length N)) in H. vm_compute in H. discriminate.
  - eexists. eexists.
    split; [vm_compute; reflexivity|].
    split; [vm_compute; reflexivity|].
    intros H. apply (f_equal (@length N)) in H. vm_compute in H. discriminate.
Qed.
